(** * NutriScan: ingredient resolution, nutrient evaluation and safety score

    A shallow embedding of [model2.py] (text normalisation, fuzzy matching,
    ingredient classification, nutrient evaluation, product analysis) and of
    [model3.py] (sub-scores and the combined safety score), with the
    properties the specification states about them.

    Modelling conventions.
    - A Python [str] is a [string]: a sequence of characters with code
      points 0..255.  Case mapping and the whitespace class follow Python on
      that range.
    - A Python [float] is modelled at two levels.  In [Double] it is a
      binary64 number: an operation returns the float nearest to its exact
      result, ties to even, or an infinity or a NaN, and [round(x, 2)] is the
      float nearest to the value rounded to hundredths; the value of a score
      is stated there.  Elsewhere it is the exact rational ([Q]) that the
      float stands for, [round(x, 2)] rounds to the nearest hundredth, ties
      to even, and equality of scores is [Qeq]; what is stated there (ranges,
      orders, the branch taken, the data that is read) does not depend on
      the rounding of the arithmetic.
    - An exception is a value of [exn]; fallible functions return [result].
    - [dict]s are [gmap]s; data frames are lists of row records.
    - [fuzz.ratio] of rapidfuzz is a parameter of the matcher; [indel_ratio]
      is its definition (normalised indel similarity, 0..100) and
      instantiates the parameter wherever a concrete run is shown. *)

From Stdlib Require Import QArith Qround Qminmax Qpower Qabs Lqa.
From Stdlib Require Import Strings.Ascii Strings.String.
From stdpp Require Import gmap strings list fin_maps.
From Stdlib Require Import Sorting.Sorted Permutation.

Local Open Scope string_scope.

(** ** Exceptions *)

Inductive exn : Type :=
  | ZeroDivisionError
  | IndexError
  | ValueError
  | AttributeError
  | TypeError
  | OverflowError.

Inductive result (A : Type) : Type :=
  | Ok (a : A)
  | Raise (e : exn).

Arguments Ok {A} a.
Arguments Raise {A} e.

#[global] Instance result_ret : MRet result := fun A a => Ok a.

#[global] Instance result_bind : MBind result := fun A B k r =>
  match r with
  | Ok a => k a
  | Raise e => Raise e
  end.

(** ** Characters and strings *)

Module Text.

Definition code (c : ascii) : N := N_of_ascii c.

Definition between (lo hi : N) (c : ascii) : bool :=
  (lo <=? code c)%N && (code c <=? hi)%N.

(** [str.isspace] and the regex class [\s] on code points below 256. *)
Definition is_space (c : ascii) : bool :=
  between 9 13 c || between 28 32 c || (code c =? 133)%N || (code c =? 160)%N.

(** The regex class [[a-z0-9]]. *)
Definition is_alnum_lower (c : ascii) : bool :=
  between 97 122 c || between 48 57 c.

(** The regex class [[0-9.]] ([\d] and the dot). *)
Definition is_digit (c : ascii) : bool := between 48 57 c.

Definition is_digit_or_dot (c : ascii) : bool :=
  is_digit c || (code c =? 46)%N.

(** [str.lower] on one character: A-Z and the accented capitals of Latin-1. *)
Definition lower_char (c : ascii) : ascii :=
  if between 65 90 c || (between 192 222 c && negb (code c =? 215)%N)
  then ascii_of_N (code c + 32)
  else c.

Fixpoint str_map (f : ascii -> ascii) (s : string) : string :=
  match s with
  | EmptyString => EmptyString
  | String c s' => String (f c) (str_map f s')
  end.

Definition lower (s : string) : string := str_map lower_char s.

(** [re.sub(r"[^a-z0-9\s]", " ", text)]. *)
Definition sub_non_alnum (s : string) : string :=
  str_map (fun c => if is_alnum_lower c || is_space c then c else " "%char) s.

(** [re.sub(r"\s+", " ", text)]: [in_run] tells that the run of whitespace
    being read has already produced its space. *)
Fixpoint sub_space_runs (in_run : bool) (s : string) : string :=
  match s with
  | EmptyString => EmptyString
  | String c s' =>
      if is_space c
      then (if in_run then sub_space_runs true s'
            else String " " (sub_space_runs true s'))
      else String c (sub_space_runs false s')
  end.

Fixpoint lstrip (s : string) : string :=
  match s with
  | EmptyString => EmptyString
  | String c s' => if is_space c then lstrip s' else s
  end.

Definition is_empty (s : string) : bool :=
  match s with EmptyString => true | _ => false end.

Fixpoint rstrip (s : string) : string :=
  match s with
  | EmptyString => EmptyString
  | String c s' =>
      let r := rstrip s' in
      if is_space c && is_empty r then EmptyString else String c r
  end.

(** [str.strip()]. *)
Definition strip (s : string) : string := rstrip (lstrip s).

(** Splitting at the characters of a class, dropping empty pieces; [w] is
    the piece being read. *)
Fixpoint fields_aux (sep : ascii -> bool) (w : string) (s : string) : list string :=
  match s with
  | EmptyString => if is_empty w then [] else [w]
  | String c s' =>
      if sep c
      then (if is_empty w then fields_aux sep "" s'
            else w :: fields_aux sep "" s')
      else fields_aux sep (w +:+ String c "") s'
  end.

(** [str.split()] with no argument. *)
Definition split (s : string) : list string := fields_aux is_space "" s.

Fixpoint str_forall (p : ascii -> bool) (s : string) : bool :=
  match s with
  | EmptyString => true
  | String c s' => p c && str_forall p s'
  end.

Fixpoint str_filter (p : ascii -> bool) (s : string) : string :=
  match s with
  | EmptyString => EmptyString
  | String c s' => if p c then String c (str_filter p s') else str_filter p s'
  end.

End Text.

Import Text.

(** ** model2.py: [clean_text] *)

Definition clean_text (text : string) : string :=
  let text := lower text in
  let text := sub_non_alnum text in
  let text := strip (sub_space_runs false text) in
  text.

(** The normaliser as the specification words it: characters outside
    [[a-z0-9\s]] are stripped (removed), then whitespace is collapsed and
    trimmed. *)
Definition normalize_spec (text : string) : string :=
  strip (sub_space_runs false
           (str_filter (fun c => is_alnum_lower c || is_space c) (lower text))).

(** ** Numbers *)

Module Num.

Definition round_half_even (x : Q) : Z :=
  let f := Qfloor x in
  match (x - inject_Z f ?= 1 # 2)%Q with
  | Lt => f
  | Gt => (f + 1)%Z
  | Eq => if Z.even f then f else (f + 1)%Z
  end.

(** [round(x, 2)]. *)
Definition round2 (x : Q) : Q :=
  (inject_Z (round_half_even (x * 100)) / 100)%Q.

(** [min(a, b)] and [max(a, b)] keep the first argument unless the second
    is strictly smaller (larger). *)
Definition py_min (a b : Q) : Q :=
  match (b ?= a)%Q with Lt => b | _ => a end.

Definition py_max (a b : Q) : Q :=
  match (b ?= a)%Q with Gt => b | _ => a end.

Definition Qltb (a b : Q) : bool :=
  match (a ?= b)%Q with Lt => true | _ => false end.

Definition Qgtb (a b : Q) : bool := Qltb b a.

Definition Qgeb (a b : Q) : bool := negb (Qltb a b).

(** [a / b] on floats. *)
Definition truediv (a b : Q) : result Q :=
  if Qeq_bool b 0 then Raise ZeroDivisionError else Ok (a / b)%Q.

End Num.

Import Num.

(** ** model3.py *)

(** An ingredient finding is the dict [{"name", "status", "reason"}]. *)
Abbreviation finding := (gmap string string).

Definition mapping : gmap string Z :=
  {[ "safe" := 1%Z; "caution" := 0%Z; "unsafe" := (-1)%Z; "unknown" := 0%Z ]}.

Definition status_weight (ing : finding) : Z :=
  default 0%Z (mapping !! lower (default "" (ing !! "status"))).

Definition _compute_ingredient_score (ingredient_analysis : list finding) : result Q :=
  match ingredient_analysis with
  | [] => Ok 5%Q
  | _ =>
      let raw := fold_left (fun raw ing => (raw + status_weight ing)%Z)
                           ingredient_analysis 0%Z in
      let n := Z.of_nat (length ingredient_analysis) in
      q ← truediv (inject_Z (raw + n)) (inject_Z (2 * n));
      let normalized := (q * 10)%Q in
      Ok (round2 normalized)
  end.

(** [float(d.get(k, 0) or 0)] on a dict of numbers, [None] allowed. *)
Definition number_or_0 (nutrition_info : gmap string (option Q)) (k : string) : Q :=
  match nutrition_info !! k with
  | Some (Some v) => v
  | _ => 0%Q
  end.

Definition dict_empty {V} (d : gmap string V) : bool := bool_decide (size d = 0).

Definition _compute_nutrition_score_from_values
    (nutrition_info : gmap string (option Q)) : Q :=
  if dict_empty nutrition_info then 5%Q else
  let sugar := number_or_0 nutrition_info "sugar_g" in
  let sodium := number_or_0 nutrition_info "sodium_mg" in
  let fat := number_or_0 nutrition_info "total_fat_g" in
  let protein := number_or_0 nutrition_info "protein_g" in
  let base := 5%Q in
  let sugar_penalty := py_min (sugar / 10) (5 # 2) in
  let sodium_penalty := py_min (sodium / 500) 2 in
  let fat_penalty := py_min (fat / 10) (3 # 2) in
  let protein_bonus := py_min (protein / 5) 2 in
  let adj := (- sugar_penalty - sodium_penalty - fat_penalty + protein_bonus)%Q in
  let score := py_max 0 (py_min 10 (base + adj)) in
  round2 score.

Definition len {A} (l : list A) : Q := inject_Z (Z.of_nat (length l)).

Definition _compute_nutrition_score_from_pros_cons
    (nutrition_pros nutrition_cons : list string) : Q :=
  let base := 5%Q in
  let base := (base + len nutrition_pros * (1 # 2))%Q in
  let base := (base - len nutrition_cons * (7 # 10))%Q in
  round2 (py_max 0 (py_min 10 base)).

(** The normalisation of the two weights inside [compute_safety_score]. *)
Definition normalized_weights (weight_ingredient weight_nutrition : Q)
    : result (Q * Q) :=
  let w_ing := weight_ingredient in
  let w_nut := weight_nutrition in
  let total_w := if negb (Qeq_bool (w_ing + w_nut) 0) then (w_ing + w_nut)%Q else 1%Q in
  w_ing ← truediv w_ing total_w;
  w_nut ← truediv w_nut total_w;
  Ok (w_ing, w_nut).

Definition nutrition_score
    (nutrition_info : option (gmap string (option Q)))
    (nutrition_pros nutrition_cons : option (list string)) : Q :=
  match nutrition_info with
  | Some d =>
      if negb (dict_empty d) then _compute_nutrition_score_from_values d
      else _compute_nutrition_score_from_pros_cons
             (default [] nutrition_pros) (default [] nutrition_cons)
  | None =>
      _compute_nutrition_score_from_pros_cons
        (default [] nutrition_pros) (default [] nutrition_cons)
  end.

Definition compute_safety_score
    (ingredient_analysis : list finding)
    (nutrition_info : option (gmap string (option Q)))
    (nutrition_pros nutrition_cons : option (list string))
    (weight_ingredient weight_nutrition : Q) : result Q :=
  ingr_score ← _compute_ingredient_score ingredient_analysis;
  let nutri_score := nutrition_score nutrition_info nutrition_pros nutrition_cons in
  '(w_ing, w_nut) ← normalized_weights weight_ingredient weight_nutrition;
  let final := (ingr_score * w_ing + nutri_score * w_nut)%Q in
  let final := py_max 0 (py_min 10 final) in
  Ok (round2 final).

(** Values found in the dict that [analyze_product] returns and that
    [compute_safety_score_from_model2_output] reads. *)
Inductive pyval : Type :=
  | PyNone
  | PyStr (s : string)
  | PyFindings (l : list finding)
  | PyStrList (l : list string)
  | PyNumbers (d : gmap string (option Q)).

Definition truthy (v : pyval) : bool :=
  match v with
  | PyNone => false
  | PyStr s => negb (is_empty s)
  | PyFindings l => negb (bool_decide (length l = 0))
  | PyStrList l => negb (bool_decide (length l = 0))
  | PyNumbers d => negb (dict_empty d)
  end.

(** [a or b]. *)
Definition py_or (a b : pyval) : pyval := if truthy a then a else b.

(** The shapes [compute_safety_score] goes on with; a value of another
    shape makes Python raise when it is used (a [str] has no [get]). *)
Definition as_findings (v : pyval) : result (list finding) :=
  match v with
  | PyFindings l => Ok l
  | _ => if truthy v then Raise AttributeError else Ok []
  end.

Definition as_numbers (v : pyval) : result (option (gmap string (option Q))) :=
  match v with
  | PyNumbers d => Ok (Some d)
  | _ => if truthy v then Raise AttributeError else Ok None
  end.

(** The two lists of descriptions are only measured ([len]); a truthy value
    of another shape is outside the contract of the function and is
    rejected here. *)
Definition as_strings (v : pyval) : result (option (list string)) :=
  match v with
  | PyStrList l => Ok (Some l)
  | _ => if truthy v then Raise TypeError else Ok None
  end.

Definition compute_safety_score_from_model2_output
    (model2_output : gmap string pyval)
    (weight_ingredient weight_nutrition : Q) : result Q :=
  let ingredient_analysis :=
    default (PyFindings []) (model2_output !! "ingredient_analysis") in
  let nutrition_info :=
    py_or (py_or (default PyNone (model2_output !! "nutrition"))
                 (default PyNone (model2_output !! "nutrition_info")))
          PyNone in
  let pros := default (PyStrList []) (model2_output !! "nutrition_pros") in
  let cons := default (PyStrList []) (model2_output !! "nutrition_cons") in
  ingredient_analysis ← as_findings ingredient_analysis;
  nutrition_info ← as_numbers nutrition_info;
  pros ← as_strings pros;
  cons ← as_strings cons;
  compute_safety_score ingredient_analysis nutrition_info pros cons
    weight_ingredient weight_nutrition.

(** ** rapidfuzz: [fuzz.ratio] *)

(** Length of a longest common subsequence. *)
Fixpoint lcs (a b : string) : nat :=
  match a with
  | EmptyString => 0
  | String x a' =>
      (fix scan (b : string) : nat :=
         match b with
         | EmptyString => 0
         | String y b' =>
             if Ascii.eqb x y then S (lcs a' b')
             else Nat.max (lcs a' b) (scan b')
         end) b
  end.

(** Normalised indel similarity on the scale 0..100: with [d] the indel
    distance [|a| + |b| - 2 lcs], the score is [100 (1 - d / (|a| + |b|))],
    and 100 for two empty strings. *)
Definition indel_ratio (a b : string) : Q :=
  let total := (String.length a + String.length b)%nat in
  if (total =? 0)%nat then 100%Q
  else (inject_Z (Z.of_nat (200 * lcs a b)) / inject_Z (Z.of_nat total))%Q.

(** ** model2.py: data *)

(** A row of [ingredients_safety_merged.csv]. *)
Record safety_row : Type := {
  ingredient_name : string;
  safety_status : string;
  reason_for_unsafety : string
}.

(** A row of [nutrition_standards.csv]. *)
Record nutrition_row : Type := {
  nutrient : string;
  low_threshold : Q;
  high_threshold : Q;
  note : string
}.

(** A value of the nutrition dict of a product: missing ([None] or NaN), a
    number, or text. *)
Inductive nutrient_value : Type :=
  | VNull
  | VNum (v : Q)
  | VStr (s : string).

(** The keys of [product_json] that [analyze_product] reads; [None] is an
    absent key. *)
Record product : Type := {
  get_product_name : option string;
  get_ingredients : option (list string);
  get_nutrition : option (gmap string nutrient_value)
}.

(** ** model2.py: [match_ingredient] *)

Section Matcher.

Variable ratio : string -> string -> Q.

(** One turn of the first loop: the state is [(highest_score, best_match)]. *)
Definition best_step (ingr_clean : string) (st : Q * option string) (ref : string)
    : Q * option string :=
  let '(highest_score, best_match) := st in
  let ref_clean := clean_text ref in
  let score := ratio ingr_clean ref_clean in
  if Qgtb score highest_score then (score, Some ref) else (highest_score, best_match).

(** The second loop: the first [ref] one of whose words is a word of the
    ingredient. *)
Fixpoint first_overlap (ingr_words : list string) (refs : list string) : option string :=
  match refs with
  | [] => None
  | ref :: refs' =>
      let ref_words := split (clean_text ref) in
      if existsb (fun word => bool_decide (word ∈ ref_words)) ingr_words
      then Some ref
      else first_overlap ingr_words refs'
  end.

(** The result is [None] when Python returns [None]. *)
Definition match_ingredient (ingredient : string) (ingredients_list : list string)
    (threshold : Q) : option string :=
  let ingr_clean := clean_text ingredient in
  let '(highest_score, best_match) :=
    fold_left (best_step ingr_clean) ingredients_list (0%Q, None) in
  if Qgeb highest_score threshold then best_match
  else match first_overlap (split ingr_clean) ingredients_list with
       | Some ref => Some ref
       | None => Some ingredient
       end.

(** ** model2.py: [detect_ingredients] *)

Definition order : gmap string nat :=
  {[ "unsafe" := 0; "caution" := 1; "safe" := 2; "unknown" := 3 ]}.

(** The sort key [lambda x: order.get(x['status'], 3)]. *)
Definition severity (x : finding) : nat :=
  default 3 (order !! (x !!! "status")).

(** [sorted(l, key=key)]: the stable sort by key. *)
Fixpoint insert_by {A} (key : A -> nat) (x : A) (l : list A) : list A :=
  match l with
  | [] => [x]
  | y :: l' => if (key x <=? key y)%nat then x :: l else y :: insert_by key x l'
  end.

Definition sorted {A} (key : A -> nat) (l : list A) : list A :=
  foldr (insert_by key) [] l.

(** The rows whose lower-cased name is the lower-cased canonical name; the
    first one is [iloc[0]]. *)
Definition safety_rows (ingredient_safety_df : list safety_row) (canonical_name : string)
    : list safety_row :=
  filter (fun row => lower (ingredient_name row) = lower canonical_name)
         ingredient_safety_df.

Definition classify (ingredient_safety_df : list safety_row) (canonical_name : string)
    : finding :=
  match safety_rows ingredient_safety_df canonical_name with
  | row :: _ =>
      {[ "name" := canonical_name;
         "status" := safety_status row;
         "reason" := reason_for_unsafety row ]}
  | [] =>
      {[ "name" := canonical_name;
         "status" := "unknown";
         "reason" := "No information available" ]}
  end.

Fixpoint detect_loop (ingredient_safety_df : list safety_row)
    (ingredients_list : list string) (ingredients_input : list string)
    (results : list finding) : result (list finding) :=
  match ingredients_input with
  | [] => Ok results
  | ingr :: rest =>
      match match_ingredient ingr ingredients_list 80 with
      | None => Raise AttributeError
      | Some canonical_name =>
          detect_loop ingredient_safety_df ingredients_list rest
            (results ++ [classify ingredient_safety_df canonical_name])
      end
  end.

Definition detect_ingredients (ingredients_input : list string)
    (ingredient_safety_df : list safety_row) (ingredients_list : list string)
    : result (list finding) :=
  results ← detect_loop ingredient_safety_df ingredients_list ingredients_input [];
  Ok (sorted severity results).

End Matcher.

(** ** model2.py: [evaluate_nutrition] *)

(** [re.findall(r"[\d\.]+", value)]: the maximal runs of digits and dots. *)
Definition findall_numbers (value : string) : list string :=
  fields_aux (fun c => negb (is_digit_or_dot c)) "" value.

Fixpoint digits_value (acc : Z) (s : string) : Z :=
  match s with
  | EmptyString => acc
  | String c s' =>
      if is_digit c then digits_value (10 * acc + Z.of_N (code c - 48)) s'
      else digits_value acc s'
  end.

Fixpoint after_dot (s : string) : string :=
  match s with
  | EmptyString => EmptyString
  | String c s' => if is_digit c then after_dot s' else s'
  end.

(** [float(s)] for a run of digits and dots: one dot at most and one digit
    at least, or [ValueError]. *)
Definition float_of_run (s : string) : result Q :=
  let dots := String.length (str_filter (fun c => negb (is_digit c)) s) in
  let digits := str_filter is_digit s in
  if (1 <? dots)%nat || is_empty digits then Raise ValueError
  else Ok (inject_Z (digits_value 0 s)
           / inject_Z (10 ^ Z.of_nat (String.length (after_dot s))))%Q.

(** [float(re.findall(r"[\d\.]+", value)[0])]. *)
Definition float_of_text (value : string) : result Q :=
  match findall_numbers value with
  | [] => Raise IndexError
  | run :: _ => float_of_run run
  end.

Fixpoint evaluate_loop (nutrition_input : gmap string nutrient_value)
    (rows : list nutrition_row) (pros cons : list string)
    : result (list string * list string) :=
  match rows with
  | [] => Ok (pros, cons)
  | row :: rest =>
      let nutrient := nutrient row in
      match nutrition_input !! nutrient with
      | None | Some VNull => evaluate_loop nutrition_input rest pros cons
      | Some value =>
          value ← match value with
                  | VStr s => float_of_text s
                  | VNum v => Ok v
                  | VNull => Ok 0%Q
                  end;
          let low := low_threshold row in
          let high := high_threshold row in
          let note := note row in
          if Qltb value low then
            evaluate_loop nutrition_input rest pros
              (cons ++ ["Low " +:+ nutrient +:+ " (" +:+ note +:+ ")"])
          else if Qgtb value high then
            evaluate_loop nutrition_input rest pros
              (cons ++ ["High " +:+ nutrient +:+ " (" +:+ note +:+ ")"])
          else
            evaluate_loop nutrition_input rest
              (pros ++ ["Balanced " +:+ nutrient]) cons
      end
  end.

Definition evaluate_nutrition (nutrition_input : gmap string nutrient_value)
    (nutrition_df : list nutrition_row) : result (list string * list string) :=
  evaluate_loop nutrition_input nutrition_df [] [].

(** ** model2.py: [analyze_product] *)

Section Pipeline.

Variable ratio : string -> string -> Q.

Definition analyze_product (product_json : product)
    (ingredient_safety_df : list safety_row) (nutrition_df : list nutrition_row)
    (ingredients_list : list string) : result (gmap string pyval) :=
  let ingredients_input := default [] (get_ingredients product_json) in
  let nutrition_input := default ∅ (get_nutrition product_json) in
  let product_name := default "Unnamed Product" (get_product_name product_json) in
  ingredient_analysis ←
    detect_ingredients ratio ingredients_input ingredient_safety_df ingredients_list;
  '(nutrition_pros, nutrition_cons) ← evaluate_nutrition nutrition_input nutrition_df;
  Ok ({[ "product_name" := PyStr product_name;
         "ingredient_analysis" := PyFindings ingredient_analysis;
         "nutrition_pros" := PyStrList nutrition_pros;
         "nutrition_cons" := PyStrList nutrition_cons ]} : gmap string pyval).

End Pipeline.

(** ** Sample data *)

Module Sample.

Definition catalog : list safety_row :=
  [ {| ingredient_name := "Sugar"; safety_status := "caution";
       reason_for_unsafety := "High glycemic load" |};
    {| ingredient_name := "Salt"; safety_status := "caution";
       reason_for_unsafety := "Raises blood pressure" |};
    {| ingredient_name := "Palm Oil"; safety_status := "unsafe";
       reason_for_unsafety := "Saturated fat" |};
    {| ingredient_name := "Wheat Flour"; safety_status := "safe";
       reason_for_unsafety := "None" |} ].

Definition names : list string := map ingredient_name catalog.

Definition standards : list nutrition_row :=
  [ {| nutrient := "total_sugar_g"; low_threshold := 0; high_threshold := 10;
       note := "limit added sugars" |};
    {| nutrient := "protein_g"; low_threshold := 5; high_threshold := 50;
       note := "builds muscle" |};
    {| nutrient := "sodium_mg"; low_threshold := 0; high_threshold := 400;
       note := "watch salt intake" |} ].

Definition nutrition : gmap string nutrient_value :=
  {[ "total_sugar_g" := VStr "12.5 g"; "protein_g" := VNum 5;
     "sodium_mg" := VNum 120; "energy_kcal" := VStr "n/a" ]}.

Definition biscuit : product :=
  {| get_product_name := Some "Biscuit";
     get_ingredients := Some ["Wheat flour"; "Unknownite"; "palm oil"; "SUGAR"; "Iodised Salt"];
     get_nutrition := Some nutrition |}.

(** What [analyze_product] returns for [biscuit]. *)
Definition biscuit_findings : list finding :=
  [ {[ "name" := "Palm Oil"; "status" := "unsafe"; "reason" := "Saturated fat" ]};
    {[ "name" := "Sugar"; "status" := "caution"; "reason" := "High glycemic load" ]};
    {[ "name" := "Salt"; "status" := "caution"; "reason" := "Raises blood pressure" ]};
    {[ "name" := "Wheat Flour"; "status" := "safe"; "reason" := "None" ]};
    {[ "name" := "Unknownite"; "status" := "unknown";
       "reason" := "No information available" ]} ].

Definition biscuit_analysis : gmap string pyval :=
  {[ "product_name" := PyStr "Biscuit";
     "ingredient_analysis" := PyFindings biscuit_findings;
     "nutrition_pros" := PyStrList ["Balanced protein_g"; "Balanced sodium_mg"];
     "nutrition_cons" := PyStrList ["High total_sugar_g (limit added sugars)"] ]}.

(** The findings of Scenario A: two caution, one unknown. *)
Definition scenario_a : list finding :=
  [ {[ "name" := "Sugar"; "status" := "caution"; "reason" := "High glycemic load" ]};
    {[ "name" := "Salt"; "status" := "caution"; "reason" := "Raises blood pressure" ]};
    {[ "name" := "Unknownite"; "status" := "unknown";
       "reason" := "No information available" ]} ].

(** Four unsafe findings and a safe one; the status is read whatever its
    case. *)
Definition mostly_unsafe : list finding :=
  [ {[ "status" := "unsafe" ]}; {[ "status" := "UNSAFE" ]}; {[ "status" := "unsafe" ]};
    {[ "status" := "Safe" ]}; {[ "status" := "unsafe" ]} ].

(** The numbers of Scenario B. *)
Definition scenario_b : gmap string (option Q) :=
  {[ "sugar_g" := Some 5%Q; "sodium_mg" := Some 100%Q;
     "total_fat_g" := Some 3%Q; "protein_g" := Some 10%Q ]}.

Definition trace_protein : gmap string nutrient_value :=
  {[ "protein_g" := VStr "trace" ]}.

Definition protein_row : nutrition_row :=
  {| nutrient := "protein_g"; low_threshold := 5; high_threshold := 50;
     note := "builds muscle" |}.

End Sample.

(** ** The specification's wording *)

Module Spec.

(** The safety tier of a finding. *)
Inductive tier : Type := Safe | Caution | Unsafe | Unknown.

Definition tier_name (t : tier) : string :=
  match t with
  | Safe => "safe"
  | Caution => "caution"
  | Unsafe => "unsafe"
  | Unknown => "unknown"
  end.


(** unsafe(0) < caution(1) < safe(2) < unknown(3). *)
Definition tier_severity (t : tier) : nat :=
  match t with
  | Unsafe => 0
  | Caution => 1
  | Safe => 2
  | Unknown => 3
  end.

Definition has_tier (ing : finding) (t : tier) : Prop :=
  ing !! "status" = Some (tier_name t).

Definition sum_Z (l : list Z) : Z := foldr Z.add 0%Z l.

(** The value a threshold entry is compared with: the number supplied for
    its nutrient, or the first number read in the text supplied. *)
Definition present_value (nutrition_input : gmap string nutrient_value)
    (row : nutrition_row) : option Q :=
  match nutrition_input !! nutrient row with
  | Some (VNum v) => Some v
  | Some (VStr s) => match float_of_text s with Ok v => Some v | Raise _ => None end
  | _ => None
  end.

(** The text supplied for the nutrient of the entry, if any, holds a number. *)
Definition readable (nutrition_input : gmap string nutrient_value)
    (row : nutrition_row) : Prop :=
  forall s, nutrition_input !! nutrient row = Some (VStr s) ->
            exists v, float_of_text s = Ok v.

(** The three findings, each with its own condition: Low iff
    [v < low_threshold], High iff [v > high_threshold], Balanced otherwise. *)
Definition entry_cons (row : nutrition_row) (v : Q) : list string :=
  (if Qltb v (low_threshold row)
   then ["Low " +:+ nutrient row +:+ " (" +:+ note row +:+ ")"] else [])
  ++ (if Qgtb v (high_threshold row)
      then ["High " +:+ nutrient row +:+ " (" +:+ note row +:+ ")"] else []).

Definition entry_pros (row : nutrition_row) (v : Q) : list string :=
  if Qltb v (low_threshold row) || Qgtb v (high_threshold row) then []
  else ["Balanced " +:+ nutrient row].

Definition pros_of (nutrition_input : gmap string nutrient_value)
    (row : nutrition_row) : list string :=
  match present_value nutrition_input row with
  | Some v => entry_pros row v
  | None => []
  end.

Definition cons_of (nutrition_input : gmap string nutrient_value)
    (row : nutrition_row) : list string :=
  match present_value nutrition_input row with
  | Some v => entry_cons row v
  | None => []
  end.

(** The similarity score of a catalog name for an ingredient. *)
Definition similarity (ratio : string -> string -> Q) (ingredient ref : string) : Q :=
  ratio (clean_text ingredient) (clean_text ref).

(** The normalised catalog name shares a whitespace token with the
    normalised ingredient. *)
Definition shares_token (ingredient ref : string) : Prop :=
  exists word, word ∈ split (clean_text ingredient) /\ word ∈ split (clean_text ref).

(** [ref] is the first name of the catalog, in scan order, that attains the
    maximum of the similarity scores. *)
Definition first_maximum (ratio : string -> string -> Q) (ingredient : string)
    (catalog : list string) (ref : string) : Prop :=
  exists l1 l2, catalog = (l1 ++ ref :: l2)%list
    /\ (forall x, x ∈ l1 -> (similarity ratio ingredient x < similarity ratio ingredient ref)%Q)
    /\ (forall x, x ∈ l2 -> (similarity ratio ingredient x <= similarity ratio ingredient ref)%Q).

(** [ref] is the first name of the catalog that shares a token. *)
Definition first_sharing (ingredient : string) (catalog : list string) (ref : string)
    : Prop :=
  exists l1 l2, catalog = (l1 ++ ref :: l2)%list
    /\ (forall x, x ∈ l1 -> ~ shares_token ingredient x)
    /\ shares_token ingredient ref.

(** The catalog name an ingredient is resolved to by [detect_ingredients]
    (threshold 80), and the finding made of it. *)
Definition resolve (ratio : string -> string -> Q) (ingredients_list : list string)
    (ingr : string) : string :=
  default ingr (match_ingredient ratio ingr ingredients_list 80).

Definition finding_of (ratio : string -> string -> Q)
    (ingredient_safety_df : list safety_row) (ingredients_list : list string)
    (ingr : string) : finding :=
  classify ingredient_safety_df (resolve ratio ingredients_list ingr).

(** A text with no digit holds no number. *)
Definition no_number (s : string) : Prop :=
  str_forall (fun c => negb (is_digit c)) s = true.

(** The text holds a dot. *)
Definition has_dot (s : string) : bool :=
  negb (str_forall (fun c => negb (code c =? 46)%N) s).

End Spec.

(** ** Binary64 floats *)

(** The functions of [model3.py] once more, on the floats of Python: every
    operation returns the binary64 number nearest to its exact result. *)

Module Double.

(** A [float]: a finite binary64 number, given by its value, an infinity or
    a NaN.  The sign of a zero is not kept ([-0.0 == 0.0] in Python). *)
Inductive double : Type :=
  | Finite (v : Q)
  | PInf
  | NInf
  | NaN.

(** The binary exponent [e] of a positive number:
    [2 ^ e <= x < 2 ^ (e + 1)]. *)
Definition ilog2 (x : Q) : Z :=
  let e := (Z.log2 (Qnum x) - Z.log2 (Zpos (Qden x)) - 1)%Z in
  if Qle_bool (2 ^ (e + 1)) x then (e + 1)%Z else e.

(** Rounding a positive number to the nearest binary64 number, ties to
    even: a significand of 53 bits times [2 ^ q] with [q] from -1074 (the
    subnormal numbers) to 971; from [2 ^ 1024] on the result is infinite. *)
Definition nearest_pos (x : Q) : double :=
  let q := Z.max (Z.min (ilog2 x) 1023 - 52) (-1074) in
  let r := (inject_Z (round_half_even (x / 2 ^ q)) * 2 ^ q)%Q in
  if Qle_bool (2 ^ 1024) r then PInf else Finite (Qred r).

(** [-a]. *)
Definition neg (a : double) : double :=
  match a with
  | Finite v => Finite (Qred (- v))
  | PInf => NInf
  | NInf => PInf
  | NaN => NaN
  end.

(** The float nearest to a number, ties to even. *)
Definition nearest (x : Q) : double :=
  match Qnum (Qred x) with
  | Z0 => Finite 0
  | Zpos _ => nearest_pos (Qred x)
  | Zneg _ => neg (nearest_pos (Qred (- x)))
  end.

(** [a < b], [a == b], [a != b]. *)
Definition ltb (a b : double) : bool :=
  match a, b with
  | NaN, _ | _, NaN => false
  | Finite x, Finite y => Qltb x y
  | _, NInf | PInf, _ => false
  | NInf, _ | _, PInf => true
  end.

Definition eqb (a b : double) : bool :=
  match a, b with
  | Finite x, Finite y => Qeq_bool x y
  | PInf, PInf | NInf, NInf => true
  | _, _ => false
  end.

Definition neb (a b : double) : bool := negb (eqb a b).

(** [min(a, b)] and [max(a, b)]. *)
Definition py_min (a b : double) : double := if ltb b a then b else a.

Definition py_max (a b : double) : double := if ltb a b then b else a.

Definition infinity (positive : bool) : double := if positive then PInf else NInf.

(** [a + b], [a - b], [a * b]. *)
Definition add (a b : double) : double :=
  match a, b with
  | NaN, _ | _, NaN => NaN
  | PInf, NInf | NInf, PInf => NaN
  | PInf, _ | _, PInf => PInf
  | NInf, _ | _, NInf => NInf
  | Finite x, Finite y => nearest (x + y)
  end.

Definition sub (a b : double) : double := add a (neg b).

Definition mul (a b : double) : double :=
  match a, b with
  | NaN, _ | _, NaN => NaN
  | Finite x, Finite y => nearest (x * y)
  | Finite x, PInf | PInf, Finite x =>
      if Qeq_bool x 0 then NaN else infinity (Qltb 0 x)
  | Finite x, NInf | NInf, Finite x =>
      if Qeq_bool x 0 then NaN else infinity (Qltb x 0)
  | PInf, PInf | NInf, NInf => PInf
  | PInf, NInf | NInf, PInf => NInf
  end.

(** [a / b] on floats. *)
Definition truediv (a b : double) : result double :=
  match b with
  | Finite y =>
      if Qeq_bool y 0 then Raise ZeroDivisionError else
      Ok match a with
         | Finite x => nearest (x / y)
         | PInf => infinity (Qltb 0 y)
         | NInf => infinity (Qltb y 0)
         | NaN => NaN
         end
  | PInf | NInf => Ok match a with Finite _ => Finite 0 | _ => NaN end
  | NaN => Ok NaN
  end.

(** [float(x)] of a number given by its value: an [int], which is rounded
    and may be too large, or a finite [float], which is returned.  A decimal
    literal is the float of its value: [0.7] is [nearest (7 # 10)]. *)
Definition float (x : Q) : result double :=
  match nearest x with
  | PInf | NInf => Raise OverflowError
  | d => Ok d
  end.

(** [a / b] on [int]s: the float nearest to the quotient. *)
Definition int_truediv (a b : Z) : result double :=
  if (b =? 0)%Z then Raise ZeroDivisionError
  else float (inject_Z a / inject_Z b).

(** [round(x, 2)]: the float nearest to the value of [x] rounded to
    hundredths, ties to even. *)
Definition round2 (a : double) : double :=
  match a with
  | Finite v => nearest (Num.round2 v)
  | _ => a
  end.

Definition _compute_ingredient_score (ingredient_analysis : list finding)
    : result double :=
  match ingredient_analysis with
  | [] => Ok (Finite 5)
  | _ =>
      let raw := fold_left (fun raw ing => (raw + status_weight ing)%Z)
                           ingredient_analysis 0%Z in
      let n := Z.of_nat (length ingredient_analysis) in
      q ← int_truediv (raw + n) (2 * n);
      let normalized := mul q (Finite 10) in
      Ok (round2 normalized)
  end.

Definition _compute_nutrition_score_from_values
    (nutrition_info : gmap string (option Q)) : result double :=
  if dict_empty nutrition_info then Ok (Finite 5) else
  sugar ← float (number_or_0 nutrition_info "sugar_g");
  sodium ← float (number_or_0 nutrition_info "sodium_mg");
  fat ← float (number_or_0 nutrition_info "total_fat_g");
  protein ← float (number_or_0 nutrition_info "protein_g");
  let base := Finite 5 in
  q ← truediv sugar (Finite 10);
  let sugar_penalty := py_min q (Finite (5 # 2)) in
  q ← truediv sodium (Finite 500);
  let sodium_penalty := py_min q (Finite 2) in
  q ← truediv fat (Finite 10);
  let fat_penalty := py_min q (Finite (3 # 2)) in
  q ← truediv protein (Finite 5);
  let protein_bonus := py_min q (Finite 2) in
  let adj := add (sub (sub (neg sugar_penalty) sodium_penalty) fat_penalty)
                 protein_bonus in
  let score := py_max (Finite 0) (py_min (Finite 10) (add base adj)) in
  Ok (round2 score).

(** [len(l)] as it enters a product with a float. *)
Definition len {A} (l : list A) : result double :=
  float (inject_Z (Z.of_nat (length l))).

Definition _compute_nutrition_score_from_pros_cons
    (nutrition_pros nutrition_cons : list string) : result double :=
  let base := Finite 5 in
  n ← len nutrition_pros;
  let base := add base (mul n (Finite (1 # 2))) in
  n ← len nutrition_cons;
  let base := sub base (mul n (nearest (7 # 10))) in
  Ok (round2 (py_max (Finite 0) (py_min (Finite 10) base))).

Definition nutrition_score
    (nutrition_info : option (gmap string (option Q)))
    (nutrition_pros nutrition_cons : option (list string)) : result double :=
  match nutrition_info with
  | Some d =>
      if negb (dict_empty d) then _compute_nutrition_score_from_values d
      else _compute_nutrition_score_from_pros_cons
             (default [] nutrition_pros) (default [] nutrition_cons)
  | None =>
      _compute_nutrition_score_from_pros_cons
        (default [] nutrition_pros) (default [] nutrition_cons)
  end.

(** The normalisation of the two weights inside [compute_safety_score]. *)
Definition normalized_weights (weight_ingredient weight_nutrition : Q)
    : result (double * double) :=
  w_ing ← float weight_ingredient;
  w_nut ← float weight_nutrition;
  let total_w :=
    if neb (add w_ing w_nut) (Finite 0) then add w_ing w_nut else Finite 1 in
  w_ing ← truediv w_ing total_w;
  w_nut ← truediv w_nut total_w;
  Ok (w_ing, w_nut).

Definition compute_safety_score
    (ingredient_analysis : list finding)
    (nutrition_info : option (gmap string (option Q)))
    (nutrition_pros nutrition_cons : option (list string))
    (weight_ingredient weight_nutrition : Q) : result double :=
  ingr_score ← _compute_ingredient_score ingredient_analysis;
  nutri_score ← nutrition_score nutrition_info nutrition_pros nutrition_cons;
  '(w_ing, w_nut) ← normalized_weights weight_ingredient weight_nutrition;
  let final := add (mul ingr_score w_ing) (mul nutri_score w_nut) in
  let final := py_max (Finite 0) (py_min (Finite 10) final) in
  Ok (round2 final).

Definition compute_safety_score_from_model2_output
    (model2_output : gmap string pyval)
    (weight_ingredient weight_nutrition : Q) : result double :=
  let ingredient_analysis :=
    default (PyFindings []) (model2_output !! "ingredient_analysis") in
  let nutrition_info :=
    py_or (py_or (default PyNone (model2_output !! "nutrition"))
                 (default PyNone (model2_output !! "nutrition_info")))
          PyNone in
  let pros := default (PyStrList []) (model2_output !! "nutrition_pros") in
  let cons := default (PyStrList []) (model2_output !! "nutrition_cons") in
  ingredient_analysis ← as_findings ingredient_analysis;
  nutrition_info ← as_numbers nutrition_info;
  pros ← as_strings pros;
  cons ← as_strings cons;
  compute_safety_score ingredient_analysis nutrition_info pros cons
    weight_ingredient weight_nutrition.


End Double.

(** [2 ^ -53], the relative error of rounding to the nearest float, and
    [2 ^ -1075], half the least positive float. *)
Definition unit_roundoff : Q := (1 # 9007199254740992)%Q.

Definition half_least : Q := (2 ^ (-1075))%Q.

(** Two floats are the same value of the model. *)
Definition same (a b : Double.double) : bool :=
  match a, b with
  | Double.Finite x, Double.Finite y =>
      (Qnum x =? Qnum y)%Z && (Qden x =? Qden y)%positive
  | Double.PInf, Double.PInf | Double.NInf, Double.NInf | Double.NaN, Double.NaN => true
  | _, _ => false
  end.

(** A score of [k] hundredths goes unchanged through the weights 0 and 1,
    the clamp and the rounding. *)
Definition hundredth_kept (k : Z) : bool :=
  let n := Double.nearest (inject_Z k / 100) in
  same (Double.round2
          (Double.py_max (Double.Finite 0)
             (Double.py_min (Double.Finite 10)
                (Double.add (Double.Finite 0) (Double.mul n (Double.Finite 1))))))
       n.

(** ** model2.py: [load_data] *)

(** The list of catalog names that [load_data] hands over with the data
    frame: [ingredient_safety_df['ingredient_name'].tolist()]. *)
Definition ingredients_list_of (ingredient_safety_df : list safety_row) : list string :=
  map ingredient_name ingredient_safety_df.

(** ** model2.py: supplied values *)

(** The entry of the threshold table is given a value: its nutrient is a
    key of the input and the value is a number or a text. *)
Definition supplied (nutrition_input : gmap string nutrient_value)
    (row : nutrition_row) : bool :=
  match nutrition_input !! nutrient row with
  | Some (VNum _) | Some (VStr _) => true
  | _ => false
  end.

(** ** model4.py *)

(** A row of [product_alternatives.csv]. *)
Record alternative_row : Type := {
  Product : string;
  Category : string;
  Alternative_Safe_Product : string
}.

(** [str.replace(old, new)] for one-character strings. *)
Definition replace_char (old new : ascii) (s : string) : string :=
  str_map (fun c => if Ascii.eqb c old then new else c) s.

(** [name.lower().replace(' ', '_')]. *)
Definition lookup_key (name : string) : string :=
  replace_char " " "_" (lower name).

(** The same, character by character. *)
Definition key_char (c : ascii) : ascii :=
  if Ascii.eqb (lower_char c) " " then "_"%char else lower_char c.

(** What [pd.read_csv] does: no file, another failure, or a table, which
    has the two required columns ([Some]) or not ([None]). *)
Inductive csv_outcome : Type :=
  | FileNotFound
  | ReadFailed
  | Loaded (rows : option (list alternative_row)).

Definition example_rows : list alternative_row :=
  [ {| Product := "Coca_Cola"; Category := "Carbonated Soft Drink";
       Alternative_Safe_Product := "Sparkling Water with a slice of lemon/lime" |};
    {| Product := "Maggi_Masala_Noodles"; Category := "Instant Noodles";
       Alternative_Safe_Product := "Whole Wheat/Oats Noodles with homemade seasoning" |};
    {| Product := "Parle_G"; Category := "Glucose Biscuit";
       Alternative_Safe_Product := "Whole Wheat Digestive Biscuits" |} ].

(** The data frame indexed by [lookup_key]: the rows with their index. *)
Definition with_lookup_key (rows : list alternative_row) : list (string * alternative_row) :=
  map (fun row => (lookup_key (Product row), row)) rows.

Definition load_alternatives (csv : csv_outcome) : list (string * alternative_row) :=
  match csv with
  | FileNotFound => with_lookup_key example_rows
  | ReadFailed => []
  | Loaded None => []
  | Loaded (Some rows) => with_lookup_key rows
  end.

Section Alternatives.

(** [str] of the Series that [loc] returns when several rows have the key. *)
Variable series_str : list string -> string.

(** [None] is Python's [None]; a missing key is the [KeyError] caught. *)
Definition suggest_alternative (product_name : string) (safety_score : Q)
    (alternatives_df : option (list (string * alternative_row))) : option string :=
  if Qgeb safety_score 7 then None
  else match alternatives_df with
       | None => None
       | Some [] => None
       | Some df =>
           let lookup_key := lookup_key product_name in
           match filter (fun entry => fst entry = lookup_key) df with
           | [] => None
           | [(_, row)] => Some (Alternative_Safe_Product row)
           | found => Some (series_str (map (fun entry => Alternative_Safe_Product (snd entry)) found))
           end
       end.

End Alternatives.

(** ** model1.py: [format_product_info] *)

(** [s.split(sep)] for a one-character separator; [w] is the piece being
    read.  Empty pieces are kept. *)
Fixpoint split_on (sep : ascii) (w : string) (s : string) : list string :=
  match s with
  | EmptyString => [w]
  | String c s' =>
      if Ascii.eqb c sep then w :: split_on sep "" s'
      else split_on sep (w +:+ String c "") s'
  end.

Definition is_comma (c : ascii) : bool := Ascii.eqb c ",".

(** The keys of the [nutrition] dict of a formatted product. *)
Definition nutrition_keys : list string :=
  [ "energy_kcal"; "carbs_g"; "total_sugar_g"; "added_sugar_g"; "protein_g";
    "total_fat_g"; "sat_fat_g"; "trans_fat_g"; "sodium_mg" ].

(** [round(x, 4)]. *)
Definition round4 (x : Q) : Q :=
  (inject_Z (round_half_even (x * 10000)) / 10000)%Q.

(** The dict that [format_product_info] builds. *)
Record product_info : Type := {
  product_id : nutrient_value;
  product_name : nutrient_value;
  product_type : nutrient_value;
  ingredients : list string;
  nutrition : gmap string nutrient_value;
  prediction_confidence : Q
}.

Section Formatting.

(** [str] of a number. *)
Variable float_str : Q -> string.

(** [str(row.get(key, ""))]; a missing cell of a data frame is NaN. *)
Definition cell_str (row : gmap string nutrient_value) (key : string) : string :=
  match row !! key with
  | None => ""
  | Some VNull => "nan"
  | Some (VNum v) => float_str v
  | Some (VStr s) => s
  end.

(** [row.get(key, None)]. *)
Definition cell (row : gmap string nutrient_value) (key : string) : nutrient_value :=
  default VNull (row !! key).

Definition format_product_info (row : gmap string nutrient_value) (confidence : Q)
    : product_info :=
  {| product_id := cell row "product_id";
     product_name := cell row "product_name";
     product_type := cell row "category";
     ingredients := map strip (split_on "," "" (cell_str row "ingredients"));
     nutrition :=
       {[ "energy_kcal" := cell row "energy_kcal";
          "carbs_g" := cell row "carbs_g";
          "total_sugar_g" := cell row "total_sugar_g";
          "added_sugar_g" := cell row "added_sugar_g";
          "protein_g" := cell row "protein_g";
          "total_fat_g" := cell row "total_fat_g";
          "sat_fat_g" := cell row "sat_fat_g";
          "trans_fat_g" := cell row "trans_fat_g";
          "sodium_mg" := cell row "sodium_mg" ]};
     prediction_confidence := round4 confidence |}.

End Formatting.

(** ** More sample data *)

Module Sample2.

Definition unsafe_finding : finding := {[ "name" := "Palm Oil"; "status" := "unsafe" ]}.
Definition safe_finding : finding := {[ "name" := "Wheat Flour"; "status" := "safe" ]}.

(** The numbers of Scenario B with five times the sugar. *)
Definition sweeter : gmap string (option Q) :=
  {[ "sugar_g" := Some 25%Q; "sodium_mg" := Some 100%Q;
     "total_fat_g" := Some 3%Q; "protein_g" := Some 10%Q ]}.

Definition named_only : gmap string pyval := {[ "product_name" := PyStr "Biscuit" ]}.

(** Two texts without a digit: dots for the sugar, a word for the protein. *)
Definition two_texts : gmap string nutrient_value :=
  {[ "total_sugar_g" := VStr "..."; "protein_g" := VStr "trace" ]}.

Definition sugar_row : nutrition_row :=
  {| nutrient := "total_sugar_g"; low_threshold := 0; high_threshold := 10;
     note := "limit added sugars" |}.

Definition sodium_row : nutrition_row :=
  {| nutrient := "sodium_mg"; low_threshold := 0; high_threshold := 400;
     note := "watch salt intake" |}.

(** 199 unsafe findings and one of caution; 197 unsafe and three of
    caution. *)
Definition caution_finding : finding := {[ "name" := "Sugar"; "status" := "caution" ]}.

Definition unsafe_199 : list finding := replicate 199 unsafe_finding ++ [caution_finding].

Definition unsafe_197 : list finding :=
  replicate 197 unsafe_finding ++ replicate 3 caution_finding.

Definition with_numbers : gmap string pyval :=
  {[ "nutrition" := PyNumbers Sample.scenario_b ]}.

Definition excel_row : gmap string nutrient_value :=
  {[ "product_name" := VStr "Biscuit"; "ingredients" := VStr "Sugar, Salt";
     "protein_g" := VNum 5 ]}.

Definition no_repr (v : Q) : string := "".

Definition no_series (l : list string) : string := "".

Definition formatted : product :=
  {| get_product_name := Some "Biscuit";
     get_ingredients := Some (ingredients (format_product_info no_repr excel_row 1));
     get_nutrition := Some (nutrition (format_product_info no_repr excel_row 1)) |}.

Definition formatted_analysis : gmap string pyval :=
  {[ "product_name" := PyStr "Biscuit";
     "ingredient_analysis" :=
       PyFindings
         [ {[ "name" := "Sugar"; "status" := "caution"; "reason" := "High glycemic load" ]};
           {[ "name" := "Salt"; "status" := "caution";
              "reason" := "Raises blood pressure" ]} ];
     "nutrition_pros" := PyStrList ["Balanced protein_g"];
     "nutrition_cons" := PyStrList [] ]}.

End Sample2.

(** * Properties *)

(** ** Characters *)

Lemma alnum_not_space c : is_alnum_lower c = true -> is_space c = false.
Proof. destruct c as [[] [] [] [] [] [] [] []]; vm_compute; congruence. Qed.

Lemma space_is_space : is_space " " = true.
Proof. reflexivity. Qed.

(** ** Strings *)

Lemma append_cons (c : ascii) (s t : string) : String c s +:+ t = String c (s +:+ t).
Proof. reflexivity. Qed.

Lemma append_nil_l (s : string) : "" +:+ s = s.
Proof. reflexivity. Qed.

Lemma append_nil_r (s : string) : s +:+ "" = s.
Proof.
  induction s as [|c s IH]; [reflexivity|]. now rewrite append_cons, IH.
Qed.

Lemma append_assoc (a b c : string) : (a +:+ b) +:+ c = a +:+ (b +:+ c).
Proof.
  induction a as [|x a IH]; [reflexivity|]. now rewrite !append_cons, IH.
Qed.

Lemma append_snoc_cons (w : string) (c : ascii) (s : string) :
  (w +:+ String c "") +:+ s = w +:+ String c s.
Proof. now rewrite append_assoc, append_cons, append_nil_l. Qed.

Lemma is_empty_snoc (w : string) (c : ascii) : is_empty (w +:+ String c "") = false.
Proof. destruct w; reflexivity. Qed.

Lemma is_empty_true (s : string) : is_empty s = true -> s = "".
Proof. destruct s; [reflexivity | discriminate]. Qed.

Lemma rstrip_cons_word (c : ascii) (s : string) :
  is_space c = false -> rstrip (String c s) = String c (rstrip s).
Proof. intros Hc. simpl. now rewrite Hc. Qed.

Lemma fields_aux_nonempty sep (w s : string) :
  is_empty w = false -> fields_aux sep w s <> [].
Proof.
  revert w. induction s as [|c s IH]; intros w Hw; simpl.
  - now rewrite Hw.
  - destruct (sep c).
    + now rewrite Hw.
    + apply IH, is_empty_snoc.
Qed.

Lemma concat_cons (sep x : string) (xs : list string) :
  xs <> [] -> String.concat sep (x :: xs) = x +:+ sep +:+ String.concat sep xs.
Proof. destruct xs; [congruence | reflexivity]. Qed.

(** After a word [w]: the rest of the text, collapsed and right-trimmed, is
    the rest of the words joined by single spaces. *)
Lemma rstrip_runs_fields (t : string) :
  forall w, is_empty w = false ->
    w +:+ rstrip (sub_space_runs false t) = String.concat " " (fields_aux is_space w t)
    /\ w +:+ rstrip (String " " (sub_space_runs true t))
       = String.concat " " (w :: fields_aux is_space "" t).
Proof.
  induction t as [|c t IH]; intros w Hw.
  - cbn [sub_space_runs fields_aux]. rewrite Hw.
    change (rstrip " ") with "". cbn [rstrip String.concat].
    now rewrite append_nil_r.
  - destruct (is_space c) eqn:Hc.
    + destruct (IH w Hw) as [_ IH2]. split.
      * cbn [sub_space_runs fields_aux]. rewrite Hc, Hw. exact IH2.
      * cbn [sub_space_runs fields_aux]. rewrite Hc. exact IH2.
    + split.
      * cbn [sub_space_runs fields_aux]. rewrite Hc.
        rewrite rstrip_cons_word by exact Hc.
        rewrite <- append_snoc_cons.
        apply (IH (w +:+ String c "")), is_empty_snoc.
      * cbn [sub_space_runs fields_aux]. rewrite Hc.
        assert (Hr : rstrip (String " " (String c (sub_space_runs false t)))
                     = String " " (String c (rstrip (sub_space_runs false t)))).
        { simpl. now rewrite Hc. }
        rewrite Hr.
        rewrite concat_cons by (apply fields_aux_nonempty; reflexivity).
        destruct (IH (String c "") eq_refl) as [IH1 _].
        rewrite append_nil_l, <- IH1. reflexivity.
Qed.

Lemma strip_runs_fields (t : string) (b : bool) :
  strip (sub_space_runs b t) = String.concat " " (fields_aux is_space "" t).
Proof.
  revert b. induction t as [|c t IH]; intros b; [now destruct b|].
  unfold strip in *. cbn [sub_space_runs fields_aux is_empty].
  destruct (is_space c) eqn:Hc.
  - destruct b; cbn [lstrip]; rewrite ?space_is_space; apply IH.
  - cbn [lstrip]. rewrite Hc. rewrite rstrip_cons_word by exact Hc.
    destruct (rstrip_runs_fields t (String c "") eq_refl) as [H1 _].
    rewrite append_nil_l. exact H1.
Qed.

Lemma fields_sub_non_alnum (u w : string) :
  fields_aux is_space w (sub_non_alnum u)
  = fields_aux (fun c => negb (is_alnum_lower c)) w u.
Proof.
  revert w. induction u as [|c u IH]; intros w; [reflexivity|].
  unfold sub_non_alnum in *. cbn [str_map fields_aux].
  destruct (is_alnum_lower c) eqn:Ha; cbn [orb negb].
  - rewrite (alnum_not_space c Ha). apply IH.
  - destruct (is_space c) eqn:Hs.
    + rewrite Hs. destruct (is_empty w); now rewrite IH.
    + rewrite space_is_space. destruct (is_empty w); now rewrite IH.
Qed.

Lemma fields_aux_words (p : ascii -> bool) (s w : string) :
  str_forall p w = true ->
  Forall (fun x => x <> "" /\ str_forall p x = true)
         (fields_aux (fun c => negb (p c)) w s).
Proof.
  revert w. induction s as [|c s IH]; intros w Hw; simpl.
  - destruct w; simpl; constructor; [|constructor]. split; [discriminate | exact Hw].
  - destruct (p c) eqn:Hc; simpl.
    + apply IH. clear IH. induction w as [|x w IHw].
      * simpl. now rewrite Hc.
      * rewrite append_cons. simpl in *.
        apply andb_true_iff in Hw as [Hx Hw]. rewrite Hx. now apply IHw.
    + destruct w; simpl.
      * now apply IH.
      * constructor; [split; [discriminate | exact Hw] | now apply IH].
Qed.

Lemma fields_aux_app_word (x w s : string) :
  str_forall is_alnum_lower x = true ->
  fields_aux is_space w (x +:+ s) = fields_aux is_space (w +:+ x) s.
Proof.
  revert w. induction x as [|c x IH]; intros w Hx.
  - now rewrite append_nil_l, append_nil_r.
  - simpl in Hx. apply andb_true_iff in Hx as [Hc Hx].
    rewrite append_cons. cbn [fields_aux].
    rewrite (alnum_not_space c Hc), IH by exact Hx.
    now rewrite append_snoc_cons.
Qed.

Lemma split_concat_words (ws : list string) :
  Forall (fun w => w <> "" /\ str_forall is_alnum_lower w = true) ws ->
  split (String.concat " " ws) = ws.
Proof.
  unfold split. induction 1 as [|x xs [Hne Hx] Hxs IH]; [reflexivity|].
  assert (He : is_empty x = false) by (destruct x; [congruence | reflexivity]).
  destruct xs as [|y ys].
  - cbn [String.concat]. rewrite <- (append_nil_r x) at 1.
    rewrite fields_aux_app_word, append_nil_l by exact Hx.
    cbn [fields_aux]. now rewrite He.
  - rewrite concat_cons by discriminate.
    rewrite fields_aux_app_word, append_nil_l by exact Hx.
    rewrite append_cons, append_nil_l. cbn [fields_aux].
    rewrite space_is_space, He. now rewrite IH.
Qed.

(** C8, as amended: [clean_text] never fails; its result is the maximal runs
    of characters of [a-z0-9] of the lower-cased text, joined by single
    spaces (every other character, whitespace or not, only separates
    words), so that it has no leading, trailing or repeated space; the empty
    string is mapped to the empty string. *)
Theorem clean_text_words (text : string) :
  let words := fields_aux (fun c => negb (is_alnum_lower c)) "" (lower text) in
  clean_text text = String.concat " " words
  /\ Forall (fun w => w <> "" /\ str_forall is_alnum_lower w = true) words
  /\ split (clean_text text) = words
  /\ clean_text "" = "".
Proof.
  cbv zeta. unfold clean_text.
  rewrite strip_runs_fields, fields_sub_non_alnum.
  assert (Hw := fields_aux_words is_alnum_lower (lower text) "" eq_refl).
  split; [reflexivity|]. split; [exact Hw|].
  split; [now apply split_concat_words | reflexivity].
Qed.

(** C8, as stated, fails: the normaliser that strips (removes) the
    characters outside the class joins what the code keeps apart. *)
Lemma clean_text_replaces_not_strips :
  clean_text "E-330" = "e 330" /\ normalize_spec "E-330" = "e330"
  /\ clean_text "E-330" <> normalize_spec "E-330".
Proof. repeat split; try reflexivity. vm_compute. discriminate. Qed.

(** ** Rounding and clamping *)

Local Open Scope Q_scope.

Lemma round_half_even_comp (x y : Q) : x == y -> round_half_even x = round_half_even y.
Proof.
  intros E. unfold round_half_even. rewrite (Qfloor_comp x y E).
  assert (Hc : (x - inject_Z (Qfloor y) ?= 1 # 2) = (y - inject_Z (Qfloor y) ?= 1 # 2)).
  { apply Qcompare_comp; [now rewrite E | reflexivity]. }
  now rewrite Hc.
Qed.

Lemma round_half_even_Z (k : Z) : round_half_even (inject_Z k) = k.
Proof.
  unfold round_half_even. rewrite Qfloor_Z.
  assert (Hc : (inject_Z k - inject_Z k ?= 1 # 2) = Lt).
  { rewrite <- Qlt_alt. lra. }
  now rewrite Hc.
Qed.

Lemma round_half_even_ge (a : Z) (x : Q) :
  inject_Z a <= x -> (a <= round_half_even x)%Z.
Proof.
  intros H. apply Qfloor_resp_le in H. rewrite Qfloor_Z in H.
  unfold round_half_even.
  destruct (x - inject_Z (Qfloor x) ?= 1 # 2); [destruct (Z.even _)| |]; lia.
Qed.

Lemma round_half_even_le (b : Z) (x : Q) :
  x <= inject_Z b -> (round_half_even x <= b)%Z.
Proof.
  intros H. assert (Hf := Qfloor_resp_le _ _ H). rewrite Qfloor_Z in Hf.
  assert (Hlt : inject_Z (Qfloor x) + (1 # 2) <= x -> (Qfloor x + 1 <= b)%Z).
  { intros Hx. assert (Hq : inject_Z (Qfloor x) < inject_Z b) by lra.
    rewrite <- Zlt_Qlt in Hq. lia. }
  unfold round_half_even.
  destruct (Qcompare_spec (x - inject_Z (Qfloor x)) (1 # 2)) as [E|E|E].
  - destruct (Z.even _); [lia|]. apply Hlt. lra.
  - lia.
  - apply Hlt. lra.
Qed.

Lemma round2_comp (x y : Q) : x == y -> round2 x = round2 y.
Proof.
  intros E. unfold round2. f_equal. f_equal.
  apply round_half_even_comp. now rewrite E.
Qed.

Lemma Qdiv_100 (q : Q) : q / 100 == q * (1 # 100).
Proof. reflexivity. Qed.

Lemma round2_range (x : Q) : 0 <= x <= 10 -> 0 <= round2 x <= 10.
Proof.
  intros [H0 H10]. unfold round2.
  assert (Hlo : (0 <= round_half_even (x * 100))%Z).
  { apply round_half_even_ge. change (inject_Z 0) with 0. lra. }
  assert (Hhi : (round_half_even (x * 100) <= 1000)%Z).
  { apply round_half_even_le. change (inject_Z 1000) with 1000. lra. }
  rewrite Zle_Qle in Hlo, Hhi.
  change (inject_Z 0) with 0 in Hlo. change (inject_Z 1000) with 1000 in Hhi.
  rewrite Qdiv_100. lra.
Qed.

(** Rounding a value that already has two decimals changes nothing. *)
Lemma round2_hundredths (k : Z) (x : Q) :
  x == inject_Z k / 100 -> round2 x = (inject_Z k / 100)%Q.
Proof.
  intros E. unfold round2. f_equal. f_equal.
  rewrite <- (round_half_even_Z k). apply round_half_even_comp.
  rewrite E, Qdiv_100. lra.
Qed.

Lemma round2_idem (x y : Q) : y == round2 x -> round2 y = round2 x.
Proof. intros E. unfold round2 at 2. apply round2_hundredths. exact E. Qed.

Lemma py_min_spec (a b : Q) :
  (b < a /\ py_min a b = b) \/ (a <= b /\ py_min a b = a).
Proof.
  unfold py_min. destruct (Qcompare_spec b a) as [E|E|E].
  - right. split; [lra | reflexivity].
  - left. now split.
  - right. split; [lra | reflexivity].
Qed.

Lemma py_max_spec (a b : Q) :
  (a < b /\ py_max a b = b) \/ (b <= a /\ py_max a b = a).
Proof.
  unfold py_max. destruct (Qcompare_spec b a) as [E|E|E].
  - right. split; [lra | reflexivity].
  - right. split; [lra | reflexivity].
  - left. now split.
Qed.

Lemma clamp_range (x : Q) : 0 <= py_max 0 (py_min 10 x) <= 10.
Proof.
  destruct (py_min_spec 10 x) as [[H1 E1]|[H1 E1]]; rewrite E1;
    destruct (py_max_spec 0 x) as [[H2 E2]|[H2 E2]];
    destruct (py_max_spec 0 10) as [[H3 E3]|[H3 E3]];
    rewrite ?E2, ?E3; lra.
Qed.

Lemma clamp_id (x : Q) : 0 <= x <= 10 -> py_max 0 (py_min 10 x) == x.
Proof.
  intros [H0 H10].
  destruct (py_min_spec 10 x) as [[H1 E1]|[H1 E1]]; rewrite E1.
  - destruct (py_max_spec 0 x) as [[H2 E2]|[H2 E2]]; rewrite E2; lra.
  - destruct (py_max_spec 0 10) as [[H3 E3]|[H3 E3]]; rewrite E3; lra.
Qed.

Lemma truediv_ok (a b : Q) : ~ b == 0 -> truediv a b = Ok (a / b).
Proof.
  intros Hb. unfold truediv. destruct (Qeq_bool b 0) eqn:E; [|reflexivity].
  apply Qeq_bool_eq in E. contradiction.
Qed.

(** ** The ingredient sub-score *)

Lemma inject_Z_nonzero (z : Z) : z <> 0%Z -> ~ inject_Z z == 0.
Proof. intros Hz E. unfold Qeq in E. simpl in E. lia. Qed.

Lemma fold_left_weights (l : list finding) (acc : Z) :
  fold_left (fun raw ing => (raw + status_weight ing)%Z) l acc
  = (acc + Spec.sum_Z (map status_weight l))%Z.
Proof.
  revert acc. induction l as [|x l IH]; intros acc; simpl; [lia|].
  rewrite IH. lia.
Qed.

Lemma mapping_range (s : string) (z : Z) :
  mapping !! s = Some z -> (-1 <= z <= 1)%Z.
Proof.
  unfold mapping. intros H.
  repeat (apply lookup_insert_Some in H as [[_ <-]|[_ H]]; [lia|]).
  apply lookup_singleton_Some in H as [_ <-]. lia.
Qed.

Lemma status_weight_range (ing : finding) : (-1 <= status_weight ing <= 1)%Z.
Proof.
  unfold status_weight.
  destruct (mapping !! lower (default "" (ing !! "status"))) as [z|] eqn:E; simpl.
  - now apply mapping_range in E.
  - lia.
Qed.

Lemma sum_weights_range (l : list finding) :
  (- Z.of_nat (length l) <= Spec.sum_Z (map status_weight l) <= Z.of_nat (length l))%Z.
Proof.
  induction l as [|x l IH]; simpl; [lia|].
  pose proof (status_weight_range x). lia.
Qed.



(** The score of a non-empty list, with the division carried out. *)
Lemma ingredient_score_cons (x : finding) (l : list finding) :
  _compute_ingredient_score (x :: l)
  = Ok (round2 (inject_Z (Spec.sum_Z (map status_weight (x :: l))
                          + Z.of_nat (length (x :: l)))
                / inject_Z (2 * Z.of_nat (length (x :: l))) * 10)).
Proof.
  unfold _compute_ingredient_score.
  rewrite fold_left_weights, Z.add_0_l.
  rewrite truediv_ok; [reflexivity|].
  apply inject_Z_nonzero. simpl length. lia.
Qed.

(** ** Ranges of the scores *)

Lemma ratio_of_part (a b : Z) :
  (0 <= a <= b)%Z -> (0 < b)%Z -> 0 <= inject_Z a / inject_Z b * 10 <= 10.
Proof.
  intros [Ha Hab] Hb.
  rewrite Zle_Qle in Ha, Hab. rewrite Zlt_Qlt in Hb.
  change (inject_Z 0) with 0 in *.
  assert (H0 : 0 <= inject_Z a / inject_Z b).
  { apply Qle_shift_div_l; [exact Hb | lra]. }
  assert (H1 : inject_Z a / inject_Z b <= 1).
  { apply Qle_shift_div_r; [exact Hb | lra]. }
  lra.
Qed.

Lemma ingredient_score_ok (ia : list finding) :
  exists s, _compute_ingredient_score ia = Ok s /\ 0 <= s <= 10.
Proof.
  destruct ia as [|x l].
  - exists 5. split; [reflexivity | lra].
  - eexists. split; [apply ingredient_score_cons|].
    apply round2_range, ratio_of_part.
    + pose proof (sum_weights_range (x :: l)). lia.
    + simpl length. lia.
Qed.

Lemma nutrition_values_range (d : gmap string (option Q)) :
  0 <= _compute_nutrition_score_from_values d <= 10.
Proof.
  unfold _compute_nutrition_score_from_values.
  destruct (dict_empty d); [lra|]. apply round2_range, clamp_range.
Qed.

Lemma nutrition_pros_cons_range (pros cons : list string) :
  0 <= _compute_nutrition_score_from_pros_cons pros cons <= 10.
Proof. apply round2_range, clamp_range. Qed.

(** Whichever branch is taken, the nutrition sub-score is a clamped value
    rounded to two decimals. *)
Lemma nutrition_score_rounded ni np nc :
  exists z, 0 <= z <= 10 /\ nutrition_score ni np nc = round2 z.
Proof.
  unfold nutrition_score.
  destruct ni as [d|]; [destruct (dict_empty d) eqn:E|]; cbn [negb].
  2: { unfold _compute_nutrition_score_from_values. rewrite E.
       eexists. split; [apply clamp_range | reflexivity]. }
  all: eexists; split; [apply clamp_range | reflexivity].
Qed.

Lemma normalized_weights_ok (wi wn : Q) :
  exists a b, normalized_weights wi wn = Ok (a, b)
    /\ a + b == (if Qeq_bool (wi + wn) 0 then 0 else 1).
Proof.
  unfold normalized_weights.
  destruct (Qeq_bool (wi + wn) 0) eqn:E; cbn [negb].
  - apply Qeq_bool_eq in E.
    exists (wi / 1), (wn / 1). split; [reflexivity|].
    unfold Qdiv; change (/ 1) with 1; lra.
  - apply Qeq_bool_neq in E.
    exists (wi / (wi + wn)), (wn / (wi + wn)).
    rewrite !truediv_ok by exact E. split; [reflexivity|].
    unfold Qdiv. rewrite <- Qmult_plus_distr_l.
    now apply Qmult_inv_r.
Qed.

Lemma safety_score_ok ia ni np nc (wi wn : Q) :
  exists s a b,
    _compute_ingredient_score ia = Ok s
    /\ normalized_weights wi wn = Ok (a, b)
    /\ compute_safety_score ia ni np nc wi wn
       = Ok (round2 (py_max 0 (py_min 10 (s * a + nutrition_score ni np nc * b)))).
Proof.
  destruct (ingredient_score_ok ia) as (s & Hs & _).
  destruct (normalized_weights_ok wi wn) as (a & b & Hw & _).
  exists s, a, b. split; [exact Hs|]. split; [exact Hw|].
  unfold compute_safety_score. rewrite Hs. cbn [mbind result_bind].
  rewrite Hw. reflexivity.
Qed.

(** C2: the ingredient sub-score, the nutrition sub-score in both modes
    and the final score are in [0, 10], whatever the status strings, the
    nutrient numbers, the descriptions and the weights. *)
Theorem scores_in_range :
  (forall ia : list finding,
     exists s, _compute_ingredient_score ia = Ok s /\ 0 <= s <= 10)
  /\ (forall d : gmap string (option Q),
        0 <= _compute_nutrition_score_from_values d <= 10)
  /\ (forall pros cons : list string,
        0 <= _compute_nutrition_score_from_pros_cons pros cons <= 10)
  /\ (forall ia ni np nc (wi wn : Q),
        exists f, compute_safety_score ia ni np nc wi wn = Ok f /\ 0 <= f <= 10).
Proof.
  split; [exact ingredient_score_ok|].
  split; [exact nutrition_values_range|].
  split; [exact nutrition_pros_cons_range|].
  intros ia ni np nc wi wn.
  destruct (safety_score_ok ia ni np nc wi wn) as (s & a & b & _ & _ & H).
  eexists. split; [exact H|]. apply round2_range, clamp_range.
Qed.

(** ** The nutrient evaluator *)

Lemma Qltb_lt (a b : Q) : Qltb a b = true <-> a < b.
Proof.
  unfold Qltb. rewrite Qlt_alt. destruct (a ?= b); split; congruence.
Qed.

Lemma Qltb_ge (a b : Q) : Qltb a b = false <-> b <= a.
Proof.
  unfold Qltb. rewrite Qle_alt, <- (Qcompare_antisym a b).
  destruct (a ?= b); simpl; split; congruence.
Qed.

(** Under [low_threshold <= high_threshold] the branches of the code are
    the three conditions of the specification. *)
Lemma entry_findings (row : nutrition_row) (v : Q) :
  low_threshold row <= high_threshold row ->
  (Qltb v (low_threshold row) = true /\
     Spec.entry_pros row v = [] /\
     Spec.entry_cons row v = ["Low " +:+ nutrient row +:+ " (" +:+ note row +:+ ")"])
  \/ (Qltb v (low_threshold row) = false /\ Qgtb v (high_threshold row) = true /\
      Spec.entry_pros row v = [] /\
      Spec.entry_cons row v = ["High " +:+ nutrient row +:+ " (" +:+ note row +:+ ")"])
  \/ (Qltb v (low_threshold row) = false /\ Qgtb v (high_threshold row) = false /\
      Spec.entry_pros row v = ["Balanced " +:+ nutrient row] /\
      Spec.entry_cons row v = []).
Proof.
  intros Hinv. unfold Spec.entry_pros, Spec.entry_cons, Qgtb.
  destruct (Qltb v (low_threshold row)) eqn:Hl;
    destruct (Qltb (high_threshold row) v) eqn:Hh; cbn [orb app].
  - apply Qltb_lt in Hl, Hh. lra.
  - left. auto.
  - right. left. auto.
  - right. right. auto.
Qed.

Lemma evaluate_loop_findings (nutrition_input : gmap string nutrient_value)
    (rows : list nutrition_row) :
  Forall (fun row => low_threshold row <= high_threshold row) rows ->
  Forall (Spec.readable nutrition_input) rows ->
  forall pros cons,
    evaluate_loop nutrition_input rows pros cons
    = Ok ((pros ++ flat_map (Spec.pros_of nutrition_input) rows)%list,
          (cons ++ flat_map (Spec.cons_of nutrition_input) rows)%list).
Proof.
  induction 1 as [|row rows Hinv _ IH]; intros Hread pros cons.
  - simpl. now rewrite !app_nil_r.
  - apply Forall_cons in Hread as [Hrow Hread]. specialize (IH Hread).
    cbn [evaluate_loop flat_map].
    unfold Spec.pros_of at 1, Spec.cons_of at 1, Spec.present_value.
    unfold Spec.readable in Hrow.
    destruct (nutrition_input !! nutrient row) as [[|v|s]|] eqn:E.
    1, 4: now rewrite IH.
    + cbn [mbind result_bind].
      destruct (entry_findings row v Hinv)
        as [(Hl & -> & ->)|[(Hl & Hh & -> & ->)|(Hl & Hh & -> & ->)]];
        rewrite Hl, ?Hh, IH; cbn [app]; now rewrite <- ?app_assoc.
    + destruct (Hrow s eq_refl) as [v ->]. cbn [mbind result_bind].
      destruct (entry_findings row v Hinv)
        as [(Hl & -> & ->)|[(Hl & Hh & -> & ->)|(Hl & Hh & -> & ->)]];
        rewrite Hl, ?Hh, IH; cbn [app]; now rewrite <- ?app_assoc.
Qed.

(** C6: with thresholds in order ([low_threshold <= high_threshold]) and
    texts that hold a number, the evaluation returns, in the order of the
    threshold table, for every entry whose nutrient is supplied with a value
    [v]: the con "Low ..." iff [v < low_threshold], the con "High ..." iff
    [v > high_threshold], the pro "Balanced ..." otherwise (so at a bound),
    and nothing for the other entries; each such entry yields exactly one
    finding, never a pro together with a con. *)
Theorem nutrition_findings (nutrition_input : gmap string nutrient_value)
    (nutrition_df : list nutrition_row) :
  Forall (fun row => low_threshold row <= high_threshold row) nutrition_df ->
  Forall (Spec.readable nutrition_input) nutrition_df ->
  evaluate_nutrition nutrition_input nutrition_df
  = Ok (flat_map (Spec.pros_of nutrition_input) nutrition_df,
        flat_map (Spec.cons_of nutrition_input) nutrition_df)
  /\ Forall (fun row => forall v,
       Spec.present_value nutrition_input row = Some v ->
       (Spec.entry_cons row v = ["Low " +:+ nutrient row +:+ " (" +:+ note row +:+ ")"]
          <-> v < low_threshold row)
       /\ (Spec.entry_cons row v = ["High " +:+ nutrient row +:+ " (" +:+ note row +:+ ")"]
          <-> high_threshold row < v)
       /\ (Spec.entry_pros row v = ["Balanced " +:+ nutrient row]
          <-> low_threshold row <= v <= high_threshold row)
       /\ length (Spec.entry_pros row v ++ Spec.entry_cons row v)%list = 1%nat)
     nutrition_df.
Proof.
  intros Hinv Hread. split.
  - unfold evaluate_nutrition. now rewrite evaluate_loop_findings.
  - clear Hread. induction Hinv as [|row rows Hrow _ IH]; constructor; [|exact IH].
    intros v _.
    destruct (entry_findings row v Hrow)
      as [(Hl & -> & ->)|[(Hl & Hh & -> & ->)|(Hl & Hh & -> & ->)]].
    + apply Qltb_lt in Hl. repeat split; try (intros; lra); try discriminate.
    + apply Qltb_ge in Hl. apply Qltb_lt in Hh.
      repeat split; try (intros; lra); try discriminate.
    + apply Qltb_ge in Hl. apply Qltb_ge in Hh.
      repeat split; try (intros; lra); try discriminate.
Qed.

(** ** Text without a number *)

Lemma str_forall_snoc (p : ascii -> bool) (w : string) (c : ascii) :
  str_forall p w = true -> p c = true -> str_forall p (w +:+ String c "") = true.
Proof.
  intros Hw Hc. induction w as [|x w IH].
  - simpl. now rewrite Hc.
  - rewrite append_cons. simpl in *.
    apply andb_true_iff in Hw as [Hx Hw]. rewrite Hx. now apply IH.
Qed.

Lemma fields_aux_forall (p sep : ascii -> bool) (s w : string) :
  str_forall p s = true -> str_forall p w = true ->
  Forall (fun x => str_forall p x = true) (fields_aux sep w s).
Proof.
  revert w. induction s as [|c s IH]; intros w Hs Hw; simpl.
  - destruct (is_empty w); repeat constructor. exact Hw.
  - simpl in Hs. apply andb_true_iff in Hs as [Hc Hs].
    destruct (sep c).
    + destruct (is_empty w); [now apply IH|].
      constructor; [exact Hw | now apply IH].
    + apply IH; [exact Hs | now apply str_forall_snoc].
Qed.

Lemma str_filter_none (p : ascii -> bool) (s : string) :
  str_forall (fun c => negb (p c)) s = true -> str_filter p s = "".
Proof.
  induction s as [|c s IH]; [reflexivity|]. simpl.
  intros H. apply andb_true_iff in H as [Hc Hs].
  apply negb_true_iff in Hc. rewrite Hc. now apply IH.
Qed.

Lemma float_of_text_fails (s : string) :
  Spec.no_number s ->
  float_of_text s = Raise IndexError \/ float_of_text s = Raise ValueError.
Proof.
  unfold Spec.no_number, float_of_text, findall_numbers. intros Hs.
  pose proof (fields_aux_forall (fun c => negb (is_digit c))
                (fun c => negb (is_digit_or_dot c)) s "" Hs eq_refl) as Hf.
  destruct (fields_aux _ "" s) as [|run runs]; [now left|]. right.
  apply Forall_cons in Hf as [Hrun _].
  unfold float_of_run. rewrite (str_filter_none is_digit run Hrun).
  now rewrite orb_true_r.
Qed.

Lemma evaluate_loop_fails (nutrition_input : gmap string nutrient_value)
    (rows : list nutrition_row) (row : nutrition_row) (s : string) :
  row ∈ rows ->
  nutrition_input !! nutrient row = Some (VStr s) ->
  Spec.no_number s ->
  forall pros cons,
    evaluate_loop nutrition_input rows pros cons = Raise IndexError
    \/ evaluate_loop nutrition_input rows pros cons = Raise ValueError.
Proof.
  intros Hin Hs Hno. induction rows as [|r rows IH]; intros pros cons.
  - now apply elem_of_nil in Hin.
  - apply elem_of_cons in Hin as [<-|Hin].
    + cbn [evaluate_loop]. rewrite Hs.
      destruct (float_of_text_fails s Hno) as [-> | ->]; auto.
    + specialize (IH Hin). cbn [evaluate_loop].
      destruct (nutrition_input !! nutrient r) as [[|v|t]|]; try apply IH.
      * cbn [mbind result_bind].
        destruct (Qltb v (low_threshold r)); [apply IH|].
        destruct (Qgtb v (high_threshold r)); apply IH.
      * destruct (float_of_text t) as [v|e] eqn:Et; cbn [mbind result_bind].
        -- destruct (Qltb v (low_threshold r)); [apply IH|].
           destruct (Qgtb v (high_threshold r)); apply IH.
        -- unfold float_of_text, float_of_run in Et.
           destruct (findall_numbers t); [left; congruence|].
           destruct (_ || _); [right; congruence | discriminate].
Qed.

Lemma fields_aux_separators (sep : ascii -> bool) (s : string) :
  str_forall sep s = true -> fields_aux sep "" s = [].
Proof.
  induction s as [|c s IH]; [reflexivity|]. simpl.
  intros H. apply andb_true_iff in H as [Hc Hs]. rewrite Hc. now apply IH.
Qed.

Lemma fields_aux_some (sep : ascii -> bool) (s : string) :
  str_forall sep s = false -> fields_aux sep "" s <> [].
Proof.
  induction s as [|c s IH]; [discriminate|]. simpl.
  destruct (sep c); simpl.
  - exact IH.
  - intros _. apply fields_aux_nonempty, is_empty_snoc.
Qed.

(** Which exception a text without a digit raises. *)
Lemma float_of_text_no_digit (s : string) :
  Spec.no_number s ->
  float_of_text s = Raise (if Spec.has_dot s then ValueError else IndexError).
Proof.
  unfold Spec.no_number, float_of_text, findall_numbers, Spec.has_dot. intros Hs.
  destruct (str_forall (fun c => negb (code c =? 46)%N) s) eqn:Hd; cbn [negb].
  - rewrite fields_aux_separators; [reflexivity|].
    induction s as [|c s IH]; [reflexivity|].
    simpl in *. apply andb_true_iff in Hs as [Hc Hs].
    apply andb_true_iff in Hd as [Hc' Hd].
    unfold is_digit_or_dot. rewrite negb_orb, Hc, Hc'. now apply IH.
  - pose proof (fields_aux_forall (fun c => negb (is_digit c))
                  (fun c => negb (is_digit_or_dot c)) s "" Hs eq_refl) as Hf.
    assert (Hne : fields_aux (fun c => negb (is_digit_or_dot c)) "" s <> []).
    { apply fields_aux_some. clear Hf.
      induction s as [|c s IH]; [discriminate|].
      simpl in *. apply andb_true_iff in Hs as [Hc Hs].
      unfold is_digit_or_dot at 1.
      destruct (code c =? 46)%N; simpl in *.
      - now rewrite orb_true_r.
      - rewrite orb_false_r, Hc. simpl. now apply IH. }
    destruct (fields_aux _ "" s) as [|run runs]; [congruence|].
    apply Forall_cons in Hf as [Hrun _].
    unfold float_of_run. rewrite (str_filter_none is_digit run Hrun).
    now rewrite orb_true_r.
Qed.

(** The first entry, in table order, whose text cannot be read decides the
    exception. *)
Lemma evaluate_loop_first_unreadable (nutrition_input : gmap string nutrient_value)
    (before : list nutrition_row) (row : nutrition_row) (after : list nutrition_row)
    (s : string) (e : exn) :
  Forall (Spec.readable nutrition_input) before ->
  nutrition_input !! nutrient row = Some (VStr s) ->
  float_of_text s = Raise e ->
  forall pros cons,
    evaluate_loop nutrition_input (before ++ row :: after) pros cons = Raise e.
Proof.
  intros Hread Hs He. induction Hread as [|r before Hr _ IH]; intros pros cons.
  - cbn [app evaluate_loop]. rewrite Hs, He. reflexivity.
  - rewrite <- app_comm_cons. cbn [evaluate_loop].
    destruct (nutrition_input !! nutrient r) as [[|v|t]|] eqn:Er; try apply IH.
    + cbn [mbind result_bind].
      destruct (Qltb v (low_threshold r)); [apply IH|].
      destruct (Qgtb v (high_threshold r)); apply IH.
    + destruct (Hr t Er) as (v & ->). cbn [mbind result_bind].
      destruct (Qltb v (low_threshold r)); [apply IH|].
      destruct (Qgtb v (high_threshold r)); apply IH.
Qed.

(** A value under a key that no entry names is not looked at. *)
Lemma evaluate_loop_unlisted (nutrition_input : gmap string nutrient_value)
    (rows : list nutrition_row) (k : string) (v : nutrient_value) :
  Forall (fun row => nutrient row <> k) rows ->
  forall pros cons,
    evaluate_loop (<[k := v]> nutrition_input) rows pros cons
    = evaluate_loop nutrition_input rows pros cons.
Proof.
  induction 1 as [|r rows Hr _ IH]; intros pros cons; [reflexivity|].
  cbn [evaluate_loop]. rewrite lookup_insert_ne by congruence.
  destruct (nutrition_input !! nutrient r) as [[|x|t]|]; try apply IH.
  - cbn [mbind result_bind].
    destruct (Qltb x (low_threshold r)); [apply IH|].
    destruct (Qgtb x (high_threshold r)); apply IH.
  - destruct (float_of_text t) as [x|e]; cbn [mbind result_bind]; [|reflexivity].
    destruct (Qltb x (low_threshold r)); [apply IH|].
    destruct (Qgtb x (high_threshold r)); apply IH.
Qed.

(** C7, as amended: when an entry of the threshold table names a nutrient
    whose supplied value is a text without a digit, the call fails with
    [IndexError] or [ValueError] and returns no findings.  The exception is
    the one of the first entry, in table order, whose text cannot be read;
    a text without a digit raises [ValueError] when it holds a dot and
    [IndexError] when it holds none.  A value under a key that no entry
    names is never read: the call returns the same with it and without. *)
Theorem text_without_number_fails (nutrition_input : gmap string nutrient_value)
    (nutrition_df : list nutrition_row) :
  (forall row s, row ∈ nutrition_df ->
     nutrition_input !! nutrient row = Some (VStr s) ->
     Spec.no_number s ->
     exists e, evaluate_nutrition nutrition_input nutrition_df = Raise e
               /\ (e = IndexError \/ e = ValueError))
  /\ (forall before row after s e,
        nutrition_df = (before ++ row :: after)%list ->
        Forall (Spec.readable nutrition_input) before ->
        nutrition_input !! nutrient row = Some (VStr s) ->
        float_of_text s = Raise e ->
        evaluate_nutrition nutrition_input nutrition_df = Raise e)
  /\ (forall s, Spec.no_number s ->
        float_of_text s = Raise (if Spec.has_dot s then ValueError else IndexError))
  /\ (forall k v, Forall (fun row => nutrient row <> k) nutrition_df ->
        evaluate_nutrition (<[k := v]> nutrition_input) nutrition_df
        = evaluate_nutrition nutrition_input nutrition_df).
Proof.
  split; [|split; [|split]].
  - intros row s Hin Hs Hno.
    destruct (evaluate_loop_fails nutrition_input nutrition_df row s Hin Hs Hno [] [])
      as [H|H]; unfold evaluate_nutrition; rewrite H; eauto.
  - intros before row after s e -> Hread Hs He.
    now apply (evaluate_loop_first_unreadable nutrition_input before row after s e).
  - exact float_of_text_no_digit.
  - intros k v Hk. now apply evaluate_loop_unlisted.
Qed.

(** C7, as stated, fails: a text without a number supplied for a nutrient
    that the threshold table does not name is never read. *)
Lemma unlisted_nutrient_ignored :
  Sample.nutrition !! "energy_kcal" = Some (VStr "n/a")
  /\ Spec.no_number "n/a"
  /\ evaluate_nutrition Sample.nutrition Sample.standards
     = Ok (["Balanced protein_g"; "Balanced sodium_mg"],
           ["High total_sugar_g (limit added sugars)"]).
Proof. repeat split; vm_compute; reflexivity. Qed.

(** ** The fuzzy matcher *)

Section MatcherFacts.

Variable ratio : string -> string -> Q.

Abbreviation score ing := (Spec.similarity ratio ing).

(** The first loop keeps the state, or ends on the first name whose score
    is the greatest and exceeds the initial score. *)
Lemma best_fold (ing : string) (refs : list string) :
  forall (h : Q) (b : option string),
    (fold_left (best_step ratio (clean_text ing)) refs (h, b) = (h, b)
     /\ forall x, x ∈ refs -> score ing x <= h)
    \/ (exists ref, fold_left (best_step ratio (clean_text ing)) refs (h, b)
                    = (score ing ref, Some ref)
          /\ h < score ing ref
          /\ Spec.first_maximum ratio ing refs ref).
Proof.
  induction refs as [|r refs IH]; intros h b.
  - left. split; [reflexivity|]. intros x Hx. now apply elem_of_nil in Hx.
  - cbn [fold_left].
    assert (Hstep : best_step ratio (clean_text ing) (h, b) r
                    = if Qgtb (score ing r) h then (score ing r, Some r) else (h, b))
      by reflexivity.
    rewrite Hstep. clear Hstep.
    destruct (Qgtb (score ing r) h) eqn:E; unfold Qgtb in E.
    + apply Qltb_lt in E.
      destruct (IH (score ing r) (Some r)) as [[Hf Hall]|(ref & Hf & Hlt & l1 & l2 & -> & H1 & H2)].
      * right. exists r. split; [exact Hf|]. split; [exact E|].
        exists [], refs. split; [reflexivity|]. split; [|exact Hall].
        intros x Hx. now apply elem_of_nil in Hx.
      * right. exists ref. split; [exact Hf|]. split; [lra|].
        exists (r :: l1), l2. split; [reflexivity|]. split; [|exact H2].
        intros x Hx. apply elem_of_cons in Hx as [->|Hx]; [exact Hlt | now apply H1].
    + apply Qltb_ge in E.
      destruct (IH h b) as [[Hf Hall]|(ref & Hf & Hlt & l1 & l2 & -> & H1 & H2)].
      * left. split; [exact Hf|].
        intros x Hx. apply elem_of_cons in Hx as [->|Hx]; [exact E | now apply Hall].
      * right. exists ref. split; [exact Hf|]. split; [exact Hlt|].
        exists (r :: l1), l2. split; [reflexivity|]. split; [|exact H2].
        intros x Hx. apply elem_of_cons in Hx as [->|Hx]; [lra | now apply H1].
Qed.

Lemma existsb_shares (ing ref : string) :
  existsb (fun word => bool_decide (word ∈ split (clean_text ref)))
          (split (clean_text ing)) = true
  <-> Spec.shares_token ing ref.
Proof.
  unfold Spec.shares_token. rewrite existsb_exists. split.
  - intros (w & Hw & Hd). exists w. apply bool_decide_eq_true in Hd.
    split; [now apply list_elem_of_In | exact Hd].
  - intros (w & Hw & Hd). exists w.
    split; [now apply list_elem_of_In | now apply bool_decide_eq_true].
Qed.

Lemma first_overlap_spec (ing : string) (refs : list string) :
  match first_overlap (split (clean_text ing)) refs with
  | Some ref => Spec.first_sharing ing refs ref
  | None => forall x, x ∈ refs -> ~ Spec.shares_token ing x
  end.
Proof.
  induction refs as [|r refs IH]; cbn [first_overlap].
  - intros x Hx. now apply elem_of_nil in Hx.
  - destruct (existsb _ _) eqn:E.
    + apply existsb_shares in E. exists [], refs.
      split; [reflexivity|]. split; [|exact E].
      intros x Hx. now apply elem_of_nil in Hx.
    + assert (Hr : ~ Spec.shares_token ing r).
      { intros H. apply existsb_shares in H. congruence. }
      destruct (first_overlap _ refs) as [ref|].
      * destruct IH as (l1 & l2 & -> & H1 & H2).
        exists (r :: l1), l2. split; [reflexivity|]. split; [|exact H2].
        intros x Hx. apply elem_of_cons in Hx as [->|Hx]; [exact Hr | now apply H1].
      * intros x Hx. apply elem_of_cons in Hx as [->|Hx]; [exact Hr | now apply IH].
Qed.

Lemma Qgeb_ge (a b : Q) : Qgeb a b = true <-> b <= a.
Proof. unfold Qgeb. rewrite negb_true_iff. apply Qltb_ge. Qed.

Lemma Qgeb_lt (a b : Q) : Qgeb a b = false <-> a < b.
Proof. unfold Qgeb. rewrite negb_false_iff. apply Qltb_lt. Qed.

Lemma first_maximum_bound (ing : string) (catalog : list string) (ref : string) :
  Spec.first_maximum ratio ing catalog ref ->
  forall x, x ∈ catalog -> score ing x <= score ing ref.
Proof.
  intros (l1 & l2 & -> & H1 & H2) x Hx.
  apply elem_of_app in Hx as [Hx|Hx]; [apply Qlt_le_weak; now apply H1|].
  apply elem_of_cons in Hx as [->|Hx]; [lra | now apply H2].
Qed.

(** The three ways out of [match_ingredient], for a positive threshold. *)
Lemma match_ingredient_cases (ing : string) (catalog : list string) (threshold : Q) :
  0 < threshold ->
  (exists ref, match_ingredient ratio ing catalog threshold = Some ref
     /\ Spec.first_maximum ratio ing catalog ref
     /\ threshold <= score ing ref)
  \/ ((forall x, x ∈ catalog -> score ing x < threshold)
      /\ exists ref, match_ingredient ratio ing catalog threshold = Some ref
           /\ Spec.first_sharing ing catalog ref)
  \/ ((forall x, x ∈ catalog -> score ing x < threshold)
      /\ (forall x, x ∈ catalog -> ~ Spec.shares_token ing x)
      /\ match_ingredient ratio ing catalog threshold = Some ing).
Proof.
  intros Hth. unfold match_ingredient.
  pose proof (first_overlap_spec ing catalog) as Hov.
  destruct (best_fold ing catalog 0 None)
    as [[-> Hall]|(ref & -> & Hpos & Hmax)].
  - assert (Hlow : forall x, x ∈ catalog -> score ing x < threshold).
    { intros x Hx. specialize (Hall x Hx). lra. }
    assert (E : Qgeb 0 threshold = false) by now apply Qgeb_lt.
    rewrite E. right.
    destruct (first_overlap _ catalog) as [ref|]; [left | right]; eauto.
  - destruct (Qgeb (score ing ref) threshold) eqn:E.
    + apply Qgeb_ge in E. left. eauto.
    + apply Qgeb_lt in E. right.
      assert (Hlow : forall x, x ∈ catalog -> score ing x < threshold).
      { intros x Hx. pose proof (first_maximum_bound ing catalog ref Hmax x Hx). lra. }
      destruct (first_overlap _ catalog) as [r|]; [left | right]; eauto.
Qed.

(** C4: for a positive threshold (80 by default), [match_ingredient]
    returns the first catalog name, in scan order, that attains the maximum
    similarity score, in its original spelling, when that maximum reaches
    the threshold; otherwise the first catalog name, in catalog order, that
    shares a whitespace token with the normalised ingredient; otherwise the
    ingredient itself, unchanged. *)
Theorem match_ingredient_phases (ing : string) (catalog : list string) (threshold : Q) :
  0 < threshold ->
  (exists ref, match_ingredient ratio ing catalog threshold = Some ref
     /\ Spec.first_maximum ratio ing catalog ref
     /\ threshold <= score ing ref)
  \/ ((forall x, x ∈ catalog -> score ing x < threshold)
      /\ exists ref, match_ingredient ratio ing catalog threshold = Some ref
           /\ Spec.first_sharing ing catalog ref)
  \/ ((forall x, x ∈ catalog -> score ing x < threshold)
      /\ (forall x, x ∈ catalog -> ~ Spec.shares_token ing x)
      /\ match_ingredient ratio ing catalog threshold = Some ing).
Proof. apply match_ingredient_cases. Qed.

End MatcherFacts.

Lemma split_position {A} (l1 l2 m1 m2 : list A) (r y : A) :
  (l1 ++ r :: l2 = m1 ++ y :: m2)%list ->
  r ∈ m1 \/ y ∈ l1 \/ (l1 = m1 /\ r = y).
Proof.
  revert m1. induction l1 as [|a l1 IH]; intros [|z m1] H; simpl in H.
  - injection H as -> _. auto.
  - injection H as -> _. left. apply elem_of_cons. auto.
  - injection H as -> _. right. left. apply elem_of_cons. auto.
  - injection H as -> H. destruct (IH m1 H) as [Hr|[Hy|[-> ->]]].
    + left. apply elem_of_cons. auto.
    + right. left. apply elem_of_cons. auto.
    + auto.
Qed.

Section Idempotence.

Variable ratio : string -> string -> Q.

(** What the matcher needs of the similarity score: 100 is its greatest
    value, reached by equal strings only. *)
Hypothesis ratio_refl : forall a, ratio a a == 100.
Hypothesis ratio_le : forall a b, ratio a b <= 100.
Hypothesis ratio_full : forall a b, ratio a b == 100 -> a = b.

Abbreviation score ing := (Spec.similarity ratio ing).

Lemma score_self (y : string) : score y y == 100.
Proof. apply ratio_refl. Qed.

(** C9: when the match of an ingredient is a name of the catalog, matching
    that name again returns it unchanged. *)
Theorem match_idempotent (x : string) (catalog : list string) (threshold : Q)
    (y : string) :
  0 < threshold -> threshold <= 100 ->
  match_ingredient ratio x catalog threshold = Some y ->
  y ∈ catalog ->
  match_ingredient ratio y catalog threshold = Some y.
Proof.
  intros Hth Hth' Hx Hy.
  pose proof (score_self y) as Hself.
  destruct (match_ingredient_cases ratio y catalog threshold Hth)
    as [(r & Hm & Hmax & Hge) | [(Hlow & _) | (Hlow & _)]].
  2, 3: specialize (Hlow y Hy); lra.
  rewrite Hm. f_equal.
  pose proof (first_maximum_bound ratio y catalog r Hmax y Hy) as Hb.
  assert (Hc : clean_text y = clean_text r).
  { apply ratio_full. pose proof (ratio_le (clean_text y) (clean_text r)).
    unfold Spec.similarity in Hb, Hself. lra. }
  assert (Hl1 : forall l1 l2, catalog = (l1 ++ r :: l2)%list ->
                  (forall z, z ∈ l1 -> score y z < score y r) -> ~ y ∈ l1).
  { intros l1 l2 _ H1 Hin. specialize (H1 y Hin).
    pose proof (ratio_le (clean_text y) (clean_text r)).
    unfold Spec.similarity in H1, Hself. lra. }
  destruct Hmax as (l1 & l2 & Hcat & H1 & _).
  specialize (Hl1 l1 l2 Hcat H1).
  destruct (match_ingredient_cases ratio x catalog threshold Hth)
    as [(ref & Hm' & (m1 & m2 & Hcat' & H1' & _) & _)
       | [(_ & ref & Hm' & (m1 & m2 & Hcat' & H1' & Hsh))
         | (Hlow & _ & Hm')]].
  - rewrite Hm' in Hx. injection Hx as ->.
    rewrite Hcat in Hcat'.
    destruct (split_position _ _ _ _ _ _ Hcat') as [Hr|[Hin|[_ ->]]];
      [|contradiction|reflexivity].
    specialize (H1' r Hr). unfold Spec.similarity in H1'. rewrite Hc in H1'. lra.
  - rewrite Hm' in Hx. injection Hx as ->.
    rewrite Hcat in Hcat'.
    destruct (split_position _ _ _ _ _ _ Hcat') as [Hr|[Hin|[_ ->]]];
      [|contradiction|reflexivity].
    exfalso. apply (H1' r Hr).
    unfold Spec.shares_token in *. now rewrite <- Hc.
  - rewrite Hm' in Hx. injection Hx as ->.
    specialize (Hlow y Hy). lra.
Qed.

End Idempotence.

(** ** The similarity score of rapidfuzz *)

Lemma lcs_cons (x y : ascii) (a b : string) :
  lcs (String x a) (String y b)
  = if Ascii.eqb x y then S (lcs a b)
    else Nat.max (lcs a (String y b)) (lcs (String x a) b).
Proof. reflexivity. Qed.

Lemma lcs_nil_r (a : string) : lcs a "" = 0%nat.
Proof. now destruct a. Qed.

Lemma lcs_le (a b : string) :
  (lcs a b <= String.length a)%nat /\ (lcs a b <= String.length b)%nat.
Proof.
  revert b. induction a as [|x a IHa]; intros b; [simpl; lia|].
  induction b as [|y b IHb]; [rewrite lcs_nil_r; simpl; lia|].
  rewrite lcs_cons. cbn [String.length].
  destruct (Ascii.eqb x y).
  - destruct (IHa b). lia.
  - destruct (IHa (String y b)) as [H1 H2]. cbn [String.length] in *. lia.
Qed.

Lemma lcs_refl (a : string) : lcs a a = String.length a.
Proof.
  induction a as [|x a IH]; [reflexivity|].
  rewrite lcs_cons, Ascii.eqb_refl, IH. reflexivity.
Qed.

Lemma lcs_full (a b : string) :
  lcs a b = String.length a -> String.length a = String.length b -> a = b.
Proof.
  revert b. induction a as [|x a IH]; intros [|y b] H Hl; try discriminate.
  - reflexivity.
  - rewrite lcs_cons in H. cbn [String.length] in *.
    destruct (Ascii.eqb x y) eqn:E.
    + apply Ascii.eqb_eq in E. subst y. f_equal. apply IH; lia.
    + destruct (lcs_le a (String y b)) as [H1 _].
      destruct (lcs_le (String x a) b) as [_ H2]. lia.
Qed.

Lemma indel_ratio_refl (a : string) : indel_ratio a a == 100.
Proof.
  unfold indel_ratio. destruct (_ =? 0)%nat eqn:E; [reflexivity|].
  apply Nat.eqb_neq in E. rewrite lcs_refl.
  replace (Z.of_nat (200 * String.length a))
    with (100 * Z.of_nat (String.length a + String.length a))%Z by lia.
  rewrite inject_Z_mult. change (inject_Z 100) with 100.
  apply Qdiv_mult_l, inject_Z_nonzero. lia.
Qed.

Lemma indel_ratio_le (a b : string) : indel_ratio a b <= 100.
Proof.
  unfold indel_ratio. destruct (_ =? 0)%nat eqn:E; [lra|].
  apply Nat.eqb_neq in E.
  apply Qle_shift_div_r.
  - change 0 with (inject_Z 0). rewrite <- Zlt_Qlt. lia.
  - change 100 with (inject_Z 100). rewrite <- inject_Z_mult, <- Zle_Qle.
    destruct (lcs_le a b). lia.
Qed.

Lemma indel_ratio_full (a b : string) : indel_ratio a b == 100 -> a = b.
Proof.
  unfold indel_ratio. destruct (_ =? 0)%nat eqn:E.
  - apply Nat.eqb_eq in E. intros _.
    destruct a, b; cbn [String.length] in E; try lia. reflexivity.
  - apply Nat.eqb_neq in E. intros H.
    assert (Hz : ~ inject_Z (Z.of_nat (String.length a + String.length b)) == 0).
    { apply inject_Z_nonzero. lia. }
    apply (Qmult_inj_r _ _ _ Hz) in H.
    rewrite Qmult_comm, Qmult_div_r in H by exact Hz.
    change 100 with (inject_Z 100) in H.
    rewrite <- inject_Z_mult in H.
    unfold Qeq in H. cbn [inject_Z Qnum Qden] in H.
    destruct (lcs_le a b). apply lcs_full; lia.
Qed.

(** ** Sorting by key *)

Section SortFacts.

Context {A : Type} (key : A -> nat).

Lemma insert_by_perm (x : A) (l : list A) : Permutation (insert_by key x l) (x :: l).
Proof.
  induction l as [|y l IH]; simpl; [reflexivity|].
  destruct (key x <=? key y)%nat; [reflexivity|].
  rewrite IH. apply perm_swap.
Qed.

Lemma sorted_perm (l : list A) : Permutation (sorted key l) l.
Proof.
  induction l as [|x l IH]; simpl; [reflexivity|].
  rewrite insert_by_perm. now constructor.
Qed.

Lemma insert_by_sorted (x : A) (l : list A) :
  StronglySorted (fun a b => (key a <= key b)%nat) l ->
  StronglySorted (fun a b => (key a <= key b)%nat) (insert_by key x l).
Proof.
  induction 1 as [|y l Hs IH Hy]; simpl; [repeat constructor|].
  destruct (key x <=? key y)%nat eqn:E.
  - apply Nat.leb_le in E. constructor; [now constructor|].
    constructor; [exact E|]. eapply Forall_impl; [exact Hy|].
    simpl. intros z Hz. lia.
  - apply Nat.leb_gt in E. constructor; [exact IH|].
    rewrite (insert_by_perm x l). constructor; [lia | exact Hy].
Qed.

Lemma sorted_sorted (l : list A) :
  StronglySorted (fun a b => (key a <= key b)%nat) (sorted key l).
Proof.
  induction l as [|x l IH]; simpl; [constructor | now apply insert_by_sorted].
Qed.

Lemma insert_by_stable (k : nat) (x : A) (l : list A) :
  filter (fun a => key a = k) (insert_by key x l)
  = filter (fun a => key a = k) (x :: l).
Proof.
  induction l as [|y l IH]; simpl; [reflexivity|].
  destruct (key x <=? key y)%nat eqn:E; [reflexivity|].
  apply Nat.leb_gt in E.
  rewrite (filter_cons _ y (insert_by key x l)), IH.
  rewrite !filter_cons.
  destruct (decide (key y = k)), (decide (key x = k)); try reflexivity. lia.
Qed.

Lemma sorted_stable (k : nat) (l : list A) :
  filter (fun a => key a = k) (sorted key l) = filter (fun a => key a = k) l.
Proof.
  induction l as [|x l IH]; simpl; [reflexivity|].
  rewrite insert_by_stable, !filter_cons, IH. reflexivity.
Qed.

End SortFacts.

(** ** The classifier and the pipeline *)

Section PipelineFacts.

Variable ratio : string -> string -> Q.

Lemma match_ingredient_some (ing : string) (catalog : list string) (threshold : Q) :
  0 < threshold -> exists y, match_ingredient ratio ing catalog threshold = Some y.
Proof.
  intros Hth.
  destruct (match_ingredient_cases ratio ing catalog threshold Hth)
    as [(r & H & _) | [(_ & r & H & _) | (_ & _ & H)]]; eauto.
Qed.

Lemma detect_loop_map (df : list safety_row) (names inputs : list string) :
  forall results,
    detect_loop ratio df names inputs results
    = Ok (results ++ map (Spec.finding_of ratio df names) inputs)%list.
Proof.
  induction inputs as [|ingr rest IH]; intros results; simpl.
  - now rewrite app_nil_r.
  - unfold Spec.finding_of at 1, Spec.resolve.
    destruct (match_ingredient_some ingr names 80) as [y ->]; [lra|].
    rewrite IH, <- app_assoc. reflexivity.
Qed.

(** [detect_ingredients] never fails. *)
Lemma detect_ingredients_ok (inputs : list string) (df : list safety_row)
    (names : list string) :
  detect_ingredients ratio inputs df names
  = Ok (sorted severity (map (Spec.finding_of ratio df names) inputs)).
Proof.
  unfold detect_ingredients. now rewrite detect_loop_map.
Qed.

(** [analyze_product] fails when, and as, [evaluate_nutrition] does. *)
Lemma analyze_product_result (p : product) (df : list safety_row)
    (ndf : list nutrition_row) (names : list string) :
  analyze_product ratio p df ndf names
  = match evaluate_nutrition (default ∅ (get_nutrition p)) ndf with
    | Ok (nutrition_pros, nutrition_cons) =>
        Ok ({[ "product_name" := PyStr (default "Unnamed Product" (get_product_name p));
               "ingredient_analysis" :=
                 PyFindings (sorted severity
                               (map (Spec.finding_of ratio df names)
                                    (default [] (get_ingredients p))));
               "nutrition_pros" := PyStrList nutrition_pros;
               "nutrition_cons" := PyStrList nutrition_cons ]} : gmap string pyval)
    | Raise e => Raise e
    end.
Proof.
  unfold analyze_product. rewrite detect_ingredients_ok. cbn [mbind result_bind].
  destruct (evaluate_nutrition _ ndf) as [[pros cons]|e]; reflexivity.
Qed.

Lemma severity_of_tier (ing : finding) (t : Spec.tier) :
  Spec.has_tier ing t -> severity ing = Spec.tier_severity t.
Proof.
  unfold Spec.has_tier, severity. intros H.
  rewrite (lookup_total_correct _ _ _ H). now destruct t.
Qed.

(** C5: the [ingredient_analysis] that [analyze_product] returns is the
    list of the findings of the input ingredients, sorted by severity
    (unsafe 0, caution 1, safe 2, unknown 3) in non-decreasing order, and the
    sort is stable: the findings of one severity are in the order of the
    ingredients they come from. *)
Theorem ingredient_analysis_sorted (p : product) (df : list safety_row)
    (ndf : list nutrition_row) (names : list string) (res : gmap string pyval) :
  analyze_product ratio p df ndf names = Ok res ->
  exists ia,
    res !! "ingredient_analysis" = Some (PyFindings ia)
    /\ StronglySorted (fun a b => (severity a <= severity b)%nat) ia
    /\ Permutation ia (map (Spec.finding_of ratio df names) (default [] (get_ingredients p)))
    /\ (forall k, filter (fun a => severity a = k) ia
                  = filter (fun a => severity a = k)
                      (map (Spec.finding_of ratio df names)
                           (default [] (get_ingredients p))))
    /\ (forall ing t, ing ∈ ia -> Spec.has_tier ing t ->
                      severity ing = Spec.tier_severity t).
Proof.
  rewrite analyze_product_result.
  destruct (evaluate_nutrition _ ndf) as [[pros cons]|e]; [|discriminate].
  intros [= <-]. eexists. split; [reflexivity|].
  split; [apply sorted_sorted|]. split; [apply sorted_perm|].
  split; [intros k; apply sorted_stable|].
  intros ing t _. apply severity_of_tier.
Qed.

End PipelineFacts.

(** ** Scoring the output of [analyze_product] *)


Section ScoreOfAnalysis.

Variable ratio : string -> string -> Q.


End ScoreOfAnalysis.

(** ** Runs on the sample data *)

Example scenario_a_findings :
  detect_ingredients indel_ratio ["Sugar"; "Salt"; "Unknownite"]
    Sample.catalog Sample.names = Ok Sample.scenario_a.
Proof. vm_cast_no_check (eq_refl (Ok Sample.scenario_a)). Qed.

Example scenario_a_score :
  map (fun ing : finding => ing !!! "status") Sample.scenario_a
  = ["caution"; "caution"; "unknown"]
  /\ _compute_ingredient_score Sample.scenario_a = Ok (500 # 100).
Proof. split; vm_compute; reflexivity. Qed.

Example scenario_b_score :
  _compute_nutrition_score_from_values Sample.scenario_b == 6.
Proof. vm_compute. reflexivity. Qed.

Example scenario_c_score :
  exists f, compute_safety_score Sample.mostly_unsafe None
              (Some ["a"; "b"; "c"; "d"; "e"; "f"]) (Some []) (7 # 10) (3 # 10) = Ok f
            /\ _compute_ingredient_score Sample.mostly_unsafe = Ok (200 # 100)
            /\ _compute_nutrition_score_from_pros_cons ["a"; "b"; "c"; "d"; "e"; "f"] [] == 8
            /\ f == 38 # 10.
Proof. eexists. repeat split; vm_compute; reflexivity. Qed.

Example scenario_d_score :
  compute_safety_score Sample.scenario_a None None None 0 0 = Ok (0 # 100).
Proof. vm_compute. reflexivity. Qed.

Example threshold_zero_returns_none :
  match_ingredient indel_ratio "xyz" ["abc"] 0 = None.
Proof. vm_compute. reflexivity. Qed.

Lemma match_ingredient_phases_witness :
  0 < 80
  /\ match_ingredient indel_ratio "suger" Sample.names 80 = Some "Sugar"
  /\ ((exists ref, match_ingredient indel_ratio "suger" Sample.names 80 = Some ref
         /\ Spec.first_maximum indel_ratio "suger" Sample.names ref
         /\ 80 <= Spec.similarity indel_ratio "suger" ref)
      \/ ((forall x, x ∈ Sample.names -> Spec.similarity indel_ratio "suger" x < 80)
          /\ exists ref, match_ingredient indel_ratio "suger" Sample.names 80 = Some ref
               /\ Spec.first_sharing "suger" Sample.names ref)
      \/ ((forall x, x ∈ Sample.names -> Spec.similarity indel_ratio "suger" x < 80)
          /\ (forall x, x ∈ Sample.names -> ~ Spec.shares_token "suger" x)
          /\ match_ingredient indel_ratio "suger" Sample.names 80 = Some "suger")).
Proof.
  assert (H : 0 < 80) by reflexivity.
  split; [exact H|]. split; [vm_compute; reflexivity|].
  apply (match_ingredient_phases indel_ratio "suger" Sample.names 80 H).
Defined.

Lemma match_idempotent_witness :
  match_ingredient indel_ratio "Iodised Salt" Sample.names 80 = Some "Salt"
  /\ "Salt" ∈ Sample.names
  /\ match_ingredient indel_ratio "Salt" Sample.names 80 = Some "Salt".
Proof.
  assert (Hm : match_ingredient indel_ratio "Iodised Salt" Sample.names 80 = Some "Salt")
    by (vm_compute; reflexivity).
  assert (Hin : "Salt" ∈ Sample.names) by (vm_compute; repeat constructor).
  assert (H0 : 0 < 80) by reflexivity.
  assert (H1 : 80 <= 100) by discriminate.
  split; [exact Hm|]. split; [exact Hin|].
  apply (match_idempotent indel_ratio indel_ratio_refl indel_ratio_le indel_ratio_full
           "Iodised Salt" Sample.names 80 "Salt" H0 H1 Hm Hin).
Defined.

Lemma nutrition_findings_witness :
  Forall (fun row => low_threshold row <= high_threshold row) Sample.standards
  /\ Forall (Spec.readable Sample.nutrition) Sample.standards
  /\ evaluate_nutrition Sample.nutrition Sample.standards
     = Ok (["Balanced protein_g"; "Balanced sodium_mg"],
           ["High total_sugar_g (limit added sugars)"]).
Proof.
  assert (Hinv : Forall (fun row => low_threshold row <= high_threshold row)
                        Sample.standards).
  { repeat constructor; discriminate. }
  assert (Hread : Forall (Spec.readable Sample.nutrition) Sample.standards).
  { repeat constructor; intros s Hs; vm_compute in Hs; try discriminate.
    injection Hs as <-. eexists. vm_compute. reflexivity. }
  split; [exact Hinv|]. split; [exact Hread|].
  destruct (nutrition_findings Sample.nutrition Sample.standards Hinv Hread) as [-> _].
  vm_compute. reflexivity.
Defined.

Lemma text_without_number_fails_witness :
  evaluate_nutrition Sample.trace_protein Sample.standards = Raise IndexError
  /\ evaluate_nutrition Sample2.two_texts Sample.standards = Raise ValueError
  /\ (exists e, evaluate_nutrition Sample2.two_texts Sample.standards = Raise e
                 /\ (e = IndexError \/ e = ValueError))
  /\ evaluate_nutrition (<["energy_kcal" := VStr "n/a"]> Sample.trace_protein)
       Sample.standards
     = evaluate_nutrition Sample.trace_protein Sample.standards.
Proof.
  destruct (text_without_number_fails Sample.trace_protein Sample.standards)
    as (_ & Hfirst & Hno & Hkey).
  destruct (text_without_number_fails Sample2.two_texts Sample.standards)
    as (Hfail & Hfirst' & _ & _).
  split; [|split; [|split]].
  - apply (Hfirst [Sample2.sugar_row] Sample.protein_row [Sample2.sodium_row]
                  "trace" IndexError).
    + reflexivity.
    + constructor; [|constructor]. intros s Hs. vm_compute in Hs. discriminate.
    + vm_compute. reflexivity.
    + apply (Hno "trace"). vm_compute. reflexivity.
  - apply (Hfirst' [] Sample2.sugar_row [Sample.protein_row; Sample2.sodium_row]
                   "..." ValueError).
    + reflexivity.
    + constructor.
    + vm_compute. reflexivity.
    + vm_compute. reflexivity.
  - apply (Hfail Sample.protein_row "trace").
    + vm_compute. repeat constructor.
    + vm_compute. reflexivity.
    + vm_compute. reflexivity.
  - apply Hkey. repeat constructor; discriminate.
Defined.

Example biscuit_analyzed :
  analyze_product indel_ratio Sample.biscuit Sample.catalog Sample.standards Sample.names
  = Ok Sample.biscuit_analysis.
Proof. vm_cast_no_check (eq_refl (Ok Sample.biscuit_analysis)). Qed.

Example biscuit_score :
  compute_safety_score_from_model2_output Sample.biscuit_analysis (7 # 10) (3 # 10)
  = Ok (509 # 100).
Proof. vm_compute. reflexivity. Qed.

Lemma ingredient_analysis_sorted_witness :
  analyze_product indel_ratio Sample.biscuit Sample.catalog Sample.standards Sample.names
  = Ok Sample.biscuit_analysis
  /\ exists ia,
       Sample.biscuit_analysis !! "ingredient_analysis" = Some (PyFindings ia)
       /\ StronglySorted (fun a b => (severity a <= severity b)%nat) ia.
Proof.
  pose proof biscuit_analyzed as E.
  split; [exact E|].
  destruct (ingredient_analysis_sorted indel_ratio Sample.biscuit Sample.catalog
              Sample.standards Sample.names Sample.biscuit_analysis E)
    as (ia & Hia & Hsorted & _).
  exists ia. split; [exact Hia | exact Hsorted].
Defined.


(** * The scores in binary64 arithmetic *)

(** ** Rounding to the nearest float *)

Lemma nearest_comp (x y : Q) : (x == y)%Q -> Double.nearest x = Double.nearest y.
Proof.
  intros E. unfold Double.nearest.
  rewrite (Qred_complete x y E).
  assert (E' : (- x == - y)%Q) by now rewrite E.
  now rewrite (Qred_complete _ _ E').
Qed.

Lemma round_half_even_close (y : Q) :
  (inject_Z (round_half_even y) <= y + (1 # 2) /\ y - (1 # 2) <= inject_Z (round_half_even y))%Q.
Proof.
  unfold round_half_even.
  pose proof (Qfloor_le y) as Hlo. pose proof (Qlt_floor y) as Hhi.
  rewrite inject_Z_plus in Hhi. change (inject_Z 1) with 1%Q in Hhi.
  destruct (Qcompare_spec (y - inject_Z (Qfloor y)) (1 # 2)) as [E|E|E].
  - destruct (Z.even _); rewrite ?inject_Z_plus; change (inject_Z 1) with 1%Q; lra.
  - lra.
  - rewrite inject_Z_plus. change (inject_Z 1) with 1%Q. lra.
Qed.

Lemma pow2_pos (e : Z) : (0 < 2 ^ e)%Q.
Proof. apply Qpower_0_lt. reflexivity. Qed.

Lemma pow2_plus (a b : Z) : (2 ^ (a + b) == 2 ^ a * 2 ^ b)%Q.
Proof. apply Qpower_plus. discriminate. Qed.

Lemma pow2_le (a b : Z) : (a <= b)%Z -> (2 ^ a <= 2 ^ b)%Q.
Proof. intros H. apply Qpower_le_compat_l; [exact H | discriminate]. Qed.

Lemma pow2_Z (k : Z) : (0 <= k)%Z -> (inject_Z (2 ^ k) == 2 ^ k)%Q.
Proof. intros H. now rewrite Zpower_Qpower. Qed.

(** The exponent that [ilog2] finds is not above the number. *)
Lemma ilog2_le (x : Q) : (0 < x)%Q -> (2 ^ Double.ilog2 x <= x)%Q.
Proof.
  intros Hx. unfold Double.ilog2.
  destruct (Qle_bool _ x) eqn:E; [now apply Qle_bool_iff in E|]. clear E.
  destruct x as [n d]. cbn [Qnum Qden].
  assert (Hn : (0 < n)%Z).
  { unfold Qlt in Hx. cbn in Hx. lia. }
  pose proof (Z.log2_spec n Hn) as [Hn1 _].
  pose proof (Z.log2_spec (Zpos d) (Pos2Z.is_pos d)) as [_ Hd2].
  pose proof (Z.log2_nonneg n) as Hln. pose proof (Z.log2_nonneg (Zpos d)) as Hld.
  set (a := Z.log2 n) in *. set (b := Z.log2 (Z.pos d)) in *.
  rewrite Zle_Qle, pow2_Z in Hn1 by exact Hln.
  rewrite Zlt_Qlt, pow2_Z in Hd2 by lia.
  assert (E : (2 ^ a == 2 ^ (a - b - 1) * 2 ^ (Z.succ b))%Q).
  { rewrite <- pow2_plus. now replace (a - b - 1 + Z.succ b)%Z with a by lia. }
  pose proof (pow2_pos (a - b - 1)) as Hp.
  set (p := (2 ^ (a - b - 1))%Q) in *.
  assert (Hd : (inject_Z (Zpos d) * p <= inject_Z n)%Q).
  { assert ((inject_Z (Zpos d) * p <= 2 ^ Z.succ b * p)%Q).
    { apply Qmult_le_compat_r; lra. }
    lra. }
  assert (Hq : (n # d == inject_Z n / inject_Z (Zpos d))%Q) by apply Qmake_Qdiv.
  rewrite Hq. apply Qle_shift_div_l.
  - change 0%Q with (inject_Z 0). rewrite <- Zlt_Qlt. lia.
  - lra.
Qed.

Lemma unit_roundoff_val : (2 ^ (-53) == unit_roundoff)%Q.
Proof. reflexivity. Qed.

Lemma half_least_pos : (0 < half_least)%Q.
Proof. apply pow2_pos. Qed.

Lemma half_least_small : (half_least <= 2 ^ (-1000) * unit_roundoff)%Q.
Proof.
  rewrite <- unit_roundoff_val. unfold half_least.
  rewrite <- pow2_plus. apply pow2_le. lia.
Qed.

(** The error of rounding to the nearest float. *)
Lemma nearest_pos_error (x : Q) :
  (0 < x)%Q -> (x <= 2 ^ 1010)%Q ->
  exists c, Double.nearest_pos x = Double.Finite c
    /\ (0 <= c)%Q
    /\ (c - x <= unit_roundoff * x + half_least)%Q
    /\ (x - c <= unit_roundoff * x + half_least)%Q.
Proof.
  intros Hx Hb. unfold Double.nearest_pos.
  pose proof (ilog2_le x Hx) as He.
  set (e := Double.ilog2 x) in *.
  set (q := Z.max (Z.min e 1023 - 52) (-1074)).
  pose proof (pow2_pos q) as HP.
  assert (HPle : (2 ^ q <= 2 * (unit_roundoff * x + half_least))%Q).
  { pose proof half_least_pos as Hh.
    assert (Hu : (0 < unit_roundoff)%Q) by reflexivity.
    destruct (Z.max_spec (Z.min e 1023 - 52) (-1074)) as [[Hlt Hq]|[Hlt Hq]];
      fold q in Hq; rewrite Hq.
    - assert (E : (2 ^ (-1074) == 2 * half_least)%Q) by reflexivity.
      rewrite E.
      assert (0 <= unit_roundoff * x)%Q by (apply Qmult_le_0_compat; lra).
      lra.
    - assert (H1 : (2 ^ (Z.min e 1023 - 52) <= 2 ^ (e + -52))%Q) by (apply pow2_le; lia).
      rewrite pow2_plus in H1.
      assert (E : (2 ^ (-52) == 2 * unit_roundoff)%Q) by reflexivity.
      rewrite E in H1.
      assert (H2 : (2 ^ e * (2 * unit_roundoff) <= x * (2 * unit_roundoff))%Q).
      { apply Qmult_le_compat_r; lra. }
      lra. }
  set (P := (2 ^ q)%Q) in *.
  set (y := (x / P)%Q).
  assert (Ey : (y * P == x)%Q).
  { unfold y. field. lra. }
  pose proof (round_half_even_close y) as [Hm1 Hm2].
  assert (Hy : (0 <= y)%Q).
  { unfold y. apply Qle_shift_div_l; lra. }
  assert (Hm0 : (0 <= inject_Z (round_half_even y))%Q).
  { change 0%Q with (inject_Z 0). rewrite <- Zle_Qle.
    apply round_half_even_ge. exact Hy. }
  set (m := inject_Z (round_half_even y)) in *.
  assert (Hr1 : (m * P <= x + (1 # 2) * P)%Q).
  { assert ((m * P <= (y + (1 # 2)) * P)%Q) by (apply Qmult_le_compat_r; lra).
    lra. }
  assert (Hr2 : (x - (1 # 2) * P <= m * P)%Q).
  { assert (((y - (1 # 2)) * P <= m * P)%Q) by (apply Qmult_le_compat_r; lra).
    lra. }
  assert (Hr0 : (0 <= m * P)%Q) by (apply Qmult_le_0_compat; lra).
  assert (Hbig : (2 ^ 1010 * 4 <= 2 ^ 1024)%Q).
  { assert (E : (4 == 2 ^ 2)%Q) by reflexivity.
    rewrite E, <- pow2_plus. apply pow2_le. lia. }
  assert (Hone : (1 <= 2 ^ 1010)%Q).
  { apply (pow2_le 0). lia. }
  assert (Hu1 : (unit_roundoff <= 1)%Q) by discriminate.
  assert (Hux : (unit_roundoff * x <= 1 * x)%Q) by (apply Qmult_le_compat_r; lra).
  assert (Hh1 : (half_least <= 1)%Q).
  { apply (pow2_le (-1075) 0). lia. }
  destruct (Qle_bool (2 ^ 1024) (m * P)) eqn:Ec.
  - apply Qle_bool_iff in Ec. lra.
  - pose proof (Qred_correct (m * P)) as Erc.
    exists (Qred (m * P)). split; [reflexivity|].
    set (c := Qred (m * P)) in *. split; [lra|]. split; lra.
Qed.

Lemma nearest_error (x : Q) :
  (0 <= x)%Q -> (x <= 2 ^ 1010)%Q ->
  exists c, Double.nearest x = Double.Finite c
    /\ (0 <= c)%Q
    /\ (c - x <= unit_roundoff * x + half_least)%Q
    /\ (x - c <= unit_roundoff * x + half_least)%Q.
Proof.
  intros Hx Hb. unfold Double.nearest.
  pose proof (Qred_correct x) as Er.
  pose proof half_least_pos as Hh.
  assert (Hu : (0 < unit_roundoff)%Q) by reflexivity.
  destruct (Qnum (Qred x)) eqn:En.
  - assert (E0 : (x == 0)%Q).
    { rewrite <- Er. unfold Qeq. rewrite En. reflexivity. }
    exists 0%Q. split; [reflexivity|].
    rewrite E0. split; [lra|]. split; lra.
  - assert (Hpos : (0 < Qred x)%Q).
    { unfold Qlt. rewrite En. cbn. lia. }
    destruct (nearest_pos_error (Qred x)) as (c & Ec & Hc).
    + exact Hpos.
    + now rewrite Er.
    + exists c. split; [exact Ec|]. now rewrite Er in Hc.
  - exfalso. assert (Hneg : (Qred x < 0)%Q).
    { unfold Qlt. rewrite En. cbn. lia. }
    rewrite Er in Hneg. lra.
Qed.

(** ** The ingredient sub-score on floats *)

Lemma round2_close (x : Q) :
  (x - (1 # 200) <= round2 x /\ round2 x <= x + (1 # 200))%Q.
Proof.
  unfold round2. pose proof (round_half_even_close (x * 100)) as [H1 H2].
  rewrite Qdiv_100. split; lra.
Qed.

Lemma round2_nonneg (x : Q) : (0 <= x)%Q -> (0 <= round2 x)%Q.
Proof.
  intros H. unfold round2. rewrite Qdiv_100.
  assert (Hm : (0 <= round_half_even (x * 100))%Z).
  { apply round_half_even_ge. change (inject_Z 0) with 0%Q. lra. }
  rewrite Zle_Qle in Hm. change (inject_Z 0) with 0%Q in Hm. lra.
Qed.

Lemma small_bound (x : Q) : (x <= 1000)%Q -> (x <= 2 ^ 1010)%Q.
Proof.
  intros H. assert (H1 : (2 ^ 10 <= 2 ^ 1010)%Q) by (apply pow2_le; lia).
  assert (E : (2 ^ 10 == 1024)%Q) by reflexivity.
  rewrite E in H1. lra.
Qed.

Lemma half_least_tiny : (half_least <= (1 # 1024) * unit_roundoff)%Q.
Proof.
  pose proof half_least_small as H.
  assert (H1 : (2 ^ (-1000) <= 2 ^ (-10))%Q) by (apply pow2_le; lia).
  assert (E : (2 ^ (-10) == 1 # 1024)%Q) by reflexivity.
  rewrite E in H1.
  assert (H2 : (2 ^ (-1000) * unit_roundoff <= (1 # 1024) * unit_roundoff)%Q).
  { apply Qmult_le_compat_r; [exact H1 | discriminate]. }
  lra.
Qed.

(** The quotient of two [int]s, the first a part of the second. *)
Lemma int_truediv_part (a b : Z) :
  (0 <= a <= b)%Z -> (0 < b)%Z ->
  exists c, Double.int_truediv a b = Ok (Double.Finite c)
    /\ Double.nearest (inject_Z a / inject_Z b) = Double.Finite c
    /\ (0 <= c)%Q
    /\ (c - inject_Z a / inject_Z b <= unit_roundoff + half_least)%Q
    /\ (inject_Z a / inject_Z b - c <= unit_roundoff + half_least)%Q.
Proof.
  intros [Ha Hab] Hb. unfold Double.int_truediv.
  destruct (Z.eqb_spec b 0) as [->|_]; [lia|].
  rewrite Zle_Qle in Ha, Hab. rewrite Zlt_Qlt in Hb.
  change (inject_Z 0) with 0%Q in *.
  set (x := (inject_Z a / inject_Z b)%Q).
  assert (H0 : (0 <= x)%Q) by (apply Qle_shift_div_l; [exact Hb | lra]).
  assert (H1 : (x <= 1)%Q) by (apply Qle_shift_div_r; [exact Hb | lra]).
  destruct (nearest_error x H0) as (c & Ec & Hc0 & Hc1 & Hc2).
  { apply small_bound. lra. }
  exists c. unfold Double.float. rewrite Ec.
  unfold unit_roundoff in *.
  split; [reflexivity|]. split; [reflexivity|]. split; [exact Hc0|]. split; lra.
Qed.

(** The score of a non-empty list, with the division carried out. *)
Lemma double_ingredient_score_cons (x : finding) (l : list finding) :
  let raw := Spec.sum_Z (map status_weight (x :: l)) in
  let n := Z.of_nat (length (x :: l)) in
  exists v, Double._compute_ingredient_score (x :: l) = Ok (Double.Finite v)
    /\ Double.round2 (Double.mul (Double.nearest (inject_Z (raw + n) / inject_Z (2 * n)))
                                 (Double.Finite 10)) = Double.Finite v
    /\ (0 <= v)%Q
    /\ (v - inject_Z (raw + n) / inject_Z (2 * n) * 10 <= (1 # 200) + (1 # 100000000000000))%Q
    /\ (inject_Z (raw + n) / inject_Z (2 * n) * 10 - v <= (1 # 200) + (1 # 100000000000000))%Q.
Proof.
  intros raw n. unfold Double._compute_ingredient_score.
  rewrite fold_left_weights, Z.add_0_l. fold raw n.
  pose proof (sum_weights_range (x :: l)) as Hr. fold raw n in Hr.
  assert (Hn : (0 < n)%Z) by (unfold n; simpl length; lia).
  destruct (int_truediv_part (raw + n) (2 * n)) as (c & Ec & En & Hc0 & Hc1 & Hc2);
    [lia | lia |].
  rewrite Ec, En. cbn [mbind result_bind Double.mul].
  assert (Hx0 : (0 <= inject_Z (raw + n) / inject_Z (2 * n))%Q).
  { apply Qle_shift_div_l.
    - change 0%Q with (inject_Z 0). rewrite <- Zlt_Qlt. lia.
    - rewrite Qmult_0_l. change 0%Q with (inject_Z 0). rewrite <- Zle_Qle. lia. }
  assert (Hx1 : (inject_Z (raw + n) / inject_Z (2 * n) <= 1)%Q).
  { apply Qle_shift_div_r.
    - change 0%Q with (inject_Z 0). rewrite <- Zlt_Qlt. lia.
    - rewrite Qmult_1_l. rewrite <- Zle_Qle. lia. }
  set (e := (inject_Z (raw + n) / inject_Z (2 * n))%Q) in *.
  pose proof half_least_tiny as Hh. pose proof half_least_pos as Hh0.
  unfold unit_roundoff in *.
  destruct (nearest_error (c * 10)) as (p & Ep & Hp0 & Hp1 & Hp2).
  { lra. }
  { apply small_bound. lra. }
  rewrite Ep. cbn [Double.round2].
  pose proof (round2_close p) as [Hr1 Hr2].
  pose proof (round2_nonneg p Hp0) as Hr0.
  destruct (nearest_error (round2 p) Hr0) as (v & Ev & Hv0 & Hv1 & Hv2).
  { apply small_bound. unfold unit_roundoff in *. lra. }
  rewrite Ev. exists v.
  unfold unit_roundoff in *.
  split; [reflexivity|]. split; [reflexivity|]. split; [exact Hv0|]. split; lra.
Qed.




(** ** The weights on floats *)

Lemma same_eq (a b : Double.double) : same a b = true -> a = b.
Proof.
  destruct a as [[xn xd]| | |], b as [[yn yd]| | |]; simpl; try discriminate; try reflexivity.
  intros H. apply andb_true_iff in H as [H1 H2].
  apply Z.eqb_eq in H1. apply Pos.eqb_eq in H2. now subst.
Qed.

Lemma hundredths_kept :
  forallb hundredth_kept (map Z.of_nat (seq 0 1001)) = true.
Proof. vm_compute. reflexivity. Qed.

Lemma hundredth_fixed (k : Z) :
  (0 <= k <= 1000)%Z ->
  let n := Double.nearest (inject_Z k / 100) in
  Double.round2
    (Double.py_max (Double.Finite 0)
       (Double.py_min (Double.Finite 10)
          (Double.add (Double.Finite 0) (Double.mul n (Double.Finite 1))))) = n.
Proof.
  intros Hk n. apply same_eq.
  pose proof hundredths_kept as H.
  rewrite forallb_forall in H. apply (H k).
  apply in_map_iff. exists (Z.to_nat k). split; [lia|].
  apply in_seq. lia.
Qed.

Lemma clamp_finite (x : Double.double) :
  exists c, Double.py_max (Double.Finite 0) (Double.py_min (Double.Finite 10) x)
            = Double.Finite c /\ (0 <= c <= 10)%Q.
Proof.
  destruct x as [v| | |]; cbn.
  - unfold Double.py_min, Double.py_max. cbn [Double.ltb].
    destruct (Qltb v 10) eqn:E1.
    + cbn [Double.ltb]. destruct (Qltb 0 v) eqn:E2.
      * exists v. split; [reflexivity|].
        apply Qltb_lt in E1, E2. lra.
      * exists 0%Q. split; [reflexivity|]. lra.
    + cbn. exists 10%Q. split; [reflexivity|]. lra.
  - exists 10%Q. split; [reflexivity|]. lra.
  - exists 0%Q. split; [reflexivity|]. lra.
  - exists 10%Q. split; [reflexivity|]. lra.
Qed.

(** A clamped and rounded score is a number of hundredths from 0 to 10. *)
Lemma round2_clamped (x : Double.double) :
  exists k, (0 <= k <= 1000)%Z
    /\ Double.round2 (Double.py_max (Double.Finite 0) (Double.py_min (Double.Finite 10) x))
       = Double.nearest (inject_Z k / 100).
Proof.
  destruct (clamp_finite x) as (c & -> & H0 & H10).
  exists (round_half_even (c * 100)). split; [|reflexivity].
  split.
  - apply round_half_even_ge. change (inject_Z 0) with 0%Q. lra.
  - apply round_half_even_le. change (inject_Z 1000) with 1000%Q. lra.
Qed.

Lemma hundredth_finite (k : Z) :
  (0 <= k <= 1000)%Z ->
  exists c, Double.nearest (inject_Z k / 100) = Double.Finite c.
Proof.
  intros [H0 H1]. rewrite Zle_Qle in H0, H1.
  change (inject_Z 0) with 0%Q in H0. change (inject_Z 1000) with 1000%Q in H1.
  destruct (nearest_error (inject_Z k / 100)) as (c & Ec & _).
  - rewrite Qdiv_100. lra.
  - apply small_bound. rewrite Qdiv_100. lra.
  - now exists c.
Qed.

Lemma double_nutrition_score_rounded ni np nc (n : Double.double) :
  Double.nutrition_score ni np nc = Ok n ->
  exists k, (0 <= k <= 1000)%Z /\ n = Double.nearest (inject_Z k / 100).
Proof.
  assert (Hpc : forall p c, Double._compute_nutrition_score_from_pros_cons p c = Ok n ->
                exists k, (0 <= k <= 1000)%Z /\ n = Double.nearest (inject_Z k / 100)).
  { intros p c. unfold Double._compute_nutrition_score_from_pros_cons.
    destruct (Double.len p) as [lp|]; [|discriminate].
    destruct (Double.len c) as [lc|]; [|discriminate].
    cbn [mbind result_bind]. intros [= <-]. apply round2_clamped. }
  assert (Hv : forall d, Double._compute_nutrition_score_from_values d = Ok n ->
                exists k, (0 <= k <= 1000)%Z /\ n = Double.nearest (inject_Z k / 100)).
  { intros d. unfold Double._compute_nutrition_score_from_values.
    destruct (dict_empty d).
    - intros [= <-]. exists 500%Z. split; [lia | reflexivity].
    - repeat (match goal with
              | |- context [mbind _ ?r] =>
                  destruct r; cbn [mbind result_bind]; [|discriminate]
              end).
      intros [= <-]. apply round2_clamped. }
  unfold Double.nutrition_score.
  destruct ni as [d|]; [destruct (negb (dict_empty d))|];
    [apply Hv | apply Hpc | apply Hpc].
Qed.

Lemma double_ingredient_score_finite (ia : list finding) :
  exists v, Double._compute_ingredient_score ia = Ok (Double.Finite v).
Proof.
  destruct ia as [|x l].
  - now exists 5%Q.
  - destruct (double_ingredient_score_cons x l) as (v & Ev & _). now exists v.
Qed.

Lemma double_mul_0_r (v : Q) : Double.mul (Double.Finite v) (Double.Finite 0) = Double.Finite 0.
Proof.
  cbn [Double.mul]. rewrite (nearest_comp _ 0); [reflexivity | lra].
Qed.

(** No division by zero in the normalisation. *)
Lemma normalized_weights_pinned (wi wn : Q) (w_i w_n : Double.double) :
  Double.float wi = Ok w_i -> Double.float wn = Ok w_n ->
  let total := if Double.neb (Double.add w_i w_n) (Double.Finite 0)
               then Double.add w_i w_n else Double.Finite 1 in
  exists a b, Double.truediv w_i total = Ok a /\ Double.truediv w_n total = Ok b
    /\ Double.normalized_weights wi wn = Ok (a, b).
Proof.
  intros Hi Hn total. unfold Double.normalized_weights.
  rewrite Hi, Hn. cbn [mbind result_bind]. fold total.
  assert (Ht : forall x, exists y, Double.truediv x total = Ok y).
  { intros x. unfold total, Double.neb.
    destruct (Double.add w_i w_n) as [t| | |] eqn:Et; cbn [Double.eqb negb].
    - destruct (Qeq_bool t 0) eqn:E0; cbn [negb].
      + eexists. reflexivity.
      + unfold Double.truediv. rewrite E0. eexists. reflexivity.
    - eexists. reflexivity.
    - eexists. reflexivity.
    - eexists. reflexivity. }
  destruct (Ht w_i) as (a & Ea). destruct (Ht w_n) as (b & Eb).
  exists a, b. rewrite Ea, Eb. cbn [mbind result_bind]. auto.
Qed.

Lemma Qeq_bool_pos (t : Q) : (0 < t)%Q -> Qeq_bool t 0 = false.
Proof.
  intros H. destruct (Qeq_bool t 0) eqn:E; [|reflexivity].
  apply Qeq_bool_iff in E. lra.
Qed.

(** Non-negative weights of ordinary size are normalised to two weights
    that add up to 1, up to the rounding of the three operations. *)
Lemma normalized_weights_sum (wi wn : Q) :
  (0 <= wi)%Q -> (0 <= wn)%Q ->
  (2 ^ (-1000) <= wi + wn)%Q -> (wi + wn <= 2 ^ 1000)%Q ->
  exists a b, Double.normalized_weights wi wn = Ok (Double.Finite a, Double.Finite b)
    /\ (0 <= a)%Q /\ (0 <= b)%Q
    /\ (Qabs (a + b - 1) <= 1 # 1000000000000000)%Q.
Proof.
  intros Hi Hn Hlo Hhi.
  pose proof half_least_pos as Hh0. pose proof half_least_small as HhL.
  pose proof half_least_tiny as Hht.
  pose proof (pow2_pos (-1000)) as HL0.
  assert (HT : (2 ^ 1000 * 4 <= 2 ^ 1010)%Q).
  { assert (E : (4 == 2 ^ 2)%Q) by reflexivity.
    rewrite E, <- pow2_plus. apply pow2_le. lia. }
  assert (HT1 : (1 <= 2 ^ 1000)%Q) by (apply (pow2_le 0); lia).
  assert (Hnear : forall x, (0 <= x)%Q -> (x <= 2 ^ 1000 * 4)%Q ->
            exists c, Double.nearest x = Double.Finite c /\ (0 <= c)%Q
              /\ (c - x <= unit_roundoff * x + half_least)%Q
              /\ (x - c <= unit_roundoff * x + half_least)%Q).
  { intros x Hx0 Hx1. apply nearest_error; [exact Hx0 | lra]. }
  clear HT.
  remember (2 ^ (-1000))%Q as L eqn:EL. remember (2 ^ 1000)%Q as T eqn:ET.
  clear EL ET.
  unfold unit_roundoff in *.
  destruct (Hnear wi Hi) as (Wi & Ei & HWi0 & HWi1 & HWi2); [lra|].
  destruct (Hnear wn Hn) as (Wn & En & HWn0 & HWn1 & HWn2); [lra|].
  destruct (Hnear (Wi + Wn)%Q) as (t & Et & Ht0 & Ht1 & Ht2); [lra | lra |].
  assert (Htpos : (0 < t)%Q) by lra.
  unfold Double.normalized_weights, Double.float.
  rewrite Ei, En. cbn [mbind result_bind Double.add]. rewrite Et.
  unfold Double.neb. cbn [Double.eqb]. rewrite (Qeq_bool_pos t Htpos).
  cbn [negb Double.truediv]. rewrite (Qeq_bool_pos t Htpos).
  cbn [mbind result_bind].
  assert (Hc1 : (Wi + Wn <= (1 + 5 * (1 # 9007199254740992)) * t)%Q) by lra.
  assert (Hc2 : ((1 - 5 * (1 # 9007199254740992)) * t <= Wi + Wn)%Q) by lra.
  assert (Hrho1 : ((Wi + Wn) / t <= 1 + 5 * (1 # 9007199254740992))%Q).
  { apply Qle_shift_div_r; [exact Htpos | exact Hc1]. }
  assert (Hrho2 : (1 - 5 * (1 # 9007199254740992) <= (Wi + Wn) / t)%Q).
  { apply Qle_shift_div_l; [exact Htpos | exact Hc2]. }
  assert (Hx1 : (0 <= Wi / t)%Q) by (apply Qle_shift_div_l; lra).
  assert (Hx2 : (0 <= Wn / t)%Q) by (apply Qle_shift_div_l; lra).
  assert (Esum : (Wi / t + Wn / t == (Wi + Wn) / t)%Q) by (field; lra).
  remember (Wi / t)%Q as x1 eqn:E1. remember (Wn / t)%Q as x2 eqn:E2.
  remember ((Wi + Wn) / t)%Q as rho eqn:E3. clear E1 E2 E3.
  destruct (Hnear x1 Hx1) as (a & Ea & Ha0 & Ha1 & Ha2); [lra|].
  destruct (Hnear x2 Hx2) as (b & Eb & Hb0 & Hb1 & Hb2); [lra|].
  rewrite Ea, Eb. exists a, b.
  split; [reflexivity|]. split; [exact Ha0|]. split; [exact Hb0|].
  apply Qabs_case; intros _; lra.
Qed.

(** C3: with weights 0 and 1 the result is the nutrition sub-score
    itself; with both weights 0 the result is 0 and no division fails; for
    all weights, each is divided by the sum of the two (by 1 when that sum
    is zero), no division fails, and the quotients weigh the two
    sub-scores; for weights that are not negative, of ordinary size, the
    two quotients add up to 1 within [10 ^ -15], the rounding of the three
    operations. *)
Theorem weights_normalized ia ni np nc :
  Double.compute_safety_score ia ni np nc 0 1 = Double.nutrition_score ni np nc
  /\ Double.compute_safety_score ia ni np nc 0 0
     = (_ ← Double.nutrition_score ni np nc; Ok (Double.Finite 0))
  /\ (forall (wi wn : Q) (w_i w_n : Double.double),
        Double.float wi = Ok w_i -> Double.float wn = Ok w_n ->
        let total := if Double.neb (Double.add w_i w_n) (Double.Finite 0)
                     then Double.add w_i w_n else Double.Finite 1 in
        exists a b, Double.truediv w_i total = Ok a /\ Double.truediv w_n total = Ok b
          /\ Double.normalized_weights wi wn = Ok (a, b)
          /\ forall s n, Double._compute_ingredient_score ia = Ok s ->
               Double.nutrition_score ni np nc = Ok n ->
               Double.compute_safety_score ia ni np nc wi wn
               = Ok (Double.round2
                       (Double.py_max (Double.Finite 0)
                          (Double.py_min (Double.Finite 10)
                             (Double.add (Double.mul s a) (Double.mul n b))))))
  /\ (forall wi wn : Q,
        (0 <= wi)%Q -> (0 <= wn)%Q ->
        (2 ^ (-1000) <= wi + wn)%Q -> (wi + wn <= 2 ^ 1000)%Q ->
        exists a b, Double.normalized_weights wi wn = Ok (Double.Finite a, Double.Finite b)
          /\ (0 <= a)%Q /\ (0 <= b)%Q
          /\ (Qabs (a + b - 1) <= 1 # 1000000000000000)%Q).
Proof.
  destruct (double_ingredient_score_finite ia) as (s & Es).
  split; [|split; [|split]].
  - unfold Double.compute_safety_score. rewrite Es. cbn [mbind result_bind].
    destruct (Double.nutrition_score ni np nc) as [n|e] eqn:En; [|reflexivity].
    destruct (double_nutrition_score_rounded _ _ _ _ En) as (k & Hk & ->).
    cbn [mbind result_bind].
    change (Double.normalized_weights 0 1)
      with (Ok (Double.Finite 0, Double.Finite 1) : result (Double.double * Double.double)).
    cbn [mbind result_bind]. rewrite double_mul_0_r.
    f_equal. apply (hundredth_fixed k Hk).
  - unfold Double.compute_safety_score. rewrite Es. cbn [mbind result_bind].
    destruct (Double.nutrition_score ni np nc) as [n|e] eqn:En; [|reflexivity].
    destruct (double_nutrition_score_rounded _ _ _ _ En) as (k & Hk & ->).
    destruct (hundredth_finite k Hk) as (c & ->).
    cbn [mbind result_bind].
    change (Double.normalized_weights 0 0)
      with (Ok (Double.Finite 0, Double.Finite 0) : result (Double.double * Double.double)).
    cbn [mbind result_bind]. rewrite !double_mul_0_r. reflexivity.
  - intros wi wn w_i w_n Hi Hn total.
    destruct (normalized_weights_pinned wi wn w_i w_n Hi Hn) as (a & b & Ea & Eb & Ew).
    exists a, b. split; [exact Ea|]. split; [exact Eb|]. split; [exact Ew|].
    intros s' n Es' En. unfold Double.compute_safety_score.
    rewrite Es', En, Ew. reflexivity.
  - apply normalized_weights_sum.
Qed.

(** ** Scores that stay within the sub-scores *)

(** A number less than a half away from an integer rounds to it. *)
Lemma round_half_even_near (k : Z) (y : Q) :
  (inject_Z k - (1 # 2) < y)%Q -> (y < inject_Z k + (1 # 2))%Q ->
  round_half_even y = k.
Proof.
  intros H1 H2. pose proof (round_half_even_close y) as [H3 H4].
  assert (Ha : (inject_Z (round_half_even y) < inject_Z (k + 1))%Q).
  { rewrite inject_Z_plus. change (inject_Z 1) with 1%Q.
    generalize dependent (inject_Z (round_half_even y)).
    generalize dependent (inject_Z k). intros; lra. }
  assert (Hb : (inject_Z k < inject_Z (round_half_even y + 1))%Q).
  { rewrite inject_Z_plus. change (inject_Z 1) with 1%Q.
    generalize dependent (inject_Z (round_half_even y)).
    generalize dependent (inject_Z k). intros; lra. }
  rewrite <- Zlt_Qlt in Ha, Hb. lia.
Qed.

Lemma ordinary_bound (x : Q) : (0 <= x)%Q -> (x <= 1000)%Q ->
  exists c, Double.nearest x = Double.Finite c /\ (0 <= c)%Q
    /\ (c - x <= (1 # 9007199254740992) * x + (1 # 1024) * (1 # 9007199254740992))%Q
    /\ (x - c <= (1 # 9007199254740992) * x + (1 # 1024) * (1 # 9007199254740992))%Q.
Proof.
  intros H0 H1. destruct (nearest_error x H0 (small_bound x H1)) as (c & Ec & Hc0 & Hc1 & Hc2).
  pose proof half_least_tiny as Hh. unfold unit_roundoff in *.
  exists c. split; [exact Ec|]. split; [exact Hc0|]. split; lra.
Qed.

(** Two sub-scores of 5 combine to 5. *)
Lemma combine_5 (a b : Q) :
  (0 <= a)%Q -> (0 <= b)%Q -> (Qabs (a + b - 1) <= 1 # 1000000000000000)%Q ->
  Double.round2
    (Double.py_max (Double.Finite 0)
       (Double.py_min (Double.Finite 10)
          (Double.add (Double.mul (Double.Finite 5) (Double.Finite a))
                      (Double.mul (Double.Finite 5) (Double.Finite b)))))
  = Double.Finite 5.
Proof.
  intros Ha Hb Hab.
  assert (Hab1 : (a + b - 1 <= 1 # 1000000000000000)%Q).
  { eapply Qle_trans; [apply Qle_Qabs | exact Hab]. }
  assert (Hab2 : (- (a + b - 1) <= 1 # 1000000000000000)%Q).
  { eapply Qle_trans; [apply Qle_Qabs | rewrite Qabs_opp; exact Hab]. }
  cbn [Double.mul].
  destruct (ordinary_bound (5 * a)) as (p1 & -> & Hp0 & Hp1 & Hp2); [lra | lra |].
  destruct (ordinary_bound (5 * b)) as (p2 & -> & Hq0 & Hq1 & Hq2); [lra | lra |].
  cbn [Double.add].
  destruct (ordinary_bound (p1 + p2)) as (f & -> & Hf0 & Hf1 & Hf2); [lra | lra |].
  unfold Double.py_min, Double.py_max. cbn [Double.ltb].
  assert (E1 : Qltb f 10 = true).
  { unfold Qltb. assert (H : (f < 10)%Q) by lra. rewrite Qlt_alt in H. now rewrite H. }
  rewrite E1. cbn [Double.ltb].
  assert (E2 : Qltb 0 f = true).
  { unfold Qltb. assert (H : (0 < f)%Q) by lra. rewrite Qlt_alt in H. now rewrite H. }
  rewrite E2. cbn [Double.round2]. unfold round2.
  rewrite (round_half_even_near 500 (f * 100)).
  - vm_compute. reflexivity.
  - change (inject_Z 500) with 500%Q. lra.
  - change (inject_Z 500) with 500%Q. lra.
Qed.

(** X20: a dict with none of the keys read ([ingredient_analysis],
    [nutrition], [nutrition_info], [nutrition_pros], [nutrition_cons]) is
    scored 5.0, the neutral value of both sub-scores, for all weights that
    are not negative, of ordinary size. *)
Theorem score_without_keys (m : gmap string pyval) (wi wn : Q) :
  m !! "ingredient_analysis" = None ->
  m !! "nutrition" = None ->
  m !! "nutrition_info" = None ->
  m !! "nutrition_pros" = None ->
  m !! "nutrition_cons" = None ->
  (0 <= wi)%Q -> (0 <= wn)%Q ->
  (2 ^ (-1000) <= wi + wn)%Q -> (wi + wn <= 2 ^ 1000)%Q ->
  Double.compute_safety_score_from_model2_output m wi wn = Ok (Double.Finite 5).
Proof.
  intros H1 H2 H3 H4 H5 Hi Hn Hlo Hhi.
  unfold Double.compute_safety_score_from_model2_output. rewrite H1, H2, H3, H4, H5.
  cbn [default py_or truthy as_findings as_numbers as_strings mbind result_bind].
  destruct (normalized_weights_sum wi wn Hi Hn Hlo Hhi) as (a & b & Ew & Ha & Hb & Hab).
  unfold Double.compute_safety_score.
  cbn [Double._compute_ingredient_score mbind result_bind].
  change (Double.nutrition_score None (Some []) (Some []))
    with (Ok (Double.Finite 5) : result Double.double).
  cbn [mbind result_bind]. rewrite Ew. cbn [mbind result_bind].
  f_equal. apply combine_5; assumption.
Qed.

Lemma ordinary_weights_1 :
  ((0 <= 6 # 10) /\ (0 <= 4 # 10)
   /\ (2 ^ (-1000) <= (6 # 10) + (4 # 10)) /\ ((6 # 10) + (4 # 10) <= 2 ^ 1000))%Q.
Proof. repeat split; apply Qle_bool_iff; vm_compute; reflexivity. Qed.

(** The float of [k] hundredths is within [2 / 10 ^ 15] of them. *)
Lemma hundredth_value (k : Z) :
  (0 <= k <= 1000)%Z ->
  exists c, Double.nearest (inject_Z k / 100) = Double.Finite c
    /\ (0 <= c)%Q
    /\ (c - inject_Z k / 100 <= 2 # 1000000000000000)%Q
    /\ (inject_Z k / 100 - c <= 2 # 1000000000000000)%Q.
Proof.
  intros [H0 H1]. rewrite Zle_Qle in H0, H1.
  change (inject_Z 0) with 0%Q in H0. change (inject_Z 1000) with 1000%Q in H1.
  assert (Hx0 : (0 <= inject_Z k / 100)%Q) by (rewrite Qdiv_100; lra).
  assert (Hx1 : (inject_Z k / 100 <= 10)%Q) by (rewrite Qdiv_100; lra).
  generalize dependent (inject_Z k / 100)%Q. intros x Hx0 Hx1.
  destruct (ordinary_bound x) as (c & Ec & Hc0 & Hc1 & Hc2); [lra | lra |].
  exists c. split; [exact Ec|]. split; [exact Hc0|]. split; lra.
Qed.

(** A number between two integers, up to less than a half, rounds between
    them. *)
Lemma round_half_even_between (a b : Z) (y : Q) :
  (inject_Z a - (1 # 2) < y)%Q -> (y < inject_Z b + (1 # 2))%Q ->
  (a <= round_half_even y <= b)%Z.
Proof.
  intros H1 H2. pose proof (round_half_even_close y) as [H3 H4].
  assert (Ha : (inject_Z (round_half_even y) < inject_Z (b + 1))%Q).
  { rewrite inject_Z_plus. change (inject_Z 1) with 1%Q.
    generalize dependent (inject_Z (round_half_even y)).
    generalize dependent (inject_Z a). generalize dependent (inject_Z b). intros; lra. }
  assert (Hb : (inject_Z a < inject_Z (round_half_even y + 1))%Q).
  { rewrite inject_Z_plus. change (inject_Z 1) with 1%Q.
    generalize dependent (inject_Z (round_half_even y)).
    generalize dependent (inject_Z a). generalize dependent (inject_Z b). intros; lra. }
  rewrite <- Zlt_Qlt in Ha, Hb. lia.
Qed.

(** The ingredient sub-score is a number of hundredths from 0 to 10. *)
Lemma double_ingredient_score_hundredth (ia : list finding) :
  exists k, (0 <= k <= 1000)%Z
    /\ Double._compute_ingredient_score ia = Ok (Double.nearest (inject_Z k / 100)).
Proof.
  destruct ia as [|x l].
  - exists 500%Z. split; [lia | reflexivity].
  - unfold Double._compute_ingredient_score.
    rewrite fold_left_weights, Z.add_0_l.
    pose proof (sum_weights_range (x :: l)) as Hr.
    set (raw := Spec.sum_Z (map status_weight (x :: l))) in *.
    set (n := Z.of_nat (length (x :: l))) in *.
    assert (Hn : (0 < n)%Z) by (unfold n; simpl length; lia).
    destruct (int_truediv_part (raw + n) (2 * n)) as (c & Ec & En & Hc0 & Hc1 & Hc2);
      [lia | lia |].
    rewrite Ec. cbn [mbind result_bind Double.mul].
    assert (Hx1 : (inject_Z (raw + n) / inject_Z (2 * n) <= 1)%Q).
    { apply Qle_shift_div_r.
      - change 0%Q with (inject_Z 0). rewrite <- Zlt_Qlt. lia.
      - rewrite Qmult_1_l. rewrite <- Zle_Qle. lia. }
    generalize dependent (inject_Z (raw + n) / inject_Z (2 * n))%Q. intros e _ Hc1 Hc2 He.
    pose proof half_least_tiny as Hh. pose proof half_least_pos as Hh0.
    unfold unit_roundoff in *.
    destruct (ordinary_bound (c * 10)) as (p & Ep & Hp0 & Hp1 & Hp2); [lra | lra |].
    rewrite Ep. cbn [Double.round2]. unfold round2.
    exists (round_half_even (p * 100)). split; [|reflexivity].
    apply round_half_even_between.
    + change (inject_Z 0) with 0%Q. lra.
    + change (inject_Z 1000) with 1000%Q. lra.
Qed.

Lemma clamp_cases (f : Q) :
  exists g, Double.py_max (Double.Finite 0) (Double.py_min (Double.Finite 10) (Double.Finite f))
            = Double.Finite g
    /\ (0 <= g <= 10)%Q
    /\ ((f < 0 /\ g == 0) \/ (10 <= f /\ g == 10) \/ (0 <= f < 10 /\ g == f))%Q.
Proof.
  unfold Double.py_min, Double.py_max. cbn [Double.ltb].
  destruct (Qltb f 10) eqn:E1.
  - cbn [Double.ltb]. apply Qltb_lt in E1. destruct (Qltb 0 f) eqn:E2.
    + apply Qltb_lt in E2. exists f. split; [reflexivity|]. split; [lra|].
      right. right. split; [lra | reflexivity].
    + apply Qltb_ge in E2. exists 0%Q. split; [reflexivity|]. split; [lra|].
      destruct (Qlt_le_dec f 0) as [Hf|Hf].
      * left. split; [exact Hf | reflexivity].
      * right. right. split; [lra | lra].
  - apply Qltb_ge in E1. cbn. exists 10%Q. split; [reflexivity|]. split; [lra|].
    right. left. split; [exact E1 | reflexivity].
Qed.

(** The floats of the hundredths are in the order of the hundredths. *)
Lemma hundredth_mono (j k : Z) (cj ck : Q) :
  (0 <= j <= k)%Z -> (k <= 1000)%Z ->
  Double.nearest (inject_Z j / 100) = Double.Finite cj ->
  Double.nearest (inject_Z k / 100) = Double.Finite ck ->
  (cj <= ck)%Q.
Proof.
  intros Hj Hk Ej Ek.
  destruct (Z.eq_dec j k) as [->|Hne].
  - rewrite Ej in Ek. injection Ek as <-. apply Qle_refl.
  - destruct (hundredth_value j) as (c & Ec & _ & Hc1 & _); [lia|].
    rewrite Ej in Ec. injection Ec as <-.
    destruct (hundredth_value k) as (c & Ec & _ & _ & Hc2); [lia|].
    rewrite Ek in Ec. injection Ec as <-.
    assert (H : (inject_Z j + 1 <= inject_Z k)%Q).
    { change 1%Q with (inject_Z 1). rewrite <- inject_Z_plus, <- Zle_Qle. lia. }
    rewrite Qdiv_100 in Hc1, Hc2.
    generalize dependent (inject_Z j). generalize dependent (inject_Z k).
    intros; lra.
Qed.

(** The weighted sum of two scores, before it is rounded. *)
Lemma weighted_sum_between (cs cn a b lo hi : Q) :
  (0 <= lo)%Q -> (hi <= 11)%Q ->
  (lo <= cs <= hi)%Q -> (lo <= cn <= hi)%Q ->
  (0 <= a)%Q -> (0 <= b)%Q -> (Qabs (a + b - 1) <= 1 # 1000000000000000)%Q ->
  exists f, Double.add (Double.mul (Double.Finite cs) (Double.Finite a))
                       (Double.mul (Double.Finite cn) (Double.Finite b))
            = Double.Finite f
    /\ (lo - (1 # 10000000000000) <= f <= hi + (1 # 10000000000000))%Q.
Proof.
  intros Hlo Hhi [Hs1 Hs2] [Hn1 Hn2] Ha Hb Hab.
  assert (Hab1 : (a + b - 1 <= 1 # 1000000000000000)%Q).
  { eapply Qle_trans; [apply Qle_Qabs | exact Hab]. }
  assert (Hab2 : (- (a + b - 1) <= 1 # 1000000000000000)%Q).
  { eapply Qle_trans; [apply Qle_Qabs | rewrite Qabs_opp; exact Hab]. }
  assert (Hx1 : (lo * a <= cs * a <= hi * a)%Q).
  { split; apply Qmult_le_compat_r; lra. }
  assert (Hx2 : (lo * b <= cn * b <= hi * b)%Q).
  { split; apply Qmult_le_compat_r; lra. }
  assert (Hl : (lo * (1 - (1 # 1000000000000000)) <= lo * (a + b))%Q).
  { rewrite !(Qmult_comm lo). apply Qmult_le_compat_r; lra. }
  assert (Hh : (hi * (a + b) <= hi * (1 + (1 # 1000000000000000)))%Q).
  { rewrite !(Qmult_comm hi). apply Qmult_le_compat_r; lra. }
  assert (Hha : (hi * a <= 11 * a)%Q) by (apply Qmult_le_compat_r; lra).
  assert (Hhb : (hi * b <= 11 * b)%Q) by (apply Qmult_le_compat_r; lra).
  assert (Hla : (0 <= lo * a)%Q) by (apply Qmult_le_0_compat; lra).
  assert (Hlb : (0 <= lo * b)%Q) by (apply Qmult_le_0_compat; lra).
  rewrite Qmult_plus_distr_r in Hl, Hh.
  cbn [Double.mul].
  generalize dependent (cs * a)%Q. intros x1 Hx1.
  generalize dependent (cn * b)%Q. intros x2 Hx2.
  generalize dependent (lo * a)%Q. generalize dependent (lo * b)%Q.
  generalize dependent (hi * a)%Q. generalize dependent (hi * b)%Q.
  intros hb Hhb ha Hha Hh lb Hx2 Hlb la Hx1 Hl Hla.
  destruct (ordinary_bound x1) as (p1 & -> & Hp0 & Hp1 & Hp2); [lra | lra |].
  destruct (ordinary_bound x2) as (p2 & -> & Hq0 & Hq1 & Hq2); [lra | lra |].
  cbn [Double.add].
  destruct (ordinary_bound (p1 + p2)) as (f & -> & Hf0 & Hf1 & Hf2); [lra | lra |].
  exists f. split; [reflexivity|]. split; lra.
Qed.

(** X18: with weights that are not negative, of ordinary size, the final
    score lies between the ingredient sub-score and the nutrition
    sub-score. *)
Theorem final_score_between ia ni np nc (wi wn : Q) (s n : Double.double) :
  (0 <= wi)%Q -> (0 <= wn)%Q ->
  (2 ^ (-1000) <= wi + wn)%Q -> (wi + wn <= 2 ^ 1000)%Q ->
  Double._compute_ingredient_score ia = Ok s ->
  Double.nutrition_score ni np nc = Ok n ->
  exists vs vn vf, s = Double.Finite vs /\ n = Double.Finite vn
    /\ Double.compute_safety_score ia ni np nc wi wn = Ok (Double.Finite vf)
    /\ (Qmin vs vn <= vf <= Qmax vs vn)%Q.
Proof.
  intros Hi Hn Hlo Hhi Es En.
  destruct (double_ingredient_score_hundredth ia) as (ks & Hks & Eks).
  rewrite Es in Eks. injection Eks as ->.
  destruct (double_nutrition_score_rounded _ _ _ _ En) as (kn & Hkn & ->).
  destruct (hundredth_value ks Hks) as (vs & Evs & Hvs0 & Hvs1 & Hvs2).
  destruct (hundredth_value kn Hkn) as (vn & Evn & Hvn0 & Hvn1 & Hvn2).
  destruct (normalized_weights_sum wi wn Hi Hn Hlo Hhi) as (a & b & Ew & Ha & Hb & Hab).
  exists vs, vn.
  unfold Double.compute_safety_score. rewrite Es, En, Ew. cbn [mbind result_bind].
  rewrite Evs, Evn.
  set (klo := Z.min ks kn). set (khi := Z.max ks kn).
  assert (Hklo : (0 <= klo <= 1000)%Z) by (unfold klo; lia).
  assert (Hkhi : (0 <= khi <= 1000)%Z) by (unfold khi; lia).
  destruct (hundredth_value klo Hklo) as (vlo & Evlo & Hvlo0 & Hvlo1 & Hvlo2).
  destruct (hundredth_value khi Hkhi) as (vhi & Evhi & Hvhi0 & Hvhi1 & Hvhi2).
  assert (Hmin : (vlo <= vs /\ vlo <= vn)%Q).
  { split; [apply (hundredth_mono klo ks) | apply (hundredth_mono klo kn)];
      unfold klo; try assumption; lia. }
  assert (Hmax : (vs <= vhi /\ vn <= vhi)%Q).
  { split; [apply (hundredth_mono ks khi) | apply (hundredth_mono kn khi)];
      unfold khi; try assumption; lia. }
  assert (Hlo_min : (vlo == Qmin vs vn)%Q).
  { unfold klo in Evlo. destruct (Z.min_spec ks kn) as [[_ E]|[_ E]]; rewrite E in Evlo.
    - rewrite Evs in Evlo. injection Evlo as <-. symmetry. apply Q.min_l. tauto.
    - rewrite Evn in Evlo. injection Evlo as <-. symmetry. apply Q.min_r. tauto. }
  assert (Hhi_max : (vhi == Qmax vs vn)%Q).
  { unfold khi in Evhi. destruct (Z.max_spec ks kn) as [[_ E]|[_ E]]; rewrite E in Evhi.
    - rewrite Evn in Evhi. injection Evhi as <-. symmetry. apply Q.max_r. tauto.
    - rewrite Evs in Evhi. injection Evhi as <-. symmetry. apply Q.max_l. tauto. }
  assert (Hhi10 : (inject_Z khi <= 1000)%Q).
  { change 1000%Q with (inject_Z 1000). rewrite <- Zle_Qle. lia. }
  assert (Hlo0 : (0 <= inject_Z klo)%Q).
  { change 0%Q with (inject_Z 0). rewrite <- Zle_Qle. lia. }
  rewrite Qdiv_100 in Hvlo1, Hvlo2, Hvhi1, Hvhi2.
  destruct (weighted_sum_between vs vn a b vlo vhi) as (f & -> & Hf1 & Hf2);
    try assumption; try tauto.
  { generalize dependent (inject_Z khi). intros; lra. }
  destruct (clamp_cases f) as (g & -> & Hg & Hcases).
  cbn [Double.round2]. unfold round2.
  assert (Hj : (klo <= round_half_even (g * 100) <= khi)%Z).
  { apply round_half_even_between.
    - generalize dependent (inject_Z klo). generalize dependent (inject_Z khi).
      intros. destruct Hcases as [[? ?]|[[? ?]|[? ?]]]; lra.
    - generalize dependent (inject_Z klo). generalize dependent (inject_Z khi).
      intros. destruct Hcases as [[? ?]|[[? ?]|[? ?]]]; lra. }
  set (j := round_half_even (g * 100)) in *.
  destruct (hundredth_value j) as (vf & Evf & _); [lia|].
  exists vf. rewrite Evf. split; [reflexivity|]. split; [reflexivity|]. split; [reflexivity|].
  rewrite <- Hlo_min, <- Hhi_max. split.
  - apply (hundredth_mono klo j); try assumption; lia.
  - apply (hundredth_mono j khi); try assumption; lia.
Qed.

(** ** Runs in binary64 arithmetic *)

Lemma ordinary_weights_2 :
  ((0 <= 7 # 10) /\ (0 <= 3 # 10)
   /\ (2 ^ (-1000) <= (7 # 10) + (3 # 10)) /\ ((7 # 10) + (3 # 10) <= 2 ^ 1000))%Q.
Proof. repeat split; apply Qle_bool_iff; vm_compute; reflexivity. Qed.


Lemma weights_normalized_witness :
  Double.compute_safety_score Sample.mostly_unsafe None (Some ["a"]) None 0 1
  = Ok (Double.nearest (55 # 10))
  /\ (exists a b, Double.normalized_weights (6 # 10) (4 # 10)
                  = Ok (Double.Finite a, Double.Finite b)
        /\ (Qabs (a + b - 1) <= 1 # 1000000000000000)%Q)
  /\ Double.compute_safety_score Sample.mostly_unsafe None (Some ["a"]) None
       (6 # 10) (4 # 10)
     = Ok (Double.nearest (34 # 10)).
Proof.
  destruct (weights_normalized Sample.mostly_unsafe None (Some ["a"]) None)
    as (H01 & _ & Hpin & Hsum).
  split; [rewrite H01; vm_compute; reflexivity|].
  split.
  - destruct ordinary_weights_1 as (H1 & H2 & H3 & H4).
    destruct (Hsum (6 # 10) (4 # 10) H1 H2 H3 H4) as (a & b & E & _ & _ & Hab).
    exists a, b. split; [exact E | exact Hab].
  - destruct (Hpin (6 # 10) (4 # 10) (Double.nearest (6 # 10)) (Double.nearest (4 # 10)))
      as (a & b & Ea & Eb & _ & Hf).
    + vm_compute. reflexivity.
    + vm_compute. reflexivity.
    + rewrite (Hf (Double.nearest 2) (Double.nearest (55 # 10)));
        [| vm_compute; reflexivity | vm_compute; reflexivity].
      vm_compute in Ea. vm_compute in Eb.
      injection Ea as <-. injection Eb as <-.
      vm_compute. reflexivity.
Defined.

Lemma final_score_between_witness :
  exists vs vn vf,
    Double.nearest 2 = Double.Finite vs
    /\ Double.nearest (55 # 10) = Double.Finite vn
    /\ Double.compute_safety_score Sample.mostly_unsafe None (Some ["a"]) None
         (7 # 10) (3 # 10) = Ok (Double.Finite vf)
    /\ (Qmin vs vn <= vf <= Qmax vs vn)%Q.
Proof.
  destruct ordinary_weights_2 as (H1 & H2 & H3 & H4).
  apply (final_score_between Sample.mostly_unsafe None (Some ["a"]) None
           (7 # 10) (3 # 10) _ _ H1 H2 H3 H4).
  - vm_compute. reflexivity.
  - vm_compute. reflexivity.
Defined.

Lemma score_without_keys_witness :
  Double.compute_safety_score_from_model2_output Sample2.named_only (6 # 10) (4 # 10)
  = Ok (Double.Finite 5).
Proof.
  destruct ordinary_weights_1 as (H1 & H2 & H3 & H4).
  apply score_without_keys; try reflexivity; assumption.
Defined.

(** With 199 unsafe findings and one of caution the quotient is the float
    of 0.0025, its product with 10 lies above 0.025 and is rounded to 0.03;
    with 197 and three the product lies below 0.075 and is rounded to 0.07.
    On exact rationals both are ties, and are rounded to 0.02 and 0.08. *)
Example unsafe_199_score :
  Double._compute_ingredient_score Sample2.unsafe_199 = Ok (Double.nearest (3 # 100))
  /\ Double._compute_ingredient_score Sample2.unsafe_197 = Ok (Double.nearest (7 # 100))
  /\ _compute_ingredient_score Sample2.unsafe_199 = Ok (2 # 100)
  /\ _compute_ingredient_score Sample2.unsafe_197 = Ok (8 # 100).
Proof. repeat split; vm_compute; reflexivity. Qed.

(** Weights out of the ordinary: the sum of two weights of [10 ^ 308] is
    infinite, both quotients are 0 and so is the score; two weights that
    nearly cancel are normalised to 9007199254740992 and -9007199254740991,
    and two sub-scores of 5 combine to 4. *)
Example extreme_weights :
  Double.compute_safety_score [] None None None (10 ^ 308) (10 ^ 308)
  = Ok (Double.Finite 0)
  /\ Double.compute_safety_score [] None None None
       (1 # 10) (- (9999999999999999 # 100000000000000000))
     = Ok (Double.Finite 4).
Proof. split; vm_compute; reflexivity. Qed.

(** * Further properties of the code *)

(** ** Normalisation *)

Lemma lower_char_fixed (c : ascii) :
  is_alnum_lower c || is_space c = true -> lower_char c = c.
Proof. destruct c as [[] [] [] [] [] [] [] []]; vm_compute; congruence. Qed.

Lemma lower_char_idem (c : ascii) : lower_char (lower_char c) = lower_char c.
Proof. destruct c as [[] [] [] [] [] [] [] []]; reflexivity. Qed.

Lemma lower_idem (s : string) : lower (lower s) = lower s.
Proof.
  unfold lower. induction s as [|c s IH]; [reflexivity|].
  simpl. now rewrite lower_char_idem, IH.
Qed.

Lemma str_map_fixed (f : ascii -> ascii) (p : ascii -> bool) (s : string) :
  (forall c, p c = true -> f c = c) -> str_forall p s = true -> str_map f s = s.
Proof.
  intros Hf. induction s as [|c s IH]; [reflexivity|]. simpl.
  intros H. apply andb_true_iff in H as [Hc Hs]. now rewrite (Hf c Hc), IH.
Qed.

Lemma str_forall_app (p : ascii -> bool) (a b : string) :
  str_forall p (a +:+ b) = str_forall p a && str_forall p b.
Proof.
  induction a as [|c a IH]; [reflexivity|].
  rewrite append_cons. simpl. now rewrite IH, andb_assoc.
Qed.

Lemma str_forall_impl (p q : ascii -> bool) (s : string) :
  (forall c, p c = true -> q c = true) -> str_forall p s = true -> str_forall q s = true.
Proof.
  intros Hpq. induction s as [|c s IH]; [reflexivity|]. simpl.
  intros H. apply andb_true_iff in H as [Hc Hs]. now rewrite (Hpq c Hc), IH.
Qed.

(** The characters of a normalised text: [a-z0-9] and the space. *)
Lemma concat_words_chars (ws : list string) :
  Forall (fun w => w <> "" /\ str_forall is_alnum_lower w = true) ws ->
  str_forall (fun c => is_alnum_lower c || is_space c) (String.concat " " ws) = true.
Proof.
  assert (Hw : forall w, str_forall is_alnum_lower w = true ->
                 str_forall (fun c => is_alnum_lower c || is_space c) w = true).
  { intros w. apply str_forall_impl. intros c ->. reflexivity. }
  induction 1 as [|x xs [_ Hx] Hxs IH]; [reflexivity|].
  destruct xs as [|y ys]; [now apply Hw|].
  rewrite concat_cons by discriminate.
  rewrite !str_forall_app, (Hw x Hx), IH. reflexivity.
Qed.

(** X1: normalising twice is normalising once. *)
Theorem clean_text_idempotent (text : string) :
  clean_text (clean_text text) = clean_text text.
Proof.
  assert (Hc : forall t,
    clean_text t
    = String.concat " " (fields_aux (fun c => negb (is_alnum_lower c)) "" (lower t))).
  { intros t. unfold clean_text. now rewrite strip_runs_fields, fields_sub_non_alnum. }
  rewrite (Hc (clean_text text)), (Hc text).
  set (ws := fields_aux _ "" (lower text)).
  assert (Hws : Forall (fun w => w <> "" /\ str_forall is_alnum_lower w = true) ws)
    by (apply fields_aux_words; reflexivity).
  pose proof (concat_words_chars ws Hws) as Hch.
  assert (Hl : lower (String.concat " " ws) = String.concat " " ws).
  { unfold lower. eapply str_map_fixed; [|exact Hch]. apply lower_char_fixed. }
  rewrite Hl. f_equal.
  rewrite <- fields_sub_non_alnum.
  assert (Hs : sub_non_alnum (String.concat " " ws) = String.concat " " ws).
  { unfold sub_non_alnum. eapply str_map_fixed; [|exact Hch].
    intros c Hc'. simpl. now rewrite Hc'. }
  rewrite Hs. now apply split_concat_words.
Qed.

Lemma clean_text_ignores_case (text : string) :
  clean_text (lower text) = clean_text text.
Proof. unfold clean_text. now rewrite lower_idem. Qed.

(** ** More on the matcher *)

Section MatcherEdges.

Variable ratio : string -> string -> Q.

(** X2: two spellings with the same normal form (case, punctuation,
    spacing) are resolved alike: to the same catalog name, or each to
    itself when the catalog has no match. *)
Theorem match_ingredient_spelling (x x' : string) (catalog : list string)
    (threshold : Q) :
  clean_text x = clean_text x' ->
  match_ingredient ratio x catalog threshold = match_ingredient ratio x' catalog threshold
  \/ (match_ingredient ratio x catalog threshold = Some x
      /\ match_ingredient ratio x' catalog threshold = Some x').
Proof.
  intros H. unfold match_ingredient. rewrite H.
  destruct (fold_left _ catalog _) as [h b].
  destruct (Qgeb h threshold); [now left|].
  destruct (first_overlap _ catalog); [now left | now right].
Qed.

(** X3: Python's [None] comes out exactly when the threshold is not
    positive and no catalog name has a positive score (so always for an
    empty catalog and such a threshold). *)
Theorem match_ingredient_none (ing : string) (catalog : list string) (threshold : Q) :
  match_ingredient ratio ing catalog threshold = None
  <-> threshold <= 0 /\ forall x, x ∈ catalog -> Spec.similarity ratio ing x <= 0.
Proof.
  unfold match_ingredient.
  destruct (best_fold ratio ing catalog 0 None)
    as [[-> Hall]|(ref & -> & Hpos & Hmax)].
  - destruct (Qgeb 0 threshold) eqn:E.
    + apply Qgeb_ge in E. tauto.
    + apply Qgeb_lt in E. split.
      * destruct (first_overlap _ catalog); discriminate.
      * intros [Hth _]. lra.
  - split.
    + destruct (Qgeb _ threshold); [discriminate|].
      destruct (first_overlap _ catalog); discriminate.
    + intros [_ Hall]. exfalso.
      destruct Hmax as (l1 & l2 & -> & _).
      assert (Hin : ref ∈ (l1 ++ ref :: l2)%list).
      { apply elem_of_app. right. apply elem_of_cons. now left. }
      specialize (Hall ref Hin). lra.
Qed.

(** X4: with a positive threshold the matcher returns a name of the
    catalog or the ingredient it was given, never anything else. *)
Theorem match_ingredient_member (ing : string) (catalog : list string) (threshold : Q) :
  0 < threshold ->
  exists y, match_ingredient ratio ing catalog threshold = Some y
            /\ (y ∈ catalog \/ y = ing).
Proof.
  intros Hth.
  destruct (match_ingredient_cases ratio ing catalog threshold Hth)
    as [(r & H & (l1 & l2 & -> & _) & _)
       | [(_ & r & H & (l1 & l2 & -> & _)) | (_ & _ & H)]].
  - exists r. split; [exact H|]. left. apply elem_of_app. right. apply elem_of_cons. now left.
  - exists r. split; [exact H|]. left. apply elem_of_app. right. apply elem_of_cons. now left.
  - exists ing. split; [exact H|]. now right.
Qed.

Hypothesis ratio_refl : forall a, ratio a a == 100.
Hypothesis ratio_le : forall a b, ratio a b <= 100.
Hypothesis ratio_full : forall a b, ratio a b == 100 -> a = b.

(** X5: an ingredient whose normal form is that of a catalog name is
    resolved to the first catalog name with that normal form. *)
Theorem match_ingredient_exact (x c : string) (catalog : list string) (threshold : Q) :
  0 < threshold -> threshold <= 100 ->
  c ∈ catalog -> clean_text x = clean_text c ->
  exists y l1 l2,
    match_ingredient ratio x catalog threshold = Some y
    /\ catalog = (l1 ++ y :: l2)%list
    /\ clean_text y = clean_text x
    /\ forall z, z ∈ l1 -> clean_text z <> clean_text x.
Proof.
  intros Hth Hth' Hc Hx.
  assert (Hsc : Spec.similarity ratio x c == 100).
  { unfold Spec.similarity. rewrite Hx. apply ratio_refl. }
  destruct (match_ingredient_cases ratio x catalog threshold Hth)
    as [(r & Hm & Hmax & Hge) | [(Hlow & _) | (Hlow & _)]].
  2, 3: specialize (Hlow c Hc); lra.
  pose proof (first_maximum_bound ratio x catalog r Hmax c Hc) as Hb.
  pose proof (ratio_le (clean_text x) (clean_text r)) as Hle.
  assert (Hr : Spec.similarity ratio x r == 100).
  { unfold Spec.similarity in *. lra. }
  destruct Hmax as (l1 & l2 & Hcat & H1 & _).
  exists r, l1, l2. split; [exact Hm|]. split; [exact Hcat|].
  split; [symmetry; now apply ratio_full|].
  intros z Hz Hzx. specialize (H1 z Hz).
  unfold Spec.similarity in H1, Hr. rewrite Hzx in H1.
  pose proof (ratio_refl (clean_text x)). lra.
Qed.

End MatcherEdges.

(** ** More on the classifier *)

Lemma classify_keys (df : list safety_row) (y : string) :
  dom (classify df y) = ({[ "name"; "status"; "reason" ]} : gset string)
  /\ classify df y !! "name" = Some y.
Proof.
  unfold classify. destruct (safety_rows df y) as [|row rows].
  - split; [rewrite !dom_insert_L, dom_singleton_L; set_solver | reflexivity].
  - split; [rewrite !dom_insert_L, dom_singleton_L; set_solver | reflexivity].
Qed.

Lemma sorted_constant {A} (key : A -> nat) (k : nat) (l : list A) :
  Forall (fun x => key x = k) l -> sorted key l = l.
Proof.
  induction 1 as [|x l Hx Hl IH]; [reflexivity|].
  simpl. rewrite IH. destruct Hl as [|y l Hy Hl]; [reflexivity|].
  simpl. rewrite Hx, Hy, Nat.leb_refl. reflexivity.
Qed.

Lemma filter_first {A} (P : A -> Prop) `{!forall x, Decision (P x)} (l : list A) :
  match filter P l with
  | [] => Forall (fun x => ~ P x) l
  | x :: _ => exists l1 l2, l = (l1 ++ x :: l2)%list /\ P x /\ Forall (fun z => ~ P z) l1
  end.
Proof.
  induction l as [|a l IH]; [constructor|].
  rewrite filter_cons. destruct (decide (P a)) as [Ha|Ha].
  - exists [], l. split; [reflexivity|]. split; [exact Ha | constructor].
  - destruct (filter P l) as [|x rest].
    + now constructor.
    + destruct IH as (l1 & l2 & -> & Hx & Hl1).
      exists (a :: l1), l2. split; [reflexivity|]. split; [exact Hx | now constructor].
Qed.

Section ClassifierFacts.

Variable ratio : string -> string -> Q.

(** X6: [detect_ingredients] never fails and returns one finding for each
    ingredient given; every finding has the keys [name], [status] and
    [reason] and no other, and its name is a catalog name or one of the
    ingredients given. *)
Theorem detect_ingredients_shape (inputs : list string) (df : list safety_row)
    (names : list string) :
  exists ia,
    detect_ingredients ratio inputs df names = Ok ia
    /\ length ia = length inputs
    /\ Forall (fun f : finding =>
         dom f = ({[ "name"; "status"; "reason" ]} : gset string)
         /\ exists y, f !! "name" = Some y /\ (y ∈ names \/ y ∈ inputs)) ia.
Proof.
  eexists. split; [apply detect_ingredients_ok|].
  pose proof (sorted_perm severity (map (Spec.finding_of ratio df names) inputs)) as Hp.
  split; [rewrite (Permutation_length Hp); apply length_map|].
  rewrite Hp. apply Forall_map, Forall_forall. intros i Hi. simpl.
  unfold Spec.finding_of.
  destruct (classify_keys df (Spec.resolve ratio names i)) as [Hd Hn].
  split; [exact Hd|]. eexists. split; [exact Hn|].
  unfold Spec.resolve.
  destruct (match_ingredient_member ratio i names 80) as (y & -> & [Hy | ->]);
    [lra | now left | now right].
Qed.

(** X7: with an empty catalog every ingredient is a finding of status
    [unknown] under its own name, in the order given, and the ingredient
    sub-score of such a result is 5. *)
Theorem detect_ingredients_empty_catalog (inputs : list string) :
  let unknown (ingr : string) : finding :=
    {[ "name" := ingr; "status" := "unknown"; "reason" := "No information available" ]} in
  detect_ingredients ratio inputs [] [] = Ok (map unknown inputs)
  /\ exists s, _compute_ingredient_score (map unknown inputs) = Ok s /\ s == 5.
Proof.
  intros unknown. split.
  - rewrite detect_ingredients_ok. f_equal.
    assert (Hf : forall i, Spec.finding_of ratio [] [] i = unknown i) by reflexivity.
    rewrite (map_ext _ _ Hf).
    apply (sorted_constant severity 3). apply Forall_map, Forall_forall.
    intros i _. reflexivity.
  - destruct inputs as [|i inputs]; [exists 5; split; [reflexivity | lra]|].
    cbn [map]. rewrite ingredient_score_cons. eexists. split; [reflexivity|].
    assert (Hs : forall l, Spec.sum_Z (map status_weight (map unknown l)) = 0%Z).
    { induction l as [|a l IH]; [reflexivity|]. simpl. rewrite IH. reflexivity. }
    change (unknown i :: map unknown inputs) with (map unknown (i :: inputs)).
    rewrite Hs, Z.add_0_l, length_map.
    assert (Hl : (0 < Z.of_nat (length (i :: inputs)))%Z) by (simpl length; lia).
    rewrite (round2_comp _ 5); [reflexivity|].
    rewrite inject_Z_mult. change (inject_Z 2) with 2.
    rewrite Zlt_Qlt in Hl. change (inject_Z 0) with 0 in Hl.
    field. lra.
Qed.

(** X8: when the list of names is the one [load_data] derives from the data
    frame, an ingredient resolved to a catalog name gets the status and the
    reason of the first row whose lower-cased name is that name
    lower-cased; such a row exists, so the default [unknown] is not used. *)
Theorem finding_of_catalog_name (df : list safety_row) (ingr : string) :
  let names := ingredients_list_of df in
  let y := Spec.resolve ratio names ingr in
  y ∈ names ->
  exists l1 row l2,
    df = (l1 ++ row :: l2)%list
    /\ lower (ingredient_name row) = lower y
    /\ Forall (fun r => lower (ingredient_name r) <> lower y) l1
    /\ Spec.finding_of ratio df names ingr
       = {[ "name" := y; "status" := safety_status row;
            "reason" := reason_for_unsafety row ]}.
Proof.
  intros names y Hy. unfold Spec.finding_of. fold names. fold y.
  unfold classify, safety_rows.
  pose proof (filter_first (fun row => lower (ingredient_name row) = lower y) df) as Hf.
  destruct (filter _ df) as [|row rows].
  - exfalso. unfold names, ingredients_list_of in Hy.
    apply list_elem_of_fmap in Hy as (r & -> & Hr).
    rewrite Forall_forall in Hf. now apply (Hf r Hr).
  - destruct Hf as (l1 & l2 & -> & Hrow & Hl1).
    exists l1, row, l2. auto.
Qed.

End ClassifierFacts.

(** ** More on the nutrient evaluator *)

Lemma evaluate_loop_step (nutrition_input : gmap string nutrient_value)
    (row : nutrition_row) (rest : list nutrition_row) (pros cons : list string) :
  match nutrition_input !! nutrient row with
  | None | Some VNull =>
      evaluate_loop nutrition_input (row :: rest) pros cons
      = evaluate_loop nutrition_input rest pros cons
  | Some (VNum v) =>
      exists p c, (length p + length c = 1)%nat
        /\ evaluate_loop nutrition_input (row :: rest) pros cons
           = evaluate_loop nutrition_input rest (pros ++ p)%list (cons ++ c)%list
  | Some (VStr s) =>
      match float_of_text s with
      | Ok v =>
          exists p c, (length p + length c = 1)%nat
            /\ evaluate_loop nutrition_input (row :: rest) pros cons
               = evaluate_loop nutrition_input rest (pros ++ p)%list (cons ++ c)%list
      | Raise e => evaluate_loop nutrition_input (row :: rest) pros cons = Raise e
      end
  end.
Proof.
  assert (Hnum : forall v : Q,
    exists p c, (length p + length c = 1)%nat
      /\ (if Qltb v (low_threshold row)
          then evaluate_loop nutrition_input rest pros
                 (cons ++ ["Low " +:+ nutrient row +:+ " (" +:+ note row +:+ ")"])
          else if Qgtb v (high_threshold row)
          then evaluate_loop nutrition_input rest pros
                 (cons ++ ["High " +:+ nutrient row +:+ " (" +:+ note row +:+ ")"])
          else evaluate_loop nutrition_input rest
                 (pros ++ ["Balanced " +:+ nutrient row]) cons)
         = evaluate_loop nutrition_input rest (pros ++ p)%list (cons ++ c)%list).
  { intros v. destruct (Qltb v (low_threshold row)).
    - eexists [], [_]. rewrite app_nil_r. split; reflexivity.
    - destruct (Qgtb v (high_threshold row)).
      + eexists [], [_]. rewrite app_nil_r. split; reflexivity.
      + eexists [_], []. rewrite app_nil_r. split; reflexivity. }
  cbn [evaluate_loop].
  destruct (nutrition_input !! nutrient row) as [[|v|s]|]; try reflexivity.
  - apply Hnum.
  - destruct (float_of_text s) as [v|e]; [apply Hnum | reflexivity].
Qed.

Lemma evaluate_loop_count (nutrition_input : gmap string nutrient_value)
    (rows : list nutrition_row) :
  forall pros cons pros' cons',
    evaluate_loop nutrition_input rows pros cons = Ok (pros', cons') ->
    (length pros' + length cons'
     = length pros + length cons
       + length (filter (fun row => supplied nutrition_input row = true) rows))%nat.
Proof.
  induction rows as [|row rest IH]; intros pros cons pros' cons' H.
  - simpl in H. injection H as <- <-. simpl. lia.
  - pose proof (evaluate_loop_step nutrition_input row rest pros cons) as Hstep.
    rewrite filter_cons.
    destruct (nutrition_input !! nutrient row) as [[|v|s]|] eqn:E;
      destruct (decide (supplied nutrition_input row = true)) as [Hs|Hs];
      unfold supplied in Hs; rewrite E in Hs; try congruence.
    + rewrite Hstep in H. now apply IH.
    + destruct Hstep as (p & c & Hpc & Hstep). rewrite Hstep in H.
      apply IH in H. rewrite !length_app in H. simpl. lia.
    + destruct (float_of_text s) as [v|e]; [|congruence].
      destruct Hstep as (p & c & Hpc & Hstep). rewrite Hstep in H.
      apply IH in H. rewrite !length_app in H. simpl. lia.
    + rewrite Hstep in H. now apply IH.
Qed.

Lemma evaluate_loop_readable (nutrition_input : gmap string nutrient_value)
    (rows : list nutrition_row) :
  forall pros cons,
    (exists r, evaluate_loop nutrition_input rows pros cons = Ok r)
    <-> Forall (Spec.readable nutrition_input) rows.
Proof.
  induction rows as [|row rest IH]; intros pros cons.
  - split; [constructor | intros _; now eexists].
  - pose proof (evaluate_loop_step nutrition_input row rest pros cons) as Hstep.
    rewrite Forall_cons. unfold Spec.readable at 1.
    destruct (nutrition_input !! nutrient row) as [[|v|s]|] eqn:E.
    + rewrite Hstep, IH. split; [|tauto]. intros H. split; [|exact H]. discriminate.
    + destruct Hstep as (p & c & _ & ->). rewrite IH.
      split; [|tauto]. intros H. split; [|exact H]. discriminate.
    + destruct (float_of_text s) as [v|e] eqn:Es.
      * destruct Hstep as (p & c & _ & ->). rewrite IH.
        split; [|tauto]. intros H. split; [|exact H].
        intros s' [= <-]. rewrite Es. now eexists.
      * rewrite Hstep. split; [intros [r Hr]; discriminate|].
        intros [H _]. destruct (H s eq_refl) as [v Hv]. congruence.
    + rewrite Hstep, IH. split; [|tauto]. intros H. split; [|exact H]. discriminate.
Qed.

(** X9: the evaluation succeeds exactly when every text supplied for a
    nutrient of the threshold table holds a number that can be read; the
    order of the thresholds plays no part in this. *)
Theorem evaluate_nutrition_succeeds (nutrition_input : gmap string nutrient_value)
    (nutrition_df : list nutrition_row) :
  (exists r, evaluate_nutrition nutrition_input nutrition_df = Ok r)
  <-> Forall (Spec.readable nutrition_input) nutrition_df.
Proof. apply evaluate_loop_readable. Qed.

(** X10: every entry given a value yields one finding and the others
    none: the pros and the cons together are as many as the entries of the
    table whose nutrient is supplied with a number or a text; without any
    value there are no findings. *)
Theorem evaluate_nutrition_count (nutrition_input : gmap string nutrient_value)
    (nutrition_df : list nutrition_row) (pros cons : list string) :
  evaluate_nutrition nutrition_input nutrition_df = Ok (pros, cons) ->
  (length pros + length cons
   = length (filter (fun row => supplied nutrition_input row = true) nutrition_df))%nat
  /\ evaluate_nutrition ∅ nutrition_df = Ok ([], []).
Proof.
  intros H. split.
  - apply evaluate_loop_count in H. simpl in H. exact H.
  - clear H. unfold evaluate_nutrition.
    induction nutrition_df as [|row rest IH]; [reflexivity|].
    cbn [evaluate_loop]. rewrite lookup_empty. exact IH.
Qed.

(** ** Reading a number in a text *)

Lemma digits_value_nonneg (s : string) (acc : Z) :
  (0 <= acc)%Z -> (0 <= digits_value acc s)%Z.
Proof.
  revert acc. induction s as [|c s IH]; intros acc Hacc; simpl; [exact Hacc|].
  destruct (is_digit c); apply IH; lia.
Qed.

Lemma float_of_run_nonneg (run : string) (v : Q) :
  float_of_run run = Ok v -> 0 <= v.
Proof.
  unfold float_of_run. destruct (_ || _); [discriminate|]. intros [= <-].
  apply Qle_shift_div_l.
  - change 0 with (inject_Z 0). rewrite <- Zlt_Qlt. apply Z.pow_pos_nonneg; lia.
  - rewrite Qmult_0_l. change 0 with (inject_Z 0). rewrite <- Zle_Qle.
    now apply digits_value_nonneg.
Qed.

Lemma fields_aux_skip (sep : ascii -> bool) (pre t : string) :
  str_forall sep pre = true ->
  fields_aux sep "" (pre +:+ t) = fields_aux sep "" t.
Proof.
  induction pre as [|c pre IH]; [reflexivity|]. cbn [str_forall].
  intros H. apply andb_true_iff in H as [Hc Hp].
  rewrite append_cons. cbn [fields_aux is_empty]. now rewrite Hc, IH.
Qed.

Lemma fields_aux_run (sep : ascii -> bool) (run w t : string) :
  str_forall (fun c => negb (sep c)) run = true ->
  fields_aux sep w (run +:+ t) = fields_aux sep (w +:+ run) t.
Proof.
  revert w. induction run as [|c run IH]; intros w H.
  - now rewrite append_nil_l, append_nil_r.
  - simpl in H. apply andb_true_iff in H as [Hc Hr].
    apply negb_true_iff in Hc.
    rewrite append_cons. cbn [fields_aux].
    rewrite Hc, IH by exact Hr. now rewrite append_snoc_cons.
Qed.

(** X11: a number read in a text is never negative: a minus sign before
    it is not read, the text with the sign gives the same number. *)
Theorem float_of_text_unsigned (s : string) (v : Q) :
  float_of_text s = Ok v ->
  0 <= v /\ float_of_text ("-" +:+ s) = Ok v.
Proof.
  intros H. split.
  - unfold float_of_text in H. destruct (findall_numbers s) as [|run runs];
      [discriminate | now apply float_of_run_nonneg in H].
  - rewrite <- H. reflexivity.
Qed.

(** X12: what surrounds the first number of a text is ignored: a label
    before it without digit or dot, and anything after the character that
    ends it (a unit, other numbers). *)
Theorem float_of_text_first_number (pre run post : string) :
  str_forall (fun c => negb (is_digit_or_dot c)) pre = true ->
  run <> "" ->
  str_forall is_digit_or_dot run = true ->
  match post with
  | EmptyString => True
  | String c _ => is_digit_or_dot c = false
  end ->
  float_of_text (pre +:+ run +:+ post) = float_of_run run.
Proof.
  intros Hpre Hne Hrun Hpost. unfold float_of_text, findall_numbers.
  rewrite fields_aux_skip by exact Hpre.
  rewrite fields_aux_run, append_nil_l.
  2: { eapply str_forall_impl; [|exact Hrun]. intros c ->. reflexivity. }
  assert (He : is_empty run = false) by (destruct run; [congruence | reflexivity]).
  destruct post as [|c post]; cbn [fields_aux].
  - now rewrite He.
  - now rewrite Hpost, He.
Qed.

(** ** Monotonicity of rounding and clamping *)

Lemma round_half_even_bounds (x : Q) :
  (Qfloor x <= round_half_even x <= Qfloor x + 1)%Z.
Proof.
  unfold round_half_even.
  destruct (x - inject_Z (Qfloor x) ?= 1 # 2); [destruct (Z.even _)| |]; lia.
Qed.

Lemma round_half_even_mono (x y : Q) :
  x <= y -> (round_half_even x <= round_half_even y)%Z.
Proof.
  intros Hxy. pose proof (Qfloor_resp_le x y Hxy) as Hf.
  destruct (Z_lt_le_dec (Qfloor x) (Qfloor y)) as [Hlt|Hge].
  - pose proof (round_half_even_bounds x). pose proof (round_half_even_bounds y). lia.
  - assert (E : Qfloor y = Qfloor x) by lia.
    unfold round_half_even. rewrite E.
    destruct (Qcompare_spec (x - inject_Z (Qfloor x)) (1 # 2));
      destruct (Qcompare_spec (y - inject_Z (Qfloor x)) (1 # 2));
      try lra; try destruct (Z.even _); lia.
Qed.

Lemma round2_mono (x y : Q) : x <= y -> round2 x <= round2 y.
Proof.
  intros Hxy. unfold round2. rewrite !Qdiv_100.
  assert (H : (round_half_even (x * 100) <= round_half_even (y * 100))%Z).
  { apply round_half_even_mono. lra. }
  rewrite Zle_Qle in H. lra.
Qed.

Lemma clamp_mono (x y : Q) :
  x <= y -> py_max 0 (py_min 10 x) <= py_max 0 (py_min 10 y).
Proof.
  intros Hxy.
  destruct (py_min_spec 10 x) as [[? ->]|[? ->]];
    destruct (py_min_spec 10 y) as [[? ->]|[? ->]];
    destruct (py_max_spec 0 x) as [[? ?]|[? ?]];
    destruct (py_max_spec 0 y) as [[? ?]|[? ?]];
    destruct (py_max_spec 0 10) as [[? ?]|[? ?]];
    try lra; congruence || (repeat match goal with H : py_max _ _ = _ |- _ => rewrite H; clear H end; lra).
Qed.

Lemma clamp_comp (x y : Q) :
  x == y -> py_max 0 (py_min 10 x) == py_max 0 (py_min 10 y).
Proof.
  intros E. apply Qle_antisym; apply clamp_mono; lra.
Qed.

(** ** More on the sub-scores *)

Lemma sum_weights_perm (l l' : list finding) :
  Permutation l l' ->
  Spec.sum_Z (map status_weight l) = Spec.sum_Z (map status_weight l').
Proof.
  induction 1 as [|x l l' _ IH|x y l|l l' l'' _ IH1 _ IH2]; simpl; lia.
Qed.

(** X13: the ingredient sub-score does not depend on the order of the
    findings (so not on the sort of [detect_ingredients]). *)
Theorem ingredient_score_permutation (ia ia' : list finding) :
  Permutation ia ia' ->
  _compute_ingredient_score ia = _compute_ingredient_score ia'.
Proof.
  intros Hp.
  pose proof (sum_weights_perm ia ia' Hp) as Hs.
  pose proof (Permutation_length Hp) as Hl.
  destruct ia as [|x l], ia' as [|x' l']; try discriminate; [reflexivity|].
  rewrite !ingredient_score_cons, Hs, Hl. reflexivity.
Qed.

Lemma sum_weights_le (ia ia' : list finding) :
  Forall2 (fun a b => (status_weight a <= status_weight b)%Z) ia ia' ->
  (Spec.sum_Z (map status_weight ia) <= Spec.sum_Z (map status_weight ia'))%Z.
Proof. induction 1; simpl; lia. Qed.

(** X14: changing findings for findings of a greater weight (unsafe to
    caution or unknown, those to safe) never lowers the ingredient
    sub-score. *)
Theorem ingredient_score_monotone (ia ia' : list finding) :
  Forall2 (fun a b => (status_weight a <= status_weight b)%Z) ia ia' ->
  exists s s',
    _compute_ingredient_score ia = Ok s
    /\ _compute_ingredient_score ia' = Ok s'
    /\ s <= s'.
Proof.
  intros H.
  pose proof (sum_weights_le ia ia' H) as Hs.
  pose proof (Forall2_length _ _ _ H) as Hl.
  destruct H as [|a b l l' Hab Hrest].
  - exists 5, 5. repeat split; lra.
  - eexists _, _. split; [apply ingredient_score_cons|].
    split; [apply ingredient_score_cons|].
    apply round2_mono. rewrite <- Hl.
    set (n := Z.of_nat (length (a :: l))).
    assert (Hn : (0 < 2 * n)%Z) by (unfold n; simpl length; lia).
    rewrite Zlt_Qlt in Hn. change (inject_Z 0) with 0 in Hn.
    assert (Hq : inject_Z (Spec.sum_Z (map status_weight (a :: l)) + n)
                 <= inject_Z (Spec.sum_Z (map status_weight (b :: l')) + n)).
    { rewrite <- Zle_Qle. lia. }
    apply Qmult_le_compat_r; [|lra].
    unfold Qdiv. apply Qmult_le_compat_r; [exact Hq|].
    apply Qlt_le_weak, Qinv_lt_0_compat, Hn.
Qed.

(** X15: a pro more never lowers the nutrition sub-score computed from
    the findings, a con more never raises it. *)
Theorem pros_cons_score_monotone (pros pros' cons cons' : list string) :
  (length pros <= length pros')%nat -> (length cons' <= length cons)%nat ->
  _compute_nutrition_score_from_pros_cons pros cons
  <= _compute_nutrition_score_from_pros_cons pros' cons'.
Proof.
  intros Hp Hc. unfold _compute_nutrition_score_from_pros_cons, len.
  apply round2_mono, clamp_mono.
  apply Nat2Z.inj_le in Hp, Hc. rewrite Zle_Qle in Hp, Hc. lra.
Qed.

Lemma py_min_mono (a x y : Q) : x <= y -> py_min x a <= py_min y a.
Proof.
  intros Hxy.
  destruct (py_min_spec x a) as [[? ->]|[? ->]];
    destruct (py_min_spec y a) as [[? ->]|[? ->]]; lra.
Qed.

Lemma py_min_le (a x : Q) : py_min x a <= a.
Proof. destruct (py_min_spec x a) as [[? ->]|[? ->]]; lra. Qed.

Lemma py_min_nonneg (a x : Q) : 0 <= a -> 0 <= x -> 0 <= py_min x a.
Proof. intros. destruct (py_min_spec x a) as [[? ->]|[? ->]]; lra. Qed.

(** The score from the numbers, also for an empty dict (all numbers 0). *)
Lemma nutrition_values_formula (d : gmap string (option Q)) :
  _compute_nutrition_score_from_values d
  == round2 (py_max 0 (py_min 10
       (5 + (- py_min (number_or_0 d "sugar_g" / 10) (5 # 2)
             - py_min (number_or_0 d "sodium_mg" / 500) 2
             - py_min (number_or_0 d "total_fat_g" / 10) (3 # 2)
             + py_min (number_or_0 d "protein_g" / 5) 2)))).
Proof.
  unfold _compute_nutrition_score_from_values.
  destruct (dict_empty d) eqn:E; [|reflexivity].
  apply bool_decide_eq_true, map_size_empty_iff in E. subst d.
  reflexivity.
Qed.

(** X16: the nutrition sub-score computed from the numbers never rises
    with more sugar, sodium or fat, and never falls with more protein. *)
Theorem nutrition_values_monotone (d d' : gmap string (option Q)) :
  number_or_0 d "sugar_g" <= number_or_0 d' "sugar_g" ->
  number_or_0 d "sodium_mg" <= number_or_0 d' "sodium_mg" ->
  number_or_0 d "total_fat_g" <= number_or_0 d' "total_fat_g" ->
  number_or_0 d' "protein_g" <= number_or_0 d "protein_g" ->
  _compute_nutrition_score_from_values d' <= _compute_nutrition_score_from_values d.
Proof.
  intros Hs Hn Hf Hp. rewrite !nutrition_values_formula.
  apply round2_mono, clamp_mono.
  pose proof (py_min_mono (5 # 2) (number_or_0 d "sugar_g" / 10)
                (number_or_0 d' "sugar_g" / 10)) as H1.
  pose proof (py_min_mono 2 (number_or_0 d "sodium_mg" / 500)
                (number_or_0 d' "sodium_mg" / 500)) as H2.
  pose proof (py_min_mono (3 # 2) (number_or_0 d "total_fat_g" / 10)
                (number_or_0 d' "total_fat_g" / 10)) as H3.
  pose proof (py_min_mono 2 (number_or_0 d' "protein_g" / 5)
                (number_or_0 d "protein_g" / 5)) as H4.
  unfold Qdiv in *.
  change (/ 10) with (1 # 10) in *. change (/ 500) with (1 # 500) in *.
  change (/ 5) with (1 # 5) in *.
  specialize (H1 ltac:(lra)). specialize (H2 ltac:(lra)).
  specialize (H3 ltac:(lra)). specialize (H4 ltac:(lra)). lra.
Qed.

(** X17: with sugar, sodium and fat that are not negative, the nutrition
    sub-score computed from the numbers is at most 7. *)
Theorem nutrition_values_at_most_7 (d : gmap string (option Q)) :
  0 <= number_or_0 d "sugar_g" ->
  0 <= number_or_0 d "sodium_mg" ->
  0 <= number_or_0 d "total_fat_g" ->
  _compute_nutrition_score_from_values d <= 7.
Proof.
  intros Hs Hn Hf. rewrite nutrition_values_formula.
  assert (H7 : round2 7 == 7) by reflexivity. rewrite <- H7.
  apply round2_mono.
  assert (H7' : py_max 0 (py_min 10 7) == 7) by reflexivity. rewrite <- H7'.
  apply clamp_mono.
  pose proof (py_min_nonneg (5 # 2) (number_or_0 d "sugar_g" / 10)) as H1.
  pose proof (py_min_nonneg 2 (number_or_0 d "sodium_mg" / 500)) as H2.
  pose proof (py_min_nonneg (3 # 2) (number_or_0 d "total_fat_g" / 10)) as H3.
  pose proof (py_min_le 2 (number_or_0 d "protein_g" / 5)) as H4.
  unfold Qdiv in *.
  change (/ 10) with (1 # 10) in *. change (/ 500) with (1 # 500) in *.
  change (/ 5) with (1 # 5) in *.
  specialize (H1 ltac:(lra) ltac:(lra)). specialize (H2 ltac:(lra) ltac:(lra)).
  specialize (H3 ltac:(lra) ltac:(lra)). lra.
Qed.

(** ** More on scoring a dict *)

(** X21: when the dict holds numbers under [nutrition] (a dict that is not
    empty), they decide the nutrition sub-score: the lists of pros and
    cons, and what is under [nutrition_info], have no effect. *)
Theorem numbers_take_precedence (m : gmap string pyval)
    (d : gmap string (option Q)) (pros cons : list string) (wi wn : Q) :
  m !! "nutrition" = Some (PyNumbers d) ->
  dict_empty d = false ->
  compute_safety_score_from_model2_output
    (<["nutrition_pros" := PyStrList pros]> (<["nutrition_cons" := PyStrList cons]> m))
    wi wn
  = (ia ← as_findings (default (PyFindings []) (m !! "ingredient_analysis"));
     compute_safety_score ia (Some d) None None wi wn).
Proof.
  intros Hm Hd. unfold compute_safety_score_from_model2_output.
  rewrite lookup_insert_eq.
  rewrite !(lookup_insert_ne _ "nutrition_pros") by discriminate.
  rewrite lookup_insert_eq.
  rewrite !(lookup_insert_ne _ "nutrition_cons") by discriminate.
  rewrite Hm. unfold py_or, default, from_option, id.
  repeat (cbn [truthy negb]; rewrite ?Hd). cbn [as_numbers as_strings].
  destruct (as_findings _) as [ia|e]; [|reflexivity].
  cbn [mbind result_bind].
  unfold compute_safety_score, nutrition_score. now rewrite Hd.
Qed.

(** ** Alternatives (model4.py) *)

Lemma lookup_key_map (s : string) : lookup_key s = str_map key_char s.
Proof.
  unfold lookup_key, replace_char, lower.
  induction s as [|c s IH]; [reflexivity|]. simpl. now rewrite IH.
Qed.

Lemma str_map_compose (f g h : ascii -> ascii) (s : string) :
  (forall c, f (g c) = h c) -> str_map f (str_map g s) = str_map h s.
Proof.
  intros H. induction s as [|c s IH]; [reflexivity|]. simpl. now rewrite H, IH.
Qed.

(** X22: the key under which a product is looked up does not tell apart
    upper and lower case, nor a space and an underscore; taking the key of
    a key changes nothing. *)
Theorem lookup_key_spellings (name : string) :
  lookup_key (lower name) = lookup_key name
  /\ lookup_key (replace_char " " "_" name) = lookup_key name
  /\ lookup_key (lookup_key name) = lookup_key name.
Proof.
  rewrite !lookup_key_map. unfold lower, replace_char.
  repeat split; apply str_map_compose; intros c;
    destruct c as [[] [] [] [] [] [] [] []]; reflexivity.
Qed.

Lemma filter_none {A} (P : A -> Prop) `{!forall x, Decision (P x)} (l : list A) :
  Forall (fun x => ~ P x) l -> filter P l = [].
Proof.
  induction 1 as [|x l Hx _ IH]; [reflexivity|].
  rewrite filter_cons. now destruct (decide (P x)).
Qed.

Lemma filter_unique_key {A} (f : A -> string) (l : list A) (x : A) :
  NoDup (map f l) -> x ∈ l ->
  filter (fun entry : string * A => fst entry = f x) (map (fun r => (f r, r)) l)
  = [(f x, x)].
Proof.
  induction l as [|a l IH]; intros Hnd Hx; [now apply elem_of_nil in Hx|].
  simpl in Hnd. apply NoDup_cons in Hnd as [Ha Hnd].
  cbn [map]. rewrite filter_cons. cbn [fst].
  apply elem_of_cons in Hx as [->|Hx].
  - destruct (decide (f a = f a)) as [_|[]]; [|reflexivity]. f_equal.
    apply filter_none, Forall_forall. intros e He.
    apply list_elem_of_fmap in He as (r & -> & Hr). cbn [fst]. intros E.
    apply Ha. apply list_elem_of_fmap. now exists r.
  - destruct (decide (f a = f x)) as [E|_]; [|now apply IH].
    exfalso. apply Ha. apply list_elem_of_fmap. now exists x.
Qed.

Section AlternativesFacts.

Variable series_str : list string -> string.

(** X23: in a table read from a file where no two products have the same
    key, the alternative of a product is found under any spelling of its
    name that has the same key, when the score is below 7. *)
Theorem suggest_alternative_found (rows : list alternative_row)
    (row : alternative_row) (name : string) (score : Q) :
  NoDup (map (fun r => lookup_key (Product r)) rows) ->
  row ∈ rows ->
  lookup_key name = lookup_key (Product row) ->
  score < 7 ->
  suggest_alternative series_str name score (Some (load_alternatives (Loaded (Some rows))))
  = Some (Alternative_Safe_Product row).
Proof.
  intros Hnd Hrow Hkey Hscore. unfold suggest_alternative.
  assert (E : Qgeb score 7 = false) by now apply Qgeb_lt.
  rewrite E. cbn [load_alternatives]. unfold with_lookup_key.
  rewrite Hkey.
  rewrite (filter_unique_key (fun r => lookup_key (Product r)) rows row Hnd Hrow).
  destruct rows as [|r rows]; [now apply elem_of_nil in Hrow|]. reflexivity.
Qed.

(** X24: an alternative is suggested only for a score below 7 and for a
    name whose key is in the table: never for a score of 7 or more, for a
    missing or empty table, or for a product the table does not list. *)
Theorem suggest_alternative_only (name : string) (score : Q)
    (df : option (list (string * alternative_row))) (alternative : string) :
  suggest_alternative series_str name score df = Some alternative ->
  score < 7
  /\ exists table row, df = Some table /\ (lookup_key name, row) ∈ table.
Proof.
  unfold suggest_alternative.
  destruct (Qgeb score 7) eqn:E; [discriminate|]. apply Qgeb_lt in E.
  destruct df as [[|e table]|]; try discriminate.
  intros H. split; [exact E|].
  destruct (filter _ (e :: table)) as [|[k row] found] eqn:Ef; [discriminate|].
  exists (e :: table), row. split; [reflexivity|].
  assert (Hin : (k, row) ∈ filter (fun entry : string * alternative_row =>
                                    fst entry = lookup_key name) (e :: table)).
  { rewrite Ef. apply elem_of_cons. now left. }
  apply list_elem_of_filter in Hin as [Hk Hin]. cbn [fst] in Hk. now subst k.
Qed.

End AlternativesFacts.

(** ** Formatting a product (model1.py) *)

Lemma lstrip_forall (p : ascii -> bool) (s : string) :
  str_forall p s = true -> str_forall p (lstrip s) = true.
Proof.
  induction s as [|c s IH]; [reflexivity|]. cbn [lstrip].
  intros H. destruct (is_space c); [|exact H].
  simpl in H. apply andb_true_iff in H as [_ H]. now apply IH.
Qed.

Lemma rstrip_forall (p : ascii -> bool) (s : string) :
  str_forall p s = true -> str_forall p (rstrip s) = true.
Proof.
  induction s as [|c s IH]; [reflexivity|]. cbn [rstrip].
  intros H. simpl in H. apply andb_true_iff in H as [Hc H].
  destruct (is_space c && is_empty (rstrip s)); [reflexivity|].
  simpl. rewrite Hc. now apply IH.
Qed.

Lemma lstrip_idem (s : string) : lstrip (lstrip s) = lstrip s.
Proof.
  induction s as [|c s IH]; [reflexivity|]. cbn [lstrip].
  destruct (is_space c) eqn:E; [exact IH|]. cbn [lstrip]. now rewrite E.
Qed.

Lemma rstrip_idem (s : string) : rstrip (rstrip s) = rstrip s.
Proof.
  induction s as [|c s IH]; [reflexivity|]. cbn [rstrip].
  destruct (is_space c && is_empty (rstrip s)) eqn:E; [reflexivity|].
  cbn [rstrip]. now rewrite IH, E.
Qed.

(** A text that does not start with whitespace still does not after
    [rstrip]. *)
Lemma lstrip_rstrip (s : string) : lstrip s = s -> lstrip (rstrip s) = rstrip s.
Proof.
  destruct s as [|c s]; [reflexivity|]. cbn [lstrip rstrip].
  destruct (is_space c) eqn:E.
  - intros H. exfalso.
    assert (Hl : forall t, (String.length (lstrip t) <= String.length t)%nat).
    { induction t as [|x t IHt]; simpl; [lia|]. destruct (is_space x); simpl; lia. }
    pose proof (Hl s) as Hs. rewrite H in Hs. simpl in Hs. lia.
  - intros _. cbn [andb lstrip]. now rewrite E.
Qed.

Lemma strip_idem (s : string) : strip (strip s) = strip s.
Proof.
  unfold strip. rewrite (lstrip_rstrip (lstrip s) (lstrip_idem s)).
  apply rstrip_idem.
Qed.

Lemma strip_forall (p : ascii -> bool) (s : string) :
  str_forall p s = true -> str_forall p (strip s) = true.
Proof. intros H. unfold strip. now apply rstrip_forall, lstrip_forall. Qed.

Lemma split_on_pieces (sep : ascii) (s w : string) :
  str_forall (fun c => negb (Ascii.eqb c sep)) w = true ->
  Forall (fun x => str_forall (fun c => negb (Ascii.eqb c sep)) x = true)
         (split_on sep w s)
  /\ length (split_on sep w s)
     = S (String.length (str_filter (fun c => Ascii.eqb c sep) s)).
Proof.
  revert w. induction s as [|c s IH]; intros w Hw; cbn [split_on str_filter].
  - split; [repeat constructor; exact Hw | reflexivity].
  - destruct (Ascii.eqb c sep) eqn:E.
    + destruct (IH "" eq_refl) as [H1 H2].
      split; [now constructor | simpl; now rewrite H2].
    + apply IH. apply str_forall_snoc; [exact Hw | now rewrite E].
Qed.

Lemma split_on_app (sep : ascii) (x w t : string) :
  str_forall (fun c => negb (Ascii.eqb c sep)) x = true ->
  split_on sep w (x +:+ t) = split_on sep (w +:+ x) t.
Proof.
  revert w. induction x as [|c x IH]; intros w H.
  - now rewrite append_nil_l, append_nil_r.
  - simpl in H. apply andb_true_iff in H as [Hc Hx]. apply negb_true_iff in Hc.
    rewrite append_cons. cbn [split_on]. rewrite Hc, IH by exact Hx.
    now rewrite append_snoc_cons.
Qed.

Section FormattingFacts.

Variable float_str : Q -> string.

(** X25: the ingredients of a formatted product are never an empty list:
    they are one more than the commas of the cell (one, possibly the empty
    string, for an empty or missing cell); none has a comma or whitespace
    at either end. *)
Theorem format_ingredients (row : gmap string nutrient_value) (confidence : Q) :
  let l := ingredients (format_product_info float_str row confidence) in
  length l = S (String.length (str_filter is_comma (cell_str float_str row "ingredients")))
  /\ Forall (fun x => strip x = x
                      /\ str_forall (fun c => negb (is_comma c)) x = true) l.
Proof.
  cbn [ingredients format_product_info].
  destruct (split_on_pieces "," (cell_str float_str row "ingredients") "" eq_refl)
    as [Hp Hl].
  split; [rewrite length_map; exact Hl|].
  apply Forall_map. eapply Forall_impl; [exact Hp|].
  intros x Hx. cbn beta. split; [apply strip_idem | now apply strip_forall].
Qed.

(** X26: names written one after the other with [", "] between them are
    read back as they were, when none has a comma or whitespace at either
    end. *)
Theorem format_ingredients_joined (row : gmap string nutrient_value)
    (confidence : Q) (names : list string) :
  names <> [] ->
  Forall (fun x => strip x = x
                   /\ str_forall (fun c => negb (is_comma c)) x = true) names ->
  ingredients (format_product_info float_str
                 (<["ingredients" := VStr (String.concat ", " names)]> row) confidence)
  = names.
Proof.
  intros Hne Hall. cbn [ingredients format_product_info].
  unfold cell_str. rewrite lookup_insert_eq. clear row confidence.
  revert Hne.
  assert (Hgen : forall w,
    str_forall (fun c => negb (is_comma c)) w = true ->
    match names with
    | [] => True
    | x :: rest =>
        map strip (split_on "," w (String.concat ", " names)) = strip (w +:+ x) :: rest
    end).
  { induction Hall as [|x rest [Hsx Hcx] Hrest IH]; [trivial|]. intros w Hw.
    destruct rest as [|y rest'].
    - cbn [String.concat]. rewrite <- (append_nil_r x) at 1.
      rewrite split_on_app by exact Hcx. reflexivity.
    - rewrite concat_cons by discriminate.
      rewrite split_on_app by exact Hcx.
      rewrite append_cons, append_cons, append_nil_l. cbn [split_on].
      change (Ascii.eqb "," ",") with true. cbv iota. cbn [map]. f_equal.
      specialize (IH " " eq_refl). cbn beta iota in IH.
      change (Ascii.eqb " " ",") with false. cbv iota. rewrite append_nil_l, IH.
      f_equal. inversion Hrest as [|? ? [Hsy _] _]; subst.
      rewrite append_cons, append_nil_l. unfold strip. cbn [lstrip].
      change (is_space " ") with true. cbv iota. exact Hsy. }
  intros Hne. destruct names as [|x rest]; [congruence|].
  specialize (Hgen "" eq_refl). rewrite Hgen, append_nil_l. f_equal.
  now inversion Hall as [|? ? [Hsx _] _].
Qed.

End FormattingFacts.

Section FormattedProduct.

Variable float_str : Q -> string.

Lemma format_nutrition_lookup (row : gmap string nutrient_value) (confidence : Q)
    (k : string) :
  nutrition (format_product_info float_str row confidence) !! k
  = if bool_decide (k ∈ nutrition_keys) then Some (cell row k) else None.
Proof.
  cbn [nutrition format_product_info].
  rewrite !lookup_insert, lookup_singleton.
  repeat (case_decide; [subst k; reflexivity|]).
  rewrite bool_decide_eq_false_2; [reflexivity|].
  unfold nutrition_keys. rewrite !elem_of_cons, elem_of_nil. intuition congruence.
Qed.

(** X27: of a formatted product, the nutrient evaluator reads the nine
    nutrients of the [nutrition] dict and no other: an entry of the
    threshold table is given a value exactly when its nutrient is one of
    the nine and the cell of the row holds a number or a text (a missing
    column or an empty cell is skipped). *)
Theorem formatted_nutrition_supplied (row : gmap string nutrient_value)
    (confidence : Q) (entry : nutrition_row) :
  supplied (nutrition (format_product_info float_str row confidence)) entry = true
  <-> nutrient entry ∈ nutrition_keys
      /\ ((exists v, row !! nutrient entry = Some (VNum v))
          \/ (exists s, row !! nutrient entry = Some (VStr s))).
Proof.
  unfold supplied. rewrite format_nutrition_lookup.
  destruct (bool_decide (nutrient entry ∈ nutrition_keys)) eqn:E.
  - apply bool_decide_eq_true in E. unfold cell.
    destruct (row !! nutrient entry) as [[|v|s]|]; cbn [default from_option id].
    + split; [discriminate|]. intros [_ [[v H]|[s H]]]; discriminate.
    + split; [|reflexivity]. intros _. split; [exact E|]. left. now exists v.
    + split; [|reflexivity]. intros _. split; [exact E|]. right. now exists s.
    + split; [discriminate|]. intros [_ [[v H]|[s H]]]; discriminate.
  - apply bool_decide_eq_false in E. split; [discriminate | tauto].
Qed.

End FormattedProduct.

Section FormattedAnalysis.

Variable float_str : Q -> string.
Variable ratio : string -> string -> Q.

(** X28: the analysis of a formatted product always has findings: as
    many as the commas of the ingredients cell and one more, so that the
    ingredient sub-score is never the 5.0 of an empty analysis by
    default. *)
Theorem formatted_product_analysis (row : gmap string nutrient_value)
    (confidence : Q) (p : product) (df : list safety_row)
    (ndf : list nutrition_row) (names : list string) (res : gmap string pyval) :
  get_ingredients p
  = Some (ingredients (format_product_info float_str row confidence)) ->
  analyze_product ratio p df ndf names = Ok res ->
  exists ia,
    res !! "ingredient_analysis" = Some (PyFindings ia)
    /\ length ia
       = S (String.length (str_filter is_comma (cell_str float_str row "ingredients")))
    /\ ia <> [].
Proof.
  intros Hp. rewrite analyze_product_result, Hp.
  destruct (evaluate_nutrition _ ndf) as [[pros cons]|e]; [|discriminate].
  intros [= <-].
  set (ia := sorted severity _). exists ia. split; [reflexivity|].
  assert (Hl : length ia
               = S (String.length (str_filter is_comma
                                     (cell_str float_str row "ingredients")))).
  { unfold ia. rewrite (Permutation_length (sorted_perm severity _)), length_map.
    cbn [default from_option id ingredients format_product_info].
    rewrite length_map.
    now destruct (split_on_pieces "," (cell_str float_str row "ingredients") ""
                    eq_refl) as [_ ->]. }
  split; [exact Hl|]. intros E. rewrite E in Hl. discriminate.
Qed.

End FormattedAnalysis.

(** ** More runs on the sample data *)

Lemma match_ingredient_spelling_witness :
  clean_text "SUGAR!" = clean_text "sugar"
  /\ (match_ingredient indel_ratio "SUGAR!" Sample.names 80
      = match_ingredient indel_ratio "sugar" Sample.names 80
      \/ (match_ingredient indel_ratio "SUGAR!" Sample.names 80 = Some "SUGAR!"
          /\ match_ingredient indel_ratio "sugar" Sample.names 80 = Some "sugar")).
Proof.
  assert (H : clean_text "SUGAR!" = clean_text "sugar") by reflexivity.
  split; [exact H|].
  apply (match_ingredient_spelling indel_ratio "SUGAR!" "sugar" Sample.names 80 H).
Defined.

Lemma match_ingredient_none_witness :
  match_ingredient indel_ratio "xyz" ["abc"] 0 = None.
Proof.
  apply (proj2 (match_ingredient_none indel_ratio "xyz" ["abc"] 0)).
  split; [discriminate|].
  intros x Hx. apply list_elem_of_singleton in Hx. subst x. vm_compute. discriminate.
Defined.

Lemma match_ingredient_member_witness :
  0 < 80
  /\ exists y, match_ingredient indel_ratio "Iodised Salt" Sample.names 80 = Some y
               /\ (y ∈ Sample.names \/ y = "Iodised Salt").
Proof.
  assert (H : 0 < 80) by reflexivity.
  split; [exact H|].
  apply (match_ingredient_member indel_ratio "Iodised Salt" Sample.names 80 H).
Defined.

Lemma match_ingredient_exact_witness :
  "Palm Oil" ∈ Sample.names
  /\ clean_text "palm-oil" = clean_text "Palm Oil"
  /\ exists y l1 l2,
       match_ingredient indel_ratio "palm-oil" Sample.names 80 = Some y
       /\ Sample.names = (l1 ++ y :: l2)%list
       /\ clean_text y = clean_text "palm-oil"
       /\ forall z, z ∈ l1 -> clean_text z <> clean_text "palm-oil".
Proof.
  assert (Hin : "Palm Oil" ∈ Sample.names) by (vm_compute; repeat constructor).
  assert (Hc : clean_text "palm-oil" = clean_text "Palm Oil") by reflexivity.
  assert (H0 : 0 < 80) by reflexivity.
  assert (H1 : 80 <= 100) by discriminate.
  split; [exact Hin|]. split; [exact Hc|].
  apply (match_ingredient_exact indel_ratio indel_ratio_refl indel_ratio_le
           indel_ratio_full "palm-oil" "Palm Oil" Sample.names 80 H0 H1 Hin Hc).
Defined.

Lemma finding_of_catalog_name_witness :
  Spec.resolve indel_ratio (ingredients_list_of Sample.catalog) "suger"
    ∈ ingredients_list_of Sample.catalog
  /\ exists l1 row l2,
       Sample.catalog = (l1 ++ row :: l2)%list
       /\ lower (ingredient_name row)
          = lower (Spec.resolve indel_ratio (ingredients_list_of Sample.catalog) "suger")
       /\ Forall (fun r => lower (ingredient_name r)
                           <> lower (Spec.resolve indel_ratio
                                       (ingredients_list_of Sample.catalog) "suger")) l1
       /\ Spec.finding_of indel_ratio Sample.catalog
            (ingredients_list_of Sample.catalog) "suger"
          = {[ "name" := Spec.resolve indel_ratio (ingredients_list_of Sample.catalog) "suger";
               "status" := safety_status row;
               "reason" := reason_for_unsafety row ]}.
Proof.
  assert (Hin : Spec.resolve indel_ratio (ingredients_list_of Sample.catalog) "suger"
                  ∈ ingredients_list_of Sample.catalog)
    by (vm_compute; repeat constructor).
  split; [exact Hin|].
  apply (finding_of_catalog_name indel_ratio Sample.catalog "suger" Hin).
Defined.

Lemma sample_readable : Forall (Spec.readable Sample.nutrition) Sample.standards.
Proof.
  repeat constructor; intros s Hs; vm_compute in Hs; try discriminate.
  injection Hs as <-. eexists. vm_compute. reflexivity.
Qed.

Lemma evaluate_nutrition_succeeds_witness :
  Forall (Spec.readable Sample.nutrition) Sample.standards
  /\ exists r, evaluate_nutrition Sample.nutrition Sample.standards = Ok r.
Proof.
  split; [exact sample_readable|].
  apply (proj2 (evaluate_nutrition_succeeds Sample.nutrition Sample.standards)).
  exact sample_readable.
Defined.

Lemma evaluate_nutrition_count_witness :
  evaluate_nutrition Sample.nutrition Sample.standards
  = Ok (["Balanced protein_g"; "Balanced sodium_mg"],
        ["High total_sugar_g (limit added sugars)"])
  /\ ((2 + 1)%nat
      = length (filter (fun row => supplied Sample.nutrition row = true) Sample.standards)
      /\ evaluate_nutrition ∅ Sample.standards = Ok ([], [])).
Proof.
  assert (H : evaluate_nutrition Sample.nutrition Sample.standards
              = Ok (["Balanced protein_g"; "Balanced sodium_mg"],
                    ["High total_sugar_g (limit added sugars)"]))
    by (vm_compute; reflexivity).
  split; [exact H|].
  apply (evaluate_nutrition_count Sample.nutrition Sample.standards _ _ H).
Defined.

Lemma float_of_text_unsigned_witness :
  float_of_text "5 g" = Ok (5 / 1)
  /\ 0 <= 5 / 1 /\ float_of_text "-5 g" = Ok (5 / 1).
Proof.
  assert (H : float_of_text "5 g" = Ok (5 / 1)) by reflexivity.
  split; [exact H|].
  apply (float_of_text_unsigned "5 g" (5 / 1) H).
Defined.

Lemma float_of_text_first_number_witness :
  float_of_text ("approx " +:+ "12.5" +:+ " g per 100 g") = float_of_run "12.5"
  /\ float_of_run "12.5" = Ok (125 / 10).
Proof.
  split; [|reflexivity].
  apply (float_of_text_first_number "approx " "12.5" " g per 100 g");
    [reflexivity | discriminate | reflexivity | reflexivity].
Defined.

Lemma ingredient_score_permutation_witness :
  _compute_ingredient_score [Sample2.unsafe_finding; Sample2.safe_finding]
  = _compute_ingredient_score [Sample2.safe_finding; Sample2.unsafe_finding].
Proof.
  apply ingredient_score_permutation. apply perm_swap.
Defined.

Lemma ingredient_score_monotone_witness :
  exists s s',
    _compute_ingredient_score [Sample2.unsafe_finding; Sample2.unsafe_finding] = Ok s
    /\ _compute_ingredient_score [Sample2.unsafe_finding; Sample2.safe_finding] = Ok s'
    /\ s <= s'.
Proof.
  apply ingredient_score_monotone.
  repeat constructor; vm_compute; discriminate.
Defined.

Lemma pros_cons_score_monotone_witness :
  _compute_nutrition_score_from_pros_cons ["a"] ["x"; "y"]
  <= _compute_nutrition_score_from_pros_cons ["a"; "b"] ["x"].
Proof.
  apply pros_cons_score_monotone; simpl; lia.
Defined.

Lemma nutrition_values_monotone_witness :
  _compute_nutrition_score_from_values Sample2.sweeter
  <= _compute_nutrition_score_from_values Sample.scenario_b.
Proof.
  apply nutrition_values_monotone; vm_compute; discriminate.
Defined.

Lemma nutrition_values_at_most_7_witness :
  _compute_nutrition_score_from_values Sample.scenario_b <= 7.
Proof.
  apply nutrition_values_at_most_7; vm_compute; discriminate.
Defined.

Lemma numbers_take_precedence_witness :
  compute_safety_score_from_model2_output
    (<["nutrition_pros" := PyStrList ["a"; "b"]]>
       (<["nutrition_cons" := PyStrList ["x"]]> Sample2.with_numbers))
    (6 # 10) (4 # 10)
  = (ia ← as_findings (default (PyFindings []) (Sample2.with_numbers !! "ingredient_analysis"));
     compute_safety_score ia (Some Sample.scenario_b) None None (6 # 10) (4 # 10)).
Proof.
  apply numbers_take_precedence; reflexivity.
Defined.

Lemma suggest_alternative_found_witness :
  suggest_alternative Sample2.no_series "coca cola" 5
    (Some (load_alternatives (Loaded (Some example_rows))))
  = Some "Sparkling Water with a slice of lemon/lime".
Proof.
  apply (suggest_alternative_found Sample2.no_series example_rows
           {| Product := "Coca_Cola"; Category := "Carbonated Soft Drink";
              Alternative_Safe_Product := "Sparkling Water with a slice of lemon/lime" |}).
  - apply (bool_decide_unpack _). vm_compute. exact I.
  - vm_compute. repeat constructor.
  - reflexivity.
  - reflexivity.
Defined.

Lemma suggest_alternative_only_witness :
  suggest_alternative Sample2.no_series "Parle G" 3 (Some (load_alternatives FileNotFound))
  = Some "Whole Wheat Digestive Biscuits"
  /\ 3 < 7
  /\ exists table row,
       Some (load_alternatives FileNotFound) = Some table
       /\ (lookup_key "Parle G", row) ∈ table.
Proof.
  assert (H : suggest_alternative Sample2.no_series "Parle G" 3
                (Some (load_alternatives FileNotFound))
              = Some "Whole Wheat Digestive Biscuits") by reflexivity.
  split; [exact H|].
  apply (suggest_alternative_only Sample2.no_series "Parle G" 3 _ _ H).
Defined.

Lemma format_ingredients_joined_witness :
  ingredients (format_product_info Sample2.no_repr
                 (<["ingredients" := VStr (String.concat ", " ["Sugar"; "Palm Oil"; "Salt"])]> ∅)
                 1)
  = ["Sugar"; "Palm Oil"; "Salt"].
Proof.
  apply format_ingredients_joined; [discriminate|].
  repeat constructor; reflexivity.
Defined.

Lemma formatted_nutrition_supplied_witness :
  supplied (nutrition (format_product_info Sample2.no_repr Sample2.excel_row 1))
           Sample.protein_row = true.
Proof.
  apply (proj2 (formatted_nutrition_supplied Sample2.no_repr Sample2.excel_row 1
                  Sample.protein_row)).
  split; [apply (bool_decide_unpack _); vm_compute; exact I|].
  left. exists 5. reflexivity.
Defined.

Example formatted_analyzed :
  analyze_product indel_ratio Sample2.formatted Sample.catalog Sample.standards
    Sample.names
  = Ok Sample2.formatted_analysis.
Proof. vm_cast_no_check (eq_refl (Ok Sample2.formatted_analysis)). Qed.

Lemma formatted_product_analysis_witness :
  exists ia,
    Sample2.formatted_analysis !! "ingredient_analysis" = Some (PyFindings ia)
    /\ length ia
       = S (String.length (str_filter is_comma
              (cell_str Sample2.no_repr Sample2.excel_row "ingredients")))
    /\ ia <> [].
Proof.
  apply (formatted_product_analysis Sample2.no_repr indel_ratio Sample2.excel_row 1
           Sample2.formatted Sample.catalog Sample.standards Sample.names
           Sample2.formatted_analysis eq_refl formatted_analyzed).
Defined.
